(** * FX analytics dashboard: the technical-indicator core

    A shallow embedding of [calculate_technical_indicators], of the
    statistics block of [get_ai_analysis] and of the signal table built in
    [display_single_currency_analysis] (file [fx_handson/fx_handson_app.py]),
    and the properties of them that the specification states.

    Numbers.  The program computes on IEEE doubles held in pandas Series.
    Here a double is an exact rational extended with the three special
    values the program relies on: NaN, the "no value" sentinel, and the
    two infinities that division by zero produces.  Rounding and the sign
    of zero are not modelled; the square root is a rational lower
    approximation.

    pandas.  The Series operations follow the documented behaviour of the
    calls as the program writes them, defaults included:
    [rolling(window=k)] has [min_periods = k] and skips NaN, [std()] has
    [ddof = 1], [ewm(span, adjust=False)] has no warm-up.

    Frames.  A DataFrame is a finite map from column names to columns, held
    in a store of frames addressed by references, so that [df.copy()] and
    the column assignments [df['X'] = ...] are what they are in the source:
    an allocation and in-place updates of the working copy.  A computation
    either raises or returns a value and the store it leaves. *)

From Stdlib Require Import ZArith QArith Qabs Qreduction Lia Lqa.
From stdpp Require Import gmap strings list fin_maps.
From Stdlib Require Import Ascii.

Local Open Scope Q_scope.

(** ** Floating-point values *)

Module FL.

Inductive fl : Type :=
  | NaN
  | PInf
  | NInf
  | Fin (q : Q).

Definition Qltb (x y : Q) : bool :=
  match x ?= y with Lt => true | _ => false end.

Definition notna (x : fl) : bool :=
  match x with NaN => false | _ => true end.

Definition fneg (x : fl) : fl :=
  match x with
  | NaN => NaN
  | PInf => NInf
  | NInf => PInf
  | Fin q => Fin (- q)
  end.

Definition fabs (x : fl) : fl :=
  match x with
  | NaN => NaN
  | PInf | NInf => PInf
  | Fin q => Fin (Qabs q)
  end.

Definition fadd (x y : fl) : fl :=
  match x, y with
  | NaN, _ | _, NaN => NaN
  | PInf, NInf | NInf, PInf => NaN
  | PInf, _ | _, PInf => PInf
  | NInf, _ | _, NInf => NInf
  | Fin p, Fin q => Fin (p + q)
  end.

Definition fsub (x y : fl) : fl := fadd x (fneg y).

(** The infinity of the sign of [q] times the sign of [pos]; NaN for 0. *)
Definition inf_signed (pos : bool) (q : Q) : fl :=
  if Qeq_bool q 0 then NaN
  else if Bool.eqb pos (Qltb 0 q) then PInf else NInf.

Definition fmul (x y : fl) : fl :=
  match x, y with
  | NaN, _ | _, NaN => NaN
  | PInf, PInf | NInf, NInf => PInf
  | PInf, NInf | NInf, PInf => NInf
  | PInf, Fin q | Fin q, PInf => inf_signed true q
  | NInf, Fin q | Fin q, NInf => inf_signed false q
  | Fin p, Fin q => Fin (p * q)
  end.

(** Division: a finite non-zero value over zero is an infinity, [0/0] and
    [inf/inf] are NaN, a finite value over an infinity is zero. *)
Definition fdiv (x y : fl) : fl :=
  match x, y with
  | NaN, _ | _, NaN => NaN
  | (PInf | NInf), (PInf | NInf) => NaN
  | PInf, Fin q => if Qltb q 0 then NInf else PInf
  | NInf, Fin q => if Qltb q 0 then PInf else NInf
  | Fin _, (PInf | NInf) => Fin 0
  | Fin p, Fin q => if Qeq_bool q 0 then inf_signed true p else Fin (p / q)
  end.

(** [x > y] and [x < y] as Python evaluates them on floats: false as soon
    as one side is NaN. *)
Definition fgt (x y : fl) : bool :=
  match x, y with
  | NaN, _ | _, NaN => false
  | PInf, PInf => false
  | PInf, _ => true
  | _, PInf => false
  | NInf, _ => false
  | _, NInf => true
  | Fin p, Fin q => Qltb q p
  end.

Definition flt (x y : fl) : bool := fgt y x.

(** [x != y] on floats: NaN differs from everything, itself included. *)
Definition fne (x y : fl) : bool :=
  match x, y with
  | NaN, _ | _, NaN => true
  | PInf, PInf | NInf, NInf => false
  | Fin p, Fin q => negb (Qeq_bool p q)
  | _, _ => true
  end.

(** Square root of a rational [n/d] in lowest terms: the integer square
    root of [n * d * 2^106] over [d * 2^53], which is below the real
    square root by less than [1 / (d * 2^53)] and exact when [n * d] is a
    square. *)
Definition Qsqrt (q : Q) : Q :=
  let r := Qred q in
  Z.sqrt (Qnum r * Zpos (Qden r) * 2 ^ 106) # (Qden r * 2 ^ 53).

Definition fsqrt (x : fl) : fl :=
  match x with
  | NaN | NInf => NaN
  | PInf => PInf
  | Fin q => if Qltb q 0 then NaN else Fin (Qsqrt q)
  end.

Definition of_nat (n : nat) : fl := Fin (inject_Z (Z.of_nat n)).

(** The strict order of the values, NaN unordered. *)
Inductive fl_lt : fl -> fl -> Prop :=
  | lt_fin p q : p < q -> fl_lt (Fin p) (Fin q)
  | lt_ninf_fin q : fl_lt NInf (Fin q)
  | lt_fin_pinf p : fl_lt (Fin p) PInf
  | lt_ninf_pinf : fl_lt NInf PInf.

(** Equality of values: rationals are compared by value. *)
Definition feq (x y : fl) : Prop :=
  match x, y with
  | NaN, NaN | PInf, PInf | NInf, NInf => True
  | Fin p, Fin q => p == q
  | _, _ => False
  end.

End FL.
Export FL.

(** ** pandas Series operations

    A numeric Series is a list of values in row order.  The operations
    below are the ones the program calls, with the defaults it leaves
    untouched ([min_periods] equal to the window, [ddof=1],
    [ignore_na=False]). *)

Module Series.

Abbreviation series := (list fl).

(** [s.shift(1)] *)
Definition shift (s : series) : series := take (length s) (NaN :: s).

(** [s.diff()], which pandas computes as [s - s.shift(1)]. *)
Definition diff (s : series) : series := zip_with fsub s (shift s).

(** [s.pct_change()], which pandas computes as [s / s.shift(1) - 1]
    (after a forward fill of missing values, of which the rates have
    none). *)
Definition pct_change (s : series) : series :=
  zip_with (fun x p => fsub (fdiv x p) (Fin 1)) s (shift s).

(** [s.where(cond, other)]: keep the value where the condition holds. *)
Definition where_ (s : series) (cond : fl -> bool) (other : fl) : series :=
  fmap (fun x => if cond x then x else other) s.

Definition fsum (w : list fl) : fl := foldl fadd (Fin 0) w.

(** [mean()] of the observations of a window or of a whole Series. *)
Definition mean (w : list fl) : fl := fdiv (fsum w) (of_nat (length w)).

(** Variance with [ddof] delta degrees of freedom: the sum of the squared
    deviations from the mean over [n - ddof]; NaN when [n <= ddof]. *)
Definition var (ddof : nat) (w : list fl) : fl :=
  if (length w <=? ddof)%nat then NaN
  else
    let m := mean w in
    let ss := fsum (fmap (fun x => let d := fsub x m in fmul d d) w) in
    fdiv ss (of_nat (length w - ddof)).

(** [std()]: pandas leaves [ddof] at its default 1. *)
Definition std (w : list fl) : fl := fsqrt (var 1 w).

Definition fmax2 (x y : fl) : fl := if fgt y x then y else x.
Definition fmin2 (x y : fl) : fl := if flt y x then y else x.

Definition max (w : list fl) : fl :=
  match w with [] => NaN | x :: r => foldl fmax2 x r end.
Definition min (w : list fl) : fl :=
  match w with [] => NaN | x :: r => foldl fmin2 x r end.

(** The trailing window of [k] rows that ends at row [i], shorter at the
    start of the Series. *)
Definition window (k i : nat) (s : series) : list fl :=
  take (S i - (S i - k)) (drop (S i - k) s).

(** [s.rolling(window=k).agg()]: the aggregate of the observations (the
    values that are not NaN) of each trailing window, NaN when the window
    holds fewer than [min_periods = k] of them. *)
Definition rolling (k : nat) (agg : list fl -> fl) (s : series) : series :=
  fmap (fun i =>
         let obs := filter (fun x => notna x = true) (window k i s) in
         if (length obs <? k)%nat then NaN else agg obs)
      (seq 0 (length s)).

(** [s.ewm(span=span, adjust=False).mean()].  [alpha = 2/(span+1)].  The
    state is the running mean and the weight of what came before; a NaN
    row repeats the mean and ages the old weight. *)
Definition ewm_alpha (span : nat) : Q := 2 / (inject_Z (Z.of_nat span) + 1).

Definition ewm_step (alpha : Q) (st : fl * Q) (cur : fl) : fl * Q :=
  let '(weighted, old_wt) := st in
  if notna weighted then
    let old_wt := old_wt * (1 - alpha) in
    if notna cur then
      let weighted :=
        if fne weighted cur
        then fdiv (fadd (fmul (Fin old_wt) weighted) (fmul (Fin alpha) cur))
                  (Fin (old_wt + alpha))
        else weighted in
      (weighted, 1)
    else (weighted, old_wt)
  else (cur, old_wt).

Fixpoint ewm_from (alpha : Q) (st : fl * Q) (s : series) : series :=
  match s with
  | [] => []
  | cur :: r =>
      let st' := ewm_step alpha st cur in
      fst st' :: ewm_from alpha st' r
  end.

Definition ewm_mean (span : nat) (s : series) : series :=
  match s with
  | [] => []
  | x :: r => x :: ewm_from (ewm_alpha span) (x, 1) r
  end.

(** [s.tail(n)] and [s.iloc[-1]], [s.iloc[0]]. *)
Definition tail (n : nat) (s : series) : series := drop (length s - n) s.

End Series.

Export Series.

(** ** DataFrames, the store and the exceptions *)

(** A column holds floats, or anything else (dates, identifiers), which
    the numeric operations refuse. *)
Inductive column : Type :=
  | NumCol (s : series)
  | ObjCol (s : list string).

Abbreviation frame := (gmap string column).
Abbreviation loc := positive.
Abbreviation store := (gmap loc frame).

Inductive exn : Type :=
  | KeyError (k : string)
  | DataError (k : string)
  | IndexError
  | TypeError
  | Dangling (l : loc).

(** Computations that read and update the store and may raise. *)
Definition M (A : Type) : Type := store -> exn + (A * store).

Definition ret {A} (a : A) : M A := fun h => inr (a, h).
Definition raise {A} (e : exn) : M A := fun _ => inl e.
Definition bind {A B} (m : M A) (k : A -> M B) : M B :=
  fun h => match m h with
           | inl e => inl e
           | inr (a, h') => k a h'
           end.

#[global] Instance M_ret : MRet M := @ret.
#[global] Instance M_bind : MBind M := fun A B k m => bind m k.

(** [df.copy()]: a new frame with the same columns. *)
Definition copy (df : loc) : M loc :=
  fun h => match h !! df with
           | None => inl (Dangling df)
           | Some f => let l := fresh (dom h) in inr (l, <[l := f]> h)
           end.

(** [df[c]] read as a numeric Series. *)
Definition getcol (df : loc) (c : string) : M series :=
  fun h => match h !! df with
           | None => inl (Dangling df)
           | Some f =>
               match f !! c with
               | None => inl (KeyError c)
               | Some (ObjCol _) => inl (DataError c)
               | Some (NumCol s) => inr (s, h)
               end
           end.

(** [df[c] = s]: the column is added to, or replaced in, the frame that
    [df] refers to. *)
Definition setcol (df : loc) (c : string) (s : series) : M unit :=
  fun h => match h !! df with
           | None => inl (Dangling df)
           | Some f => inr (tt, <[df := <[c := NumCol s]> f]> h)
           end.

(** Element-wise arithmetic of two Series of one frame, and of a Series
    and a scalar. *)
Definition sadd (a b : series) : series := zip_with fadd a b.
Definition ssub (a b : series) : series := zip_with fsub a b.
Definition sdiv (a b : series) : series := zip_with fdiv a b.
Definition smap (f : fl -> fl) (a : series) : series := fmap f a.

(** ** The indicator computation (lines 221-274) *)

Definition calculate_technical_indicators
    (df0 : loc) (price_col : string) : M loc :=
  df ← copy df0;
  (* moving averages *)
  p ← getcol df price_col; setcol df "MA_5" (rolling 5 mean p);;
  p ← getcol df price_col; setcol df "MA_20" (rolling 20 mean p);;
  p ← getcol df price_col; setcol df "MA_50" (rolling 50 mean p);;
  p ← getcol df price_col; setcol df "MA_200" (rolling 200 mean p);;
  (* Bollinger bands *)
  p ← getcol df price_col; setcol df "BB_Middle" (rolling 20 mean p);;
  p ← getcol df price_col;
  let bb_std := rolling 20 std p in
  m ← getcol df "BB_Middle";
  setcol df "BB_Upper" (sadd m (smap (fun x => fmul x (Fin 2)) bb_std));;
  m ← getcol df "BB_Middle";
  setcol df "BB_Lower" (ssub m (smap (fun x => fmul x (Fin 2)) bb_std));;
  (* RSI *)
  p ← getcol df price_col;
  let delta := diff p in
  let gain := rolling 14 mean (where_ delta (fun d => fgt d (Fin 0)) (Fin 0)) in
  let loss :=
    rolling 14 mean
      (smap fneg (where_ delta (fun d => flt d (Fin 0)) (Fin 0))) in
  let rs := sdiv gain loss in
  setcol df "RSI"
    (smap (fun r => fsub (Fin 100) (fdiv (Fin 100) (fadd (Fin 1) r))) rs);;
  (* MACD *)
  p ← getcol df price_col;
  let exp1 := ewm_mean 12 p in
  p ← getcol df price_col;
  let exp2 := ewm_mean 26 p in
  setcol df "MACD" (ssub exp1 exp2);;
  macd ← getcol df "MACD";
  setcol df "MACD_Signal" (ewm_mean 9 macd);;
  macd ← getcol df "MACD";
  sig ← getcol df "MACD_Signal";
  setcol df "MACD_Histogram" (ssub macd sig);;
  (* stochastics *)
  p ← getcol df price_col;
  let high_14 := rolling 14 Series.max p in
  p ← getcol df price_col;
  let low_14 := rolling 14 Series.min p in
  p ← getcol df price_col;
  setcol df "Stoch_K"
    (smap (fun x => fmul (Fin 100) x)
          (sdiv (ssub p low_14) (ssub high_14 low_14)));;
  k ← getcol df "Stoch_K";
  setcol df "Stoch_D" (rolling 3 mean k);;
  (* ADX *)
  p ← getcol df price_col;
  let price_diff := diff p in
  p ← getcol df price_col;
  setcol df "TR" (smap fabs (diff p));;
  tr ← getcol df "TR";
  setcol df "ATR" (rolling 14 mean tr);;
  setcol df "DM_Plus" (where_ price_diff (fun d => fgt d (Fin 0)) (Fin 0));;
  setcol df "DM_Minus"
    (fmap (fun d => if flt d (Fin 0) then fneg d else Fin 0) price_diff);;
  dmp ← getcol df "DM_Plus";
  atr ← getcol df "ATR";
  setcol df "DI_Plus"
    (smap (fun x => fmul (Fin 100) x) (sdiv (rolling 14 mean dmp) atr));;
  dmm ← getcol df "DM_Minus";
  atr ← getcol df "ATR";
  setcol df "DI_Minus"
    (smap (fun x => fmul (Fin 100) x) (sdiv (rolling 14 mean dmm) atr));;
  dip ← getcol df "DI_Plus";
  dim ← getcol df "DI_Minus";
  dip' ← getcol df "DI_Plus";
  dim' ← getcol df "DI_Minus";
  setcol df "DX"
    (sdiv (smap (fun x => fmul (Fin 100) x) (smap fabs (ssub dip dim)))
          (sadd dip' dim'));;
  dx ← getcol df "DX";
  setcol df "ADX" (rolling 14 mean dx);;
  (* volatility *)
  p ← getcol df price_col;
  setcol df "Volatility" (rolling 20 std p);;
  (* daily return *)
  p ← getcol df price_col;
  setcol df "Daily_Return" (pct_change p);;
  ret df.

(** ** The statistics block of [get_ai_analysis] (lines 280-294)

    The function goes on to format these statistics into a prompt and to
    send it to the completion service; that part is not embedded. *)

(** Reductions of a whole Series skip NaN ([skipna=True]). *)
Definition observations (s : series) : list fl :=
  filter (fun x => notna x = true) s.

Definition col_tail (n : nat) (c : column) : column :=
  match c with
  | NumCol s => NumCol (tail n s)
  | ObjCol s => ObjCol (drop (length s - n) s)
  end.

(** [df.tail(n)]: a new frame with the last [n] rows. *)
Definition tail_df (df : loc) (n : nat) : M loc :=
  fun h => match h !! df with
           | None => inl (Dangling df)
           | Some f =>
               let l := fresh (dom h) in
               inr (l, <[l := col_tail n <$> f]> h)
           end.

Definition col_len (c : column) : nat :=
  match c with NumCol s => length s | ObjCol s => length s end.

(** The number of rows of a frame, read off a column. *)
Definition frame_len (f : frame) : nat :=
  match map_to_list f with
  | [] => 0
  | (_, c) :: _ => col_len c
  end.

(** [len(df)] *)
Definition len_df (df : loc) : M nat :=
  fun h => match h !! df with
           | None => inl (Dangling df)
           | Some f => inr (frame_len f, h)
           end.

(** The columns of a DataFrame all have the length of its index. *)
Definition frame_aligned (f : frame) : Prop :=
  forall c1 c2 col1 col2,
    f !! c1 = Some col1 -> f !! c2 = Some col2 -> col_len col1 = col_len col2.

(** [s.iloc[i]] for [i >= 0] and [s.iloc[-i]] for [i >= 1]. *)
Definition iloc (s : series) (i : nat) : M fl :=
  match s !! i with Some x => mret x | None => raise IndexError end.
Definition iloc_neg (s : series) (i : nat) : M fl :=
  if (length s <? i)%nat then raise IndexError else iloc s (length s - i).

Definition up : string := "上昇".
Definition down : string := "下降".

Record summary : Type := {
  latest_rate : fl;
  prev_rate : fl;
  change : fl;
  change_pct : fl;
  min_rate : fl;
  max_rate : fl;
  avg_rate : fl;
  volatility : fl;
  recent_trend : string
}.

Definition get_ai_analysis_summary (df : loc) : M summary :=
  r ← getcol df "EXCHANGE_RATE";
  latest ← iloc_neg r 1;
  n ← len_df df;
  prev ← (if (1 <? n)%nat
          then r ← getcol df "EXCHANGE_RATE"; iloc_neg r 2
          else mret latest);
  let chg := fsub latest prev in
  let chg_pct :=
    if fne prev (Fin 0) then fmul (fdiv chg prev) (Fin 100) else Fin 0 in
  r ← getcol df "EXCHANGE_RATE"; let mn := Series.min (observations r) in
  r ← getcol df "EXCHANGE_RATE"; let mx := Series.max (observations r) in
  r ← getcol df "EXCHANGE_RATE"; let avg := mean (observations r) in
  r ← getcol df "EXCHANGE_RATE"; let vol := std (observations r) in
  recent_data ← tail_df df 10;
  a ← getcol recent_data "EXCHANGE_RATE";
  last10 ← iloc_neg a 1;
  b ← getcol recent_data "EXCHANGE_RATE";
  first10 ← iloc b 0;
  mret {| latest_rate := latest; prev_rate := prev; change := chg;
          change_pct := chg_pct; min_rate := mn; max_rate := mx;
          avg_rate := avg; volatility := vol;
          recent_trend := if fgt last10 first10 then up else down |}.

(** ** The signal table of [display_single_currency_analysis]
    (lines 889-902) *)

Inductive cell : Type :=
  | CNum (x : fl)
  | CStr (s : string).

Abbreviation row := (gmap string cell).

Definition col_last (c : column) : option cell :=
  match c with
  | NumCol s => CNum <$> last s
  | ObjCol s => CStr <$> last s
  end.

(** [df.iloc[-1]]: the last row; IndexError on a frame without rows. *)
Definition iloc_last (df : loc) : M row :=
  fun h => match h !! df with
           | None => inl (Dangling df)
           | Some f =>
               let r := omap col_last f in
               if decide (r = ∅) then inl IndexError else inr (r, h)
           end.

(** ['c' in df.columns] *)
Definition has_column (df : loc) (c : string) : M bool :=
  fun h => match h !! df with
           | None => inl (Dangling df)
           | Some f => inr (bool_decide (is_Some (f !! c)), h)
           end.

Definition overbought : string := "買われすぎ".
Definition oversold : string := "売られすぎ".
Definition neutral : string := "中立".
Definition strong_trend : string := "強いトレンド".
Definition weak_trend : string := "弱いトレンド".
Definition ranging : string := "レンジ相場".

(** One line of the table: the indicator, its value (which the program
    prints with one decimal) and the signal. *)
Record entry : Type := {
  indicator : string;
  value : fl;
  signal : string
}.

(** [if 'c' in df.columns and pd.notna(latest_data['c']): ...]: the
    entry that [classify] builds from the value, or nothing. *)
Definition tech_entry (df : loc) (latest_data : row) (c : string)
    (name : string) (classify : fl -> string) : M (list entry) :=
  present ← has_column df c;
  if present : bool then
    match latest_data !! c with
    | None => raise (KeyError c)
    | Some (CStr _) => raise TypeError
    | Some (CNum x) =>
        if notna x
        then mret [ {| indicator := name; value := x; signal := classify x |} ]
        else mret []
    end
  else mret [].

Definition rsi_signal (x : fl) : string :=
  if fgt x (Fin 70) then overbought
  else if flt x (Fin 30) then oversold else neutral.

Definition stoch_signal (x : fl) : string :=
  if fgt x (Fin 80) then overbought
  else if flt x (Fin 20) then oversold else neutral.

Definition adx_signal (x : fl) : string :=
  if fgt x (Fin 25) then strong_trend
  else if fgt x (Fin 20) then weak_trend else ranging.

Definition tech_data (df : loc) : M (list entry) :=
  latest_data ← iloc_last df;
  e1 ← tech_entry df latest_data "RSI" "RSI" rsi_signal;
  e2 ← tech_entry df latest_data "Stoch_K" "Stochastic %K" stoch_signal;
  e3 ← tech_entry df latest_data "ADX" "ADX" adx_signal;
  mret (e1 ++ e2 ++ e3).

(** ** The output frame as a function of the input frame

    The indicator Series as functions of the price Series, and the frame
    that the computation leaves in the store. *)

Definition times100 (s : series) : series := smap (fun x => fmul (Fin 100) x) s.
Definition times2 (s : series) : series := smap (fun x => fmul x (Fin 2)) s.

Definition gains (p : series) : series :=
  where_ (diff p) (fun d => fgt d (Fin 0)) (Fin 0).
Definition losses (p : series) : series :=
  smap fneg (where_ (diff p) (fun d => flt d (Fin 0)) (Fin 0)).
Definition rsi_of_rs (r : fl) : fl :=
  fsub (Fin 100) (fdiv (Fin 100) (fadd (Fin 1) r)).
Definition rsi (p : series) : series :=
  smap rsi_of_rs (sdiv (rolling 14 mean (gains p)) (rolling 14 mean (losses p))).
Definition macd (p : series) : series := ssub (ewm_mean 12 p) (ewm_mean 26 p).
Definition macd_signal (p : series) : series := ewm_mean 9 (macd p).
Definition stoch_k (p : series) : series :=
  times100 (sdiv (ssub p (rolling 14 Series.min p))
                 (ssub (rolling 14 Series.max p) (rolling 14 Series.min p))).
Definition tr (p : series) : series := smap fabs (diff p).
Definition atr (p : series) : series := rolling 14 mean (tr p).
Definition dm_plus (p : series) : series := gains p.
Definition dm_minus (p : series) : series :=
  fmap (fun d => if flt d (Fin 0) then fneg d else Fin 0) (diff p).
Definition di_plus (p : series) : series :=
  times100 (sdiv (rolling 14 mean (dm_plus p)) (atr p)).
Definition di_minus (p : series) : series :=
  times100 (sdiv (rolling 14 mean (dm_minus p)) (atr p)).
Definition dx (p : series) : series :=
  sdiv (times100 (smap fabs (ssub (di_plus p) (di_minus p))))
       (sadd (di_plus p) (di_minus p)).

(** The column assignments, in program order. *)
Definition indicator_columns (p : series) : list (string * series) :=
  [ ("MA_5", rolling 5 mean p);
    ("MA_20", rolling 20 mean p);
    ("MA_50", rolling 50 mean p);
    ("MA_200", rolling 200 mean p);
    ("BB_Middle", rolling 20 mean p);
    ("BB_Upper", sadd (rolling 20 mean p) (times2 (rolling 20 std p)));
    ("BB_Lower", ssub (rolling 20 mean p) (times2 (rolling 20 std p)));
    ("RSI", rsi p);
    ("MACD", macd p);
    ("MACD_Signal", macd_signal p);
    ("MACD_Histogram", ssub (macd p) (macd_signal p));
    ("Stoch_K", stoch_k p);
    ("Stoch_D", rolling 3 mean (stoch_k p));
    ("TR", tr p);
    ("ATR", atr p);
    ("DM_Plus", dm_plus p);
    ("DM_Minus", dm_minus p);
    ("DI_Plus", di_plus p);
    ("DI_Minus", di_minus p);
    ("DX", dx p);
    ("ADX", rolling 14 mean (dx p));
    ("Volatility", rolling 20 std p);
    ("Daily_Return", pct_change p) ].

Definition assign (f : frame) (cs : string * series) : frame :=
  <[cs.1 := NumCol cs.2]> f.

Definition enriched (f : frame) (p : series) : frame :=
  foldl assign f (indicator_columns p).

(** ** Properties of frames, Series and computations *)

(** The names of the derived columns, in program order. *)
Definition derived_fields : list string :=
  [ "MA_5"; "MA_20"; "MA_50"; "MA_200"; "BB_Middle"; "BB_Upper"; "BB_Lower";
    "RSI"; "MACD"; "MACD_Signal"; "MACD_Histogram"; "Stoch_K"; "Stoch_D";
    "TR"; "ATR"; "DM_Plus"; "DM_Minus"; "DI_Plus"; "DI_Minus"; "DX"; "ADX";
    "Volatility"; "Daily_Return" ].

(** The derived fields that the data model of the specification lists. *)
Definition data_model_fields : list string :=
  [ "MA_5"; "MA_20"; "MA_50"; "MA_200"; "BB_Middle"; "BB_Upper"; "BB_Lower";
    "RSI"; "MACD"; "MACD_Signal"; "MACD_Histogram"; "Stoch_K"; "Stoch_D";
    "ATR"; "DI_Plus"; "DI_Minus"; "DX"; "ADX"; "Volatility"; "Daily_Return" ].

(** The derived fields that roll a window over the rows, with the size of
    the window. *)
Definition rolling_fields : list (string * nat) :=
  [ ("MA_5", 5); ("MA_20", 20); ("MA_50", 50); ("MA_200", 200);
    ("BB_Middle", 20); ("BB_Upper", 20); ("BB_Lower", 20);
    ("RSI", 14); ("Stoch_K", 14); ("Stoch_D", 3);
    ("ATR", 14); ("DI_Plus", 14); ("DI_Minus", 14); ("ADX", 14);
    ("Volatility", 20) ]%nat.

(** [m] changes no frame of the store other than the one at [l]. *)
Definition only_writes {A} (l : loc) (m : M A) : Prop :=
  forall h a h', m h = inr (a, h') ->
    forall l', l' ≠ l -> h' !! l' = h !! l'.

(** The first [n] rows of [s], as far as it has them, are NaN. *)
Definition head_nan (n : nat) (s : series) : Prop :=
  forall i, (i < n)%nat -> (i < length s)%nat -> s !! i = Some NaN.

(** Column [c] of [out] has [n] rows, the first [k - 1] of them NaN. *)
Definition sentinel_prefix (out : frame) (c : string) (k n : nat) : Prop :=
  exists s, out !! c = Some (NumCol s) /\ length s = n /\ head_nan (k - 1) s.

(** The line of the signal table for a value, or nothing for NaN. *)
Definition signal_line (name : string) (classify : fl -> string) (x : fl)
    : list entry :=
  if notna x
  then [ {| indicator := name; value := x; signal := classify x |} ]
  else [].

(** ** Finite rates

    The input provider supplies numeric, non-null rates: a list of
    rationals [rates], held in the frame as [Fin <$> rates].  On such a
    Series the float operations are the rational ones below. *)

Definition qsum (ws : list Q) : Q := foldl Qplus 0 ws.

Definition qmean (ws : list Q) : Q := qsum ws / inject_Z (Z.of_nat (length ws)).

(** The rows [i + 1 - k .. i] of [xs]. *)
Definition qwindow (k i : nat) (xs : list Q) : list Q :=
  take (S i - (S i - k)) (drop (S i - k) xs).

(** The day-over-day deltas of [prev :: xs], their positive parts and
    their negated negative parts. *)
Fixpoint qdeltas (prev : Q) (xs : list Q) : list Q :=
  match xs with
  | [] => []
  | x :: r => (x - prev) :: qdeltas x r
  end.

Definition qpos (d : Q) : Q := if Qltb 0 d then d else 0.
Definition qneg (d : Q) : Q := - (if Qltb d 0 then d else 0).

Definition strictly_increasing (xs : list Q) : Prop :=
  forall i a b, xs !! i = Some a -> xs !! S i = Some b -> a < b.

(** [e] is the exponential moving average of [xs] with smoothing factor
    [alpha]: seeded by the first value, then
    [e[t] = alpha * xs[t] + (1 - alpha) * e[t-1]]. *)
Definition ema_of (alpha : Q) (xs e : list Q) : Prop :=
  length e = length xs /\
  e !! 0%nat = xs !! 0%nat /\
  forall t x prev y,
    xs !! S t = Some x -> e !! t = Some prev -> e !! S t = Some y ->
    y == alpha * x + (1 - alpha) * prev.

(** The same recursion, link by link from the value before [xs]. *)
Fixpoint ema_chain (alpha prev : Q) (xs es : list Q) : Prop :=
  match xs, es with
  | [], [] => True
  | x :: xs', e :: es' =>
      e == alpha * x + (1 - alpha) * prev /\ ema_chain alpha e xs' es'
  | _, _ => False
  end.

(** The sum of the squared deviations from the mean. *)
Definition sum_sq_dev (ws : list Q) : Q :=
  qsum ((fun x => (x - qmean ws) * (x - qmean ws)) <$> ws).

(** The sample standard deviation: the sum of squares over [N - 1]. *)
Definition sample_std_dev (ws : list Q) : Q :=
  Qsqrt (sum_sq_dev ws / inject_Z (Z.of_nat (length ws - 1))).

(** ** The specification's reading, where it differs from the code *)

(** The population standard deviation, as the specification names it: the
    sum of squares over [N]. *)
Definition population_std_dev (ws : list Q) : Q :=
  Qsqrt (sum_sq_dev ws / inject_Z (Z.of_nat (length ws))).

(** The standard deviations are population ones, on the frame at [df]:
    Volatility, the Bollinger bands and the volatility of the summary,
    compared by value. *)
Definition std_dev_is_population (h : store) (df : loc) (rates : list Q) : Prop :=
  exists df' h' out up lo vol s h'',
    calculate_technical_indicators df "EXCHANGE_RATE" h = inr (df', h') /\
    h' !! df' = Some out /\
    out !! "BB_Upper" = Some (NumCol up) /\
    out !! "BB_Lower" = Some (NumCol lo) /\
    out !! "Volatility" = Some (NumCol vol) /\
    (forall i, (19 <= i)%nat -> (i < length rates)%nat ->
       let w := qwindow 20 i rates in
       exists v u l,
         vol !! i = Some v /\ feq v (Fin (population_std_dev w)) /\
         up !! i = Some u /\ feq u (Fin (qmean w + population_std_dev w * 2)) /\
         lo !! i = Some l /\ feq l (Fin (qmean w - population_std_dev w * 2))) /\
    get_ai_analysis_summary df' h' = inr (s, h'') /\
    feq (volatility s) (Fin (population_std_dev rates)).

(** The Window column of the specification's table of derived fields, for
    the fields that have one: the rolling fields, and the spans the table
    gives for MACD (12, 26) and MACD_Signal (9). *)
Definition spec_window_table : list (string * nat) :=
  rolling_fields ++ [ ("MACD", 12); ("MACD", 26); ("MACD_Signal", 9) ]%nat.

(** The sentinel rule read over every field that the table gives a
    window: each is NaN on its first [k - 1] rows, and Daily_Return on its
    first row, in an output of [n] rows. *)
Definition sentinel_rule_all_windows (h : store) (df : loc) (n : nat) : Prop :=
  exists df' h' out,
    calculate_technical_indicators df "EXCHANGE_RATE" h = inr (df', h') /\
    h' !! df' = Some out /\
    (forall c k, (c, k) ∈ spec_window_table -> sentinel_prefix out c k n) /\
    sentinel_prefix out "Daily_Return" 2 n.

(** ** Sample inputs *)

(** Five rates, the example of the specification. *)
Definition sample_rates : list Q := [100; 101; 99; 102; 105].
Definition sample_frame : frame :=
  {[ "EXCHANGE_RATE" := NumCol (Fin <$> sample_rates) ]}.
Definition sample_store : store := {[ 1%positive := sample_frame ]}.

(** A Series of one row. *)
Definition one_row_frame : frame := {[ "EXCHANGE_RATE" := NumCol [Fin 100] ]}.
Definition one_row_store : store := {[ 1%positive := one_row_frame ]}.

(** Eleven rates whose first and last are equal, the last ten rising. *)
Definition ten_rates : list Q :=
  [105; 101; 102; 103; 104; 105; 106; 107; 108; 109; 105].
Definition ten_frame : frame :=
  {[ "EXCHANGE_RATE" := NumCol (Fin <$> ten_rates) ]}.
Definition ten_store : store := {[ 1%positive := ten_frame ]}.

(** Fifteen strictly increasing rates. *)
Definition rising_rates : list Q :=
  [100; 101; 102; 103; 104; 105; 106; 107; 108; 109; 110; 111; 112; 113; 114].
Definition rising_frame : frame :=
  {[ "EXCHANGE_RATE" := NumCol (Fin <$> rising_rates) ]}.
Definition rising_store : store := {[ 1%positive := rising_frame ]}.

(** Twenty rates that alternate between 1 and 3: mean 2, sum of squared
    deviations 20. *)
Definition alt_rates : list Q :=
  [1; 3; 1; 3; 1; 3; 1; 3; 1; 3; 1; 3; 1; 3; 1; 3; 1; 3; 1; 3].
Definition alt_frame : frame :=
  {[ "EXCHANGE_RATE" := NumCol (Fin <$> alt_rates) ]}.
Definition alt_store : store := {[ 1%positive := alt_frame ]}.

(** A frame whose last row has RSI 75, no Stoch_K and ADX 22. *)
Definition signals_frame : frame :=
  {[ "RSI" := NumCol [Fin 50; Fin 75];
     "Stoch_K" := NumCol [Fin 10; NaN];
     "ADX" := NumCol [NaN; Fin 22] ]}.
Definition signals_store : store := {[ 1%positive := signals_frame ]}.

(** ** Warm-up of the chained indicators *)

(** The fields computed from a Series that itself starts with NaN, with
    the number of leading NaN rows: ATR rolls 14 rows of TR, whose first
    row is NaN; Stoch_D rolls 3 rows of Stoch_K; ADX rolls 14 rows of DX. *)
Definition chained_fields : list (string * nat) :=
  [ ("ATR", 14); ("DI_Plus", 14); ("DI_Minus", 14); ("DX", 14);
    ("Stoch_D", 15); ("ADX", 27) ]%nat.

(** ** Extremes of finite values *)

Definition qmin2 (a b : Q) : Q := if Qltb b a then b else a.
Definition qmax2 (a b : Q) : Q := if Qltb a b then b else a.

(** The least and the greatest value of a non-empty list. *)
Definition qminl (ws : list Q) : Q :=
  match ws with [] => 0 | x :: r => foldl qmin2 x r end.
Definition qmaxl (ws : list Q) : Q :=
  match ws with [] => 0 | x :: r => foldl qmax2 x r end.


(** ** A flat market *)

(** The fields that are a mean of 20 rows, or a band around it, and the
    moving averages, with their windows. *)
Definition level_fields : list (string * nat) :=
  [ ("MA_5", 5); ("MA_20", 20); ("MA_50", 50); ("MA_200", 200);
    ("BB_Middle", 20); ("BB_Upper", 20); ("BB_Lower", 20) ]%nat.

(** Thirty rows of a constant price. *)
Definition flat_frame : frame :=
  {[ "EXCHANGE_RATE" := NumCol (Fin <$> replicate 30 (150 : Q)) ]}.
Definition flat_store : store := {[ 1%positive := flat_frame ]}.

Definition strictly_decreasing (xs : list Q) : Prop :=
  forall i a b, xs !! i = Some a -> xs !! S i = Some b -> b < a.

(** The moving averages, with their windows. *)
Definition average_fields : list (string * nat) :=
  [ ("MA_5", 5); ("MA_20", 20); ("MA_50", 50); ("MA_200", 200);
    ("BB_Middle", 20) ]%nat.

(** Fifteen strictly decreasing rates. *)
Definition falling_rates : list Q :=
  [114; 113; 112; 111; 110; 109; 108; 107; 106; 105; 104; 103; 102; 101; 100].
Definition falling_frame : frame :=
  {[ "EXCHANGE_RATE" := NumCol (Fin <$> falling_rates) ]}.
Definition falling_store : store := {[ 1%positive := falling_frame ]}.

(** A frame with the price column and no rows. *)
Definition empty_frame : frame := {[ "EXCHANGE_RATE" := NumCol [] ]}.
Definition empty_store : store := {[ 1%positive := empty_frame ]}.

(** Rates that end on a row after a zero rate. *)
Definition zero_rates : list Q := [2; 0; 5].
Definition zero_frame : frame :=
  {[ "EXCHANGE_RATE" := NumCol (Fin <$> zero_rates) ]}.
Definition zero_store : store := {[ 1%positive := zero_frame ]}.

(** ** The completion query of [get_ai_analysis] (lines 350-359) *)

Local Open Scope string_scope.

(** [prompt.replace("'", "''")].  A Python string is modelled by its UTF-8
    bytes; the apostrophe is a single byte that occurs in no other
    character. *)
Fixpoint escape_quotes (s : string) : string :=
  match s with
  | EmptyString => EmptyString
  | String c r =>
      if Ascii.eqb c "'"%char
      then String "'" (String "'" (escape_quotes r))
      else String c (escape_quotes r)
  end.

(** The text of the query sent to the completion service. *)
Definition ai_query (model prompt : string) : string :=
  "
        SELECT SNOWFLAKE.CORTEX.COMPLETE(
            '" ++ model ++ "',
            '" ++ escape_quotes prompt ++ "'
        ) as analysis
        ".

(** The text that precedes the prompt in the query, up to the quote that
    opens it, and the text that follows the quote that closes it. *)
Definition ai_query_head (model : string) : string :=
  "
        SELECT SNOWFLAKE.CORTEX.COMPLETE(
            '" ++ model ++ "',
            ".

Definition ai_query_tail : string :=
  "
        ) as analysis
        ".

(** Reading the body of a single-quoted SQL literal in which the doubled
    quote is the only escape: the text of the literal and what follows its
    closing quote; nothing when the literal is not closed. *)
Fixpoint read_sql_literal (s : string) : option (string * string) :=
  match s with
  | EmptyString => None
  | String c r =>
      if Ascii.eqb c "'"%char then
        match r with
        | String c2 r2 =>
            if Ascii.eqb c2 "'"%char
            then match read_sql_literal r2 with
                 | Some (body, rest) => Some (String "'" body, rest)
                 | None => None
                 end
            else Some (EmptyString, r)
        | EmptyString => Some (EmptyString, EmptyString)
        end
      else match read_sql_literal r with
           | Some (body, rest) => Some (String c body, rest)
           | None => None
           end
  end.

Local Close Scope string_scope.

(** ** The chart of [display_single_currency_analysis] (lines 665-858)

    A figure is the grid that [make_subplots] is given and what is drawn
    into it: the traces with the column they plot and their row, the
    horizontal lines and the axis updates.  Colours, widths and the other
    attributes of presentation are left out. *)

Inductive trace_kind : Type := Scatter | Bar.

Record trace : Type := {
  trace_kind_of : trace_kind;
  trace_name : string;
  trace_y : string;
  trace_row : nat
}.

Inductive axis_update : Type :=
  | XTitle (t : string)
  | YTitle (t : string)
  | YRange (lo hi : Q).

Record figure : Type := {
  fig_rows : nat;
  fig_titles : list string;
  fig_heights : list Q;
  fig_traces : list trace;
  fig_hlines : list (Q * nat);
  fig_axes : list (axis_update * nat)
}.

(** Drawing: the figure is updated in place, a read of a missing column
    raises. *)
Definition P (A : Type) : Type := figure -> exn + (A * figure).

#[global] Instance P_ret : MRet P := fun A a fig => inr (a, fig).
#[global] Instance P_bind : MBind P :=
  fun A B k m fig => match m fig with
                     | inl e => inl e
                     | inr (a, fig') => k a fig'
                     end.

(** [make_subplots(rows=.., cols=1, subplot_titles=.., row_heights=..)] *)
Definition make_subplots (rows : nat) (titles : list string) (heights : list Q)
    : figure :=
  {| fig_rows := rows; fig_titles := titles; fig_heights := heights;
     fig_traces := []; fig_hlines := []; fig_axes := [] |}.

(** [fig.add_trace(go.Scatter(x=df['DATE'], y=df[y], name=name), row=row,
    col=1)], and the same with [go.Bar]. *)
Definition add_trace (df : frame) (k : trace_kind) (y name : string) (row : nat)
    : P unit :=
  fun fig =>
    match df !! "DATE" with
    | None => inl (KeyError "DATE")
    | Some _ =>
        match df !! y with
        | None => inl (KeyError y)
        | Some _ =>
            inr (tt,
                 {| fig_rows := fig_rows fig; fig_titles := fig_titles fig;
                    fig_heights := fig_heights fig;
                    fig_traces :=
                      fig_traces fig
                      ++ [ {| trace_kind_of := k; trace_name := name;
                              trace_y := y; trace_row := row |} ];
                    fig_hlines := fig_hlines fig; fig_axes := fig_axes fig |})
        end
    end.

(** [fig.add_hline(y=y, row=row, col=1)] *)
Definition add_hline (y : Q) (row : nat) : P unit :=
  fun fig =>
    inr (tt,
         {| fig_rows := fig_rows fig; fig_titles := fig_titles fig;
            fig_heights := fig_heights fig; fig_traces := fig_traces fig;
            fig_hlines := fig_hlines fig ++ [(y, row)];
            fig_axes := fig_axes fig |}).

(** [fig.update_xaxes(.., row=row, col=1)] and [fig.update_yaxes(..)] *)
Definition update_axis (u : axis_update) (row : nat) : P unit :=
  fun fig =>
    inr (tt,
         {| fig_rows := fig_rows fig; fig_titles := fig_titles fig;
            fig_heights := fig_heights fig; fig_traces := fig_traces fig;
            fig_hlines := fig_hlines fig;
            fig_axes := fig_axes fig ++ [(u, row)] |}).

(** ['c' in df.columns] on the frame itself. *)
Definition in_columns_of (df : frame) (c : string) : bool :=
  bool_decide (is_Some (df !! c)).

(** Lines 665-686: the number of rows, their titles and their heights,
    the heights divided by their sum. *)
Definition subplot_layout (currency_pair : string)
    (show_technical show_rsi show_macd show_stoch show_adx : bool)
    : nat * list string * list Q :=
  let subplot_count := 1%nat in
  let subplot_titles := [String.append currency_pair " 為替レート"] in
  let row_heights := [6 # 10] in
  let '(subplot_count, subplot_titles, row_heights) :=
    if show_technical && (show_macd || show_rsi || show_adx) then
      let indicators :=
        (if show_macd then ["MACD"%string] else [])
        ++ (if show_rsi then ["RSI"%string] else [])
        ++ (if show_adx then ["ADX"%string] else []) in
      (S subplot_count,
       subplot_titles
       ++ [String.append "📊 " (String.concat " / " indicators)],
       row_heights ++ [2 # 10])
    else (subplot_count, subplot_titles, row_heights) in
  let '(subplot_count, subplot_titles, row_heights) :=
    if show_technical && show_stoch then
      (S subplot_count,
       subplot_titles ++ ["🔄 ストキャスティクス"%string],
       row_heights ++ [2 # 10])
    else (subplot_count, subplot_titles, row_heights) in
  let total_height := foldl Qplus 0 row_heights in
  (subplot_count, subplot_titles, (fun h => h / total_height) <$> row_heights).

(** Lines 695-858: what is drawn into a grid of [subplot_count] rows. *)
Definition draw (df : frame) (subplot_count : nat)
    (show_technical show_ma show_bb show_rsi show_macd show_stoch show_adx : bool)
    : P unit :=
  add_trace df Scatter "EXCHANGE_RATE" "為替レート" 1;;
  (if show_technical && show_ma then
     foldr (fun '(ma, name) (rest : P unit) =>
              (if in_columns_of df ma
               then add_trace df Scatter ma name 1 else mret tt);;
              rest)
           (mret tt)
           [ ("MA_20"%string, "MA20"%string); ("MA_50"%string, "MA50"%string) ]
   else mret tt);;
  (if show_technical && show_bb then
     add_trace df Scatter "BB_Upper" "BB Upper" 1;;
     add_trace df Scatter "BB_Lower" "BB Lower" 1
   else mret tt);;
  (if (2 <=? subplot_count)%nat then
     (if show_macd then
        add_trace df Scatter "MACD" "MACD" 2;;
        add_trace df Scatter "MACD_Signal" "Signal" 2;;
        add_trace df Bar "MACD_Histogram" "MACD Hist" 2
      else mret tt);;
     (if show_rsi then
        add_trace df Scatter "RSI" "RSI" 2;;
        add_hline 70 2;;
        add_hline 30 2
      else mret tt);;
     (if show_adx && in_columns_of df "ADX" then
        add_trace df Scatter "ADX" "ADX" 2
      else mret tt)
   else mret tt);;
  (if (3 <=? subplot_count)%nat && show_stoch then
     add_trace df Scatter "Stoch_K" "Stoch %K" 3;;
     add_trace df Scatter "Stoch_D" "Stoch %D" 3;;
     add_hline 80 3;;
     add_hline 20 3
   else mret tt);;
  update_axis (XTitle "日付") subplot_count;;
  update_axis (YTitle "レート") 1;;
  (if (2 <=? subplot_count)%nat then
     update_axis (YTitle "指標値") 2;;
     (if show_rsi then update_axis (YRange 0 100) 2 else mret tt)
   else mret tt);;
  (if (3 <=? subplot_count)%nat then
     update_axis (YTitle "ストキャスティクス") 3;;
     update_axis (YRange 0 100) 3
   else mret tt).

Definition price_chart (df : frame) (currency_pair : string)
    (show_technical show_ma show_bb show_rsi show_macd show_stoch show_adx : bool)
    : exn + figure :=
  let '(subplot_count, subplot_titles, row_heights) :=
    subplot_layout currency_pair show_technical show_rsi show_macd show_stoch
      show_adx in
  match draw df subplot_count show_technical show_ma show_bb show_rsi show_macd
          show_stoch show_adx
          (make_subplots subplot_count subplot_titles row_heights) with
  | inl e => inl e
  | inr (_, fig) => inr fig
  end.

(** Every trace, line and axis update of the figure lies in a row of its
    grid. *)
Definition rows_in_grid (fig : figure) : Prop :=
  Forall (fun t => (1 <= trace_row t <= fig_rows fig)%nat) (fig_traces fig) /\
  Forall (fun l => (1 <= l.2 <= fig_rows fig)%nat) (fig_hlines fig) /\
  Forall (fun u => (1 <= u.2 <= fig_rows fig)%nat) (fig_axes fig).

(** [m] keeps a grid of [n] rows, with its titles and heights, and draws
    inside it. *)
Definition draws_inside {A} (n : nat) (m : P A) : Prop :=
  forall fig a fig',
    fig_rows fig = n -> rows_in_grid fig -> m fig = inr (a, fig') ->
    (fig_rows fig' = n /\ fig_titles fig' = fig_titles fig /\
     fig_heights fig' = fig_heights fig) /\
    rows_in_grid fig'.

(** A frame with dates and five rates. *)
Definition dated_frame : frame :=
  {[ "DATE" := ObjCol ["2024-01-01"; "2024-01-02"; "2024-01-03";
                       "2024-01-04"; "2024-01-05"]%string;
     "EXCHANGE_RATE" := NumCol (Fin <$> sample_rates) ]}.
Definition dated_store : store := {[ 1%positive := dated_frame ]}.

(** ** The metrics at the head of [display_single_currency_analysis]
    (lines 629-658) *)

Record metrics : Type := {
  current_rate : fl;
  metric_change : fl;
  metric_change_pct : fl;
  period_high : fl;
  period_low : fl;
  metric_volatility : fl
}.

Definition header_metrics (df : loc) : M metrics :=
  r ← getcol df "EXCHANGE_RATE";
  current ← iloc_neg r 1;
  n ← len_df df;
  prev ← (if (1 <? n)%nat
          then r ← getcol df "EXCHANGE_RATE"; iloc_neg r 2
          else mret current);
  let chg := fsub current prev in
  let chg_pct :=
    if fne prev (Fin 0) then fmul (fdiv chg prev) (Fin 100) else Fin 0 in
  r ← getcol df "EXCHANGE_RATE"; let mx := Series.max (observations r) in
  r ← getcol df "EXCHANGE_RATE"; let mn := Series.min (observations r) in
  d ← getcol df "Daily_Return";
  let vol := fmul (std (observations d)) (Fin 100) in
  mret {| current_rate := current; metric_change := chg;
          metric_change_pct := chg_pct; period_high := mx; period_low := mn;
          metric_volatility := vol |}.

(** ** The normalized rates of [display_multiple_currency_comparison]
    (lines 1001-1002) *)



(** ** [load_multiple_fx_data] (lines 207-218)

    The query of [load_fx_data] for the chosen dates is a function of the
    two currencies, [None] when it raises.  [all_data] is a dict: a list of
    entries in the order of their first insertion. *)

Inductive load_exn : Type :=
  | ValueError
  | QueryError.

(** [s.split(sep)] for a separator of one character. *)
Fixpoint split_on (sep : ascii) (s : string) : list string :=
  match s with
  | EmptyString => [EmptyString]
  | String c s' =>
      if Ascii.eqb c sep then EmptyString :: split_on sep s'
      else match split_on sep s' with
           | [] => [String c EmptyString]
           | w :: ws => String c w :: ws
           end
  end.

Abbreviation dict := (list (string * frame)).

(** [d[k] = v] *)
Fixpoint dict_set (k : string) (v : frame) (d : dict) : dict :=
  match d with
  | [] => [(k, v)]
  | (k', v') :: d' =>
      if String.eqb k' k then (k', v) :: d' else (k', v') :: dict_set k v d'
  end.

(** [df.empty] *)
Definition df_empty (f : frame) : bool := (frame_len f =? 0)%nat.

Fixpoint load_multiple_fx_data_from
    (load_fx_data : string -> string -> option frame)
    (currency_pairs : list string) (all_data : dict) : load_exn + dict :=
  match currency_pairs with
  | [] => inr all_data
  | pair' :: rest =>
      match split_on "/" pair' with
      | [base_currency; quote_currency] =>
          match load_fx_data base_currency quote_currency with
          | None => inl QueryError
          | Some df =>
              load_multiple_fx_data_from load_fx_data rest
                (if df_empty df then all_data
                 else
                   let pair_name :=
                     String.append base_currency
                       (String.append "/" quote_currency) in
                   dict_set pair_name df all_data)
          end
      | _ => inl ValueError
      end
  end.

Definition load_multiple_fx_data
    (load_fx_data : string -> string -> option frame)
    (currency_pairs : list string) : load_exn + dict :=
  load_multiple_fx_data_from load_fx_data currency_pairs [].

(** The entry of a pair: the pair and its frame, when the frame has rows. *)
Definition entry_of (load_fx_data : string -> string -> option frame)
    (pair : string) : option (string * frame) :=
  match split_on "/" pair with
  | [b; q] =>
      match load_fx_data b q with
      | Some df => if df_empty df then None else Some (pair, df)
      | None => None
      end
  | _ => None
  end.

(** A pair that can be loaded: two currencies around one slash, and a
    query that returns. *)
Definition loadable (load_fx_data : string -> string -> option frame)
    (pair : string) : Prop :=
  exists b q df, split_on "/" pair = [b; q] /\ load_fx_data b q = Some df.

(** A warehouse with rates of USD/JPY only. *)
Definition sample_load (b q : string) : option frame :=
  if String.eqb b "USD" && String.eqb q "JPY" then Some sample_frame
  else Some ∅.

(** ** The operations on small inputs *)

Example ma5_of_sample :
  rolling 5 mean (Fin <$> sample_rates) = [NaN; NaN; NaN; NaN; Fin (507 # 5)].
Proof. reflexivity. Qed.

Example daily_return_of_sample :
  pct_change (Fin <$> sample_rates) !! 1%nat = Some (Fin (1 # 100)).
Proof. reflexivity. Qed.

Example diff_of_sample :
  diff (Fin <$> sample_rates) = [NaN; Fin 1; Fin (-2); Fin 3; Fin 3].
Proof. reflexivity. Qed.

Example macd_of_one_row : macd [Fin 100] = [Fin (100 - 100)].
Proof. reflexivity. Qed.

Example rsi_of_constant_rates :
  last (rsi (Fin <$> replicate 15 (100 : Q))) = Some NaN.
Proof. vm_compute. reflexivity. Qed.

Example Qsqrt_exact : Qsqrt 4 == 2 /\ Qsqrt (9 # 4) == 3 # 2 /\ Qsqrt 0 == 0.
Proof. repeat split. Qed.

Example std_of_pair : std [Fin 1; Fin 3] = Fin (Qsqrt 2) /\ std [Fin 1] = NaN.
Proof. split; reflexivity. Qed.

(** ** The store primitives, step by step *)

Lemma getcol_insert (l : loc) (F : frame) (h : store) c s :
  F !! c = Some (NumCol s) ->
  getcol l c (<[l := F]> h) = inr (s, <[l := F]> h).
Proof. intros HF. unfold getcol. by rewrite lookup_insert_eq, HF. Qed.

Lemma setcol_insert (l : loc) (F : frame) (h : store) c s :
  setcol l c s (<[l := F]> h) = inr (tt, <[l := <[c := NumCol s]> F]> h).
Proof. unfold setcol. by rewrite lookup_insert_eq, insert_insert_eq. Qed.

Lemma bind_inr {A B} (m : M A) (k : A -> M B) h a h' :
  m h = inr (a, h') -> (m ≫= k) h = k a h'.
Proof. intros E. unfold mbind, M_bind, bind. by rewrite E. Qed.

Ltac run_step :=
  first
    [ erewrite (bind_inr (setcol _ _ _)) by apply setcol_insert
    | erewrite (bind_inr (getcol _ _)) by
        (apply getcol_insert; simplify_map_eq; reflexivity) ].

Lemma calculate_technical_indicators_run (h : store) (df : loc) (f : frame) p :
  h !! df = Some f ->
  f !! "EXCHANGE_RATE" = Some (NumCol p) ->
  calculate_technical_indicators df "EXCHANGE_RATE" h
  = inr (fresh (dom h), <[fresh (dom h) := enriched f p]> h).
Proof.
  intros Hdf Hp. unfold calculate_technical_indicators.
  erewrite (bind_inr (copy df)) by (unfold copy; rewrite Hdf; reflexivity).
  repeat run_step.
  reflexivity.
Qed.

(** ** Lengths of the derived Series *)

Lemma length_shift (s : series) : length (shift s) = length s.
Proof. unfold shift. rewrite length_take. simpl. lia. Qed.

Lemma length_diff (s : series) : length (diff s) = length s.
Proof. unfold diff. rewrite length_zip_with, length_shift. lia. Qed.

Lemma length_pct_change (s : series) : length (pct_change s) = length s.
Proof. unfold pct_change. rewrite length_zip_with, length_shift. lia. Qed.

Lemma length_where_ (s : series) cond other :
  length (where_ s cond other) = length s.
Proof. unfold where_. apply length_fmap. Qed.

Lemma length_rolling k agg (s : series) : length (rolling k agg s) = length s.
Proof. unfold rolling. by rewrite length_fmap, length_seq. Qed.

Lemma length_ewm_from alpha st (s : series) :
  length (ewm_from alpha st s) = length s.
Proof. revert st. induction s as [|x s IH]; intros st; simpl; [done|]. by rewrite IH. Qed.

Lemma length_ewm_mean span (s : series) : length (ewm_mean span s) = length s.
Proof. destruct s; simpl; [done|]. by rewrite length_ewm_from. Qed.

Lemma length_sadd (a b : series) :
  length a = length b -> length (sadd a b) = length a.
Proof. intros E. unfold sadd. rewrite length_zip_with. lia. Qed.

Lemma length_ssub (a b : series) :
  length a = length b -> length (ssub a b) = length a.
Proof. intros E. unfold ssub. rewrite length_zip_with. lia. Qed.

Lemma length_sdiv (a b : series) :
  length a = length b -> length (sdiv a b) = length a.
Proof. intros E. unfold sdiv. rewrite length_zip_with. lia. Qed.

Lemma length_smap f (a : series) : length (smap f a) = length a.
Proof. apply length_fmap. Qed.

Create Rewrite HintDb series_len.
#[global] Hint Rewrite length_diff length_pct_change length_where_
  length_rolling length_ewm_mean length_smap @length_fmap : series_len.

Ltac len_solve :=
  repeat first
    [ progress autorewrite with series_len
    | rewrite length_sadd | rewrite length_ssub | rewrite length_sdiv ];
  try reflexivity.

Lemma indicator_columns_length (p : series) c s :
  (c, s) ∈ indicator_columns p -> length s = length p.
Proof.
  intros Hin. apply list_elem_of_In in Hin. simpl in Hin.
  repeat (destruct Hin as [Hin | Hin];
          [ injection Hin as <- <-;
            unfold rsi, macd_signal, macd, stoch_k, times100, times2, atr, tr,
              dm_plus, dm_minus, di_plus, di_minus, dx, gains, losses,
              di_plus, di_minus, atr, tr, dm_plus, dm_minus, gains, times100;
            len_solve | ]).
  destruct Hin.
Qed.

(** ** Columns of the output frame *)

Lemma foldl_assign_other (l : list (string * series)) (f : frame) c :
  c ∉ l.*1 -> foldl assign f l !! c = f !! c.
Proof.
  revert f. induction l as [|[c' s'] l IH]; intros f Hc; simpl; [done|].
  simpl in Hc. apply not_elem_of_cons in Hc as [Hne Hc].
  rewrite IH by done. unfold assign. simpl. by rewrite lookup_insert_ne.
Qed.

Lemma foldl_assign_lookup (l : list (string * series)) (f : frame) c s :
  NoDup l.*1 -> (c, s) ∈ l -> foldl assign f l !! c = Some (NumCol s).
Proof.
  revert f. induction l as [|[c' s'] l IH]; intros f Hnd Hin; simpl.
  - by apply elem_of_nil in Hin.
  - simpl in Hnd. apply NoDup_cons in Hnd as [Hc' Hnd].
    apply elem_of_cons in Hin as [Heq | Hin].
    + injection Heq as -> ->. rewrite foldl_assign_other by done.
      unfold assign. simpl. by rewrite lookup_insert_eq.
    + by apply IH.
Qed.

Lemma indicator_columns_names (p : series) :
  (indicator_columns p).*1 = derived_fields.
Proof. reflexivity. Qed.

Lemma derived_fields_NoDup : NoDup derived_fields.
Proof. apply (bool_decide_unpack _). vm_compute. exact I. Qed.

Lemma enriched_lookup (f : frame) (p : series) c s :
  (c, s) ∈ indicator_columns p -> enriched f p !! c = Some (NumCol s).
Proof.
  intros Hin. apply foldl_assign_lookup; [|done].
  rewrite indicator_columns_names. apply derived_fields_NoDup.
Qed.

Lemma enriched_other (f : frame) (p : series) c :
  c ∉ derived_fields -> enriched f p !! c = f !! c.
Proof.
  intros Hc. apply foldl_assign_other. by rewrite indicator_columns_names.
Qed.

Ltac in_columns :=
  apply list_elem_of_In; unfold indicator_columns; simpl; auto 30.

Lemma enriched_volatility (f : frame) (p : series) :
  enriched f p !! "Volatility" = Some (NumCol (rolling 20 std p)).
Proof. apply enriched_lookup. in_columns. Qed.

Lemma enriched_macd_signal (f : frame) (p : series) :
  enriched f p !! "MACD_Signal" = Some (NumCol (macd_signal p)).
Proof. apply enriched_lookup. in_columns. Qed.

Lemma derived_field_column (p : series) c :
  c ∈ derived_fields -> exists s, (c, s) ∈ indicator_columns p.
Proof.
  rewrite <- (indicator_columns_names p). intros Hc.
  apply list_elem_of_fmap in Hc as [[c' s] [-> Hin]]. by exists s.
Qed.

(** ** What a computation may write *)

Lemma only_writes_ret {A} l (a : A) : only_writes l (mret a).
Proof. intros h a' h' E l' _. by injection E as _ <-. Qed.

Lemma only_writes_bind {A B} l (m : M A) (k : A -> M B) :
  only_writes l m -> (forall a, only_writes l (k a)) -> only_writes l (m ≫= k).
Proof.
  intros Hm Hk h b h' E l' Hl'. unfold mbind, M_bind, bind in E.
  destruct (m h) as [e | [a h1]] eqn:Em; [done|].
  rewrite (Hk a _ _ _ E l' Hl'). by apply (Hm _ _ _ Em).
Qed.

Lemma only_writes_getcol l c : only_writes l (getcol l c).
Proof.
  intros h a h' E l' _. unfold getcol in E.
  destruct (h !! l) as [f|]; [|done].
  destruct (f !! c) as [[s|s]|]; try done. by injection E as _ <-.
Qed.

Lemma only_writes_setcol l c s : only_writes l (setcol l c s).
Proof.
  intros h a h' E l' Hl'. unfold setcol in E.
  destruct (h !! l) as [f|]; [|done].
  injection E as _ <-. by rewrite lookup_insert_ne.
Qed.

Ltac only_writes_tac :=
  repeat first
    [ apply only_writes_ret
    | apply only_writes_getcol
    | apply only_writes_setcol
    | apply only_writes_bind; [| intros ?] ].

(** Whatever the frame and the price column, a call that returns has left
    every frame that existed before it as it was. *)
Lemma calculate_technical_indicators_frame (h : store) df price_col df' h' :
  calculate_technical_indicators df price_col h = inr (df', h') ->
  forall l, is_Some (h !! l) -> h' !! l = h !! l.
Proof.
  intros E l Hl. unfold calculate_technical_indicators in E.
  unfold mbind at 1, M_bind at 1, bind at 1 in E.
  unfold copy at 1 in E. destruct (h !! df) as [f|] eqn:Hdf; [|done].
  assert (Hfresh : l ≠ fresh (dom h)).
  { intros ->. apply elem_of_dom in Hl. by apply is_fresh in Hl. }
  match type of E with ?m _ = _ =>
    assert (W : only_writes (fresh (dom h)) m) by only_writes_tac end.
  rewrite (W _ _ _ E l Hfresh). by rewrite lookup_insert_ne.
Qed.

Lemma fresh_lookup_None (h : store) : h !! fresh (dom h) = None.
Proof. apply not_elem_of_dom. apply is_fresh. Qed.

Lemma calculate_technical_indicators_output (h : store) df (f : frame) p :
  h !! df = Some f ->
  f !! "EXCHANGE_RATE" = Some (NumCol p) ->
  exists df' h',
    calculate_technical_indicators df "EXCHANGE_RATE" h = inr (df', h') /\
    h' !! df' = Some (enriched f p) /\ h' !! df = Some f /\ df' ≠ df.
Proof.
  intros Hdf Hp. exists (fresh (dom h)), (<[fresh (dom h) := enriched f p]> h).
  assert (Hne : fresh (dom h) ≠ df).
  { intros E. rewrite <- E in Hdf. by rewrite fresh_lookup_None in Hdf. }
  split; [by apply calculate_technical_indicators_run|].
  split; [by rewrite lookup_insert_eq|].
  split; [by rewrite lookup_insert_ne|done].
Qed.

(** C3: the indicator computation leaves the caller's frame, and every
    other frame of the store, as it was; called twice on the same frame,
    or in another store on a frame with the same content, it returns
    frames with identical content. *)
Theorem C3_pure_and_deterministic (h : store) (df : loc) (f : frame) (p : series) :
  h !! df = Some f ->
  f !! "EXCHANGE_RATE" = Some (NumCol p) ->
  exists df1 h1 df2 h2 out,
    calculate_technical_indicators df "EXCHANGE_RATE" h = inr (df1, h1) /\
    calculate_technical_indicators df "EXCHANGE_RATE" h1 = inr (df2, h2) /\
    h1 !! df = Some f /\ h2 !! df = Some f /\
    (forall l, is_Some (h !! l) -> h1 !! l = h !! l /\ h2 !! l = h !! l) /\
    h1 !! df1 = Some out /\ h2 !! df2 = Some out /\ h2 !! df1 = Some out /\
    (forall (g : store) dg, g !! dg = Some f ->
       exists dg' g',
         calculate_technical_indicators dg "EXCHANGE_RATE" g = inr (dg', g') /\
         g' !! dg' = Some out).
Proof.
  intros Hdf Hp.
  destruct (calculate_technical_indicators_output h df f p Hdf Hp)
    as (df1 & h1 & E1 & Ho1 & Hk1 & Hn1).
  destruct (calculate_technical_indicators_output h1 df f p Hk1 Hp)
    as (df2 & h2 & E2 & Ho2 & Hk2 & Hn2).
  exists df1, h1, df2, h2, (enriched f p).
  pose proof (calculate_technical_indicators_frame _ _ _ _ _ E1) as F1.
  pose proof (calculate_technical_indicators_frame _ _ _ _ _ E2) as F2.
  repeat split; try done.
  - by apply F1.
  - rewrite F2; [by apply F1|]. rewrite F1 by done. done.
  - rewrite F2; [done|]. by rewrite Ho1.
  - intros g dg Hg.
    destruct (calculate_technical_indicators_output g dg f p Hg Hp)
      as (dg' & g' & E & Ho & _). by exists dg', g'.
Qed.

Lemma C3_witness :
  exists df1 h1 df2 h2 out,
    calculate_technical_indicators 1 "EXCHANGE_RATE" sample_store = inr (df1, h1) /\
    calculate_technical_indicators 1 "EXCHANGE_RATE" h1 = inr (df2, h2) /\
    h1 !! 1%positive = Some sample_frame /\ h2 !! 1%positive = Some sample_frame /\
    (forall l, is_Some (sample_store !! l) ->
       h1 !! l = sample_store !! l /\ h2 !! l = sample_store !! l) /\
    h1 !! df1 = Some out /\ h2 !! df2 = Some out /\ h2 !! df1 = Some out /\
    (forall (g : store) dg, g !! dg = Some sample_frame ->
       exists dg' g',
         calculate_technical_indicators dg "EXCHANGE_RATE" g = inr (dg', g') /\
         g' !! dg' = Some out).
Proof.
  apply (C3_pure_and_deterministic sample_store 1 sample_frame
           (fmap Fin sample_rates)); reflexivity.
Defined.

Lemma derived_fields_split c :
  c ∈ derived_fields <->
  c ∈ data_model_fields \/ c = "TR" \/ c = "DM_Plus" \/ c = "DM_Minus".
Proof.
  unfold derived_fields, data_model_fields.
  rewrite !elem_of_cons, !elem_of_nil. tauto.
Qed.

(** C10: the columns of the output frame are the input columns, the
    derived fields of the data model and, besides these, TR (the absolute
    day-over-day delta), DM_Plus and DM_Minus (the positive part of the
    delta and its negated negative part), each with one value per input
    row. *)
Theorem C10_intermediate_columns (h : store) (df : loc) (f : frame) (p : series) :
  h !! df = Some f ->
  f !! "EXCHANGE_RATE" = Some (NumCol p) ->
  exists df' h' out,
    calculate_technical_indicators df "EXCHANGE_RATE" h = inr (df', h') /\
    h' !! df' = Some out /\
    out !! "TR" = Some (NumCol (fabs <$> diff p)) /\
    out !! "DM_Plus"
      = Some (NumCol ((fun d => if fgt d (Fin 0) then d else Fin 0) <$> diff p)) /\
    out !! "DM_Minus"
      = Some (NumCol ((fun d => if flt d (Fin 0) then fneg d else Fin 0) <$> diff p)) /\
    length (diff p) = length p /\
    Forall (fun c => c ∉ data_model_fields) ["TR"; "DM_Plus"; "DM_Minus"] /\
    dom out = dom f ∪ list_to_set data_model_fields
              ∪ {[ "TR"; "DM_Plus"; "DM_Minus" ]} /\
    (forall c, c ∉ derived_fields -> out !! c = f !! c).
Proof.
  intros Hdf Hp.
  destruct (calculate_technical_indicators_output h df f p Hdf Hp)
    as (df' & h' & E & Ho & _).
  exists df', h', (enriched f p).
  split; [done|]. split; [done|].
  split; [apply enriched_lookup; in_columns|].
  split; [apply enriched_lookup; in_columns|].
  split; [apply enriched_lookup; in_columns|].
  split; [apply length_diff|].
  split.
  { repeat constructor; apply (bool_decide_unpack _); vm_compute; exact I. }
  split.
  - apply set_eq. intros c.
    rewrite !elem_of_union, !elem_of_singleton, !elem_of_dom,
      elem_of_list_to_set.
    pose proof (derived_fields_split c) as Hsplit.
    destruct (decide (c ∈ derived_fields)) as [Hc|Hc].
    + destruct (derived_field_column p c Hc) as [s Hs].
      rewrite (enriched_lookup f p c s Hs). split; [tauto | by eexists].
    + rewrite enriched_other by done. tauto.
  - intros c Hc. by apply enriched_other.
Qed.

Lemma C10_witness :
  exists df' h' out,
    calculate_technical_indicators 1 "EXCHANGE_RATE" sample_store = inr (df', h') /\
    h' !! df' = Some out /\
    out !! "TR" = Some (NumCol [NaN; Fin 1; Fin 2; Fin 3; Fin 3]) /\
    out !! "DM_Plus" = Some (NumCol [Fin 0; Fin 1; Fin 0; Fin 3; Fin 3]) /\
    out !! "DM_Minus" = Some (NumCol [Fin 0; Fin 0; Fin (- -2); Fin 0; Fin 0]).
Proof.
  destruct (C10_intermediate_columns sample_store 1 sample_frame
              (fmap Fin sample_rates) eq_refl eq_refl)
    as (df' & h' & out & E & Ho & Htr & Hp & Hm & _).
  exists df', h', out. repeat split; assumption.
Defined.

(** ** The exponential moving average on finite values *)

Lemma ewm_step_fin alpha w x :
  exists y, ewm_step alpha (Fin w, 1) (Fin x) = (Fin y, 1) /\
            y == alpha * x + (1 - alpha) * w.
Proof.
  unfold ewm_step. simpl. destruct (Qeq_bool w x) eqn:E; simpl.
  - apply Qeq_bool_eq in E. exists w. split; [done|]. rewrite E. ring.
  - assert (H1 : 1 * (1 - alpha) + alpha == 1) by ring.
    rewrite (Qeqb_comp _ _ H1 0 0 (Qeq_refl 0)). simpl.
    eexists. split; [reflexivity|]. field. lra.
Qed.

Lemma ewm_from_cons alpha st cur (s : series) :
  ewm_from alpha st (cur :: s)
  = (ewm_step alpha st cur).1 :: ewm_from alpha (ewm_step alpha st cur) s.
Proof. reflexivity. Qed.

Lemma ewm_from_fin alpha w (xs : list Q) :
  exists es, ewm_from alpha (Fin w, 1) (fmap Fin xs) = fmap Fin es /\
             ema_chain alpha w xs es.
Proof.
  revert w. induction xs as [|x xs IH]; intros w.
  - by exists [].
  - destruct (ewm_step_fin alpha w x) as (y & Ey & Hy).
    destruct (IH y) as (es & Ees & Hes).
    exists (y :: es).
    change (fmap Fin (x :: xs)) with (Fin x :: fmap Fin xs).
    rewrite ewm_from_cons, Ey, Ees.
    split; [done|]. simpl. done.
Qed.

Lemma ema_chain_length alpha prev xs es :
  ema_chain alpha prev xs es -> length es = length xs.
Proof.
  revert prev es. induction xs as [|x xs IH]; intros prev [|e es] H;
    simpl in *; try done.
  destruct H as [_ H]. by rewrite (IH _ _ H).
Qed.

Lemma ema_chain_index alpha x0 xs es t x prev y :
  ema_chain alpha x0 xs es ->
  (x0 :: xs) !! S t = Some x -> (x0 :: es) !! t = Some prev ->
  (x0 :: es) !! S t = Some y ->
  y == alpha * x + (1 - alpha) * prev.
Proof.
  revert x0 xs es. induction t as [|t IH]; intros x0 xs es H Hx Hp Hy.
  - destruct xs as [|x1 xs], es as [|e1 es]; simpl in *; try done.
    injection Hx as <-. injection Hp as <-. injection Hy as <-. tauto.
  - destruct xs as [|x1 xs], es as [|e1 es]; simpl in *; try done.
    destruct H as [_ H]. by eapply (IH e1 xs es).
Qed.

Lemma ewm_mean_fin span (xs : list Q) :
  exists es, ewm_mean span (fmap Fin xs) = fmap Fin es /\
             ema_of (ewm_alpha span) xs es.
Proof.
  destruct xs as [|x xs].
  - exists []. repeat split. intros t x prev y H. done.
  - destruct (ewm_from_fin (ewm_alpha span) x xs) as (es & E & H).
    exists (x :: es). rewrite !fmap_cons. unfold ewm_mean. rewrite E.
    split; [done|].
    split; [simpl; by rewrite (ema_chain_length _ _ _ _ H)|].
    split; [done|]. intros t x' prev y. by apply ema_chain_index.
Qed.

Lemma ssub_fin (a b : list Q) :
  ssub (fmap Fin a) (fmap Fin b) = fmap Fin (zip_with Qminus a b).
Proof.
  revert b. induction a as [|x a IH]; intros [|y b]; simpl; try done.
  unfold ssub in IH. by rewrite IH.
Qed.

(** C5: on finite rates, MACD is EMA12 - EMA26 row by row and MACD_Signal
    is the EMA(9) of MACD, where the EMA of span [s] is seeded by the first
    value and follows [E[t] = a * x[t] + (1 - a) * E[t-1]] with
    [a = 2/(s+1)]: 2/13, 2/27 and 2/10. *)
Theorem C5_macd_is_ema_difference
    (h : store) (df : loc) (f : frame) (rates : list Q) :
  h !! df = Some f ->
  f !! "EXCHANGE_RATE" = Some (NumCol (fmap Fin rates)) ->
  exists df' h' out (ema12 ema26 signal : list Q),
    calculate_technical_indicators df "EXCHANGE_RATE" h = inr (df', h') /\
    h' !! df' = Some out /\
    out !! "MACD" = Some (NumCol (fmap Fin (zip_with Qminus ema12 ema26))) /\
    out !! "MACD_Signal" = Some (NumCol (fmap Fin signal)) /\
    ema_of (2 # 13) rates ema12 /\
    ema_of (2 # 27) rates ema26 /\
    ema_of (2 # 10) (zip_with Qminus ema12 ema26) signal.
Proof.
  intros Hdf Hp.
  destruct (calculate_technical_indicators_output h df f _ Hdf Hp)
    as (df' & h' & E & Ho & _).
  destruct (ewm_mean_fin 12 rates) as (e12 & E12 & H12).
  destruct (ewm_mean_fin 26 rates) as (e26 & E26 & H26).
  destruct (ewm_mean_fin 9 (zip_with Qminus e12 e26)) as (sg & Esg & Hsg).
  exists df', h', (enriched f (fmap Fin rates)), e12, e26, sg.
  split; [done|]. split; [done|].
  assert (Em : macd (fmap Fin rates) = fmap Fin (zip_with Qminus e12 e26)).
  { unfold macd. by rewrite E12, E26, ssub_fin. }
  split; [rewrite <- Em; apply enriched_lookup; in_columns|].
  split; [rewrite <- Esg, <- Em; apply enriched_lookup; in_columns|].
  done.
Qed.

Lemma C5_witness :
  exists df' h' out (ema12 ema26 signal : list Q),
    calculate_technical_indicators 1 "EXCHANGE_RATE" sample_store = inr (df', h') /\
    h' !! df' = Some out /\
    out !! "MACD" = Some (NumCol (fmap Fin (zip_with Qminus ema12 ema26))) /\
    out !! "MACD_Signal" = Some (NumCol (fmap Fin signal)) /\
    ema_of (2 # 13) sample_rates ema12 /\
    ema_of (2 # 27) sample_rates ema26 /\
    ema_of (2 # 10) (zip_with Qminus ema12 ema26) signal.
Proof.
  apply (C5_macd_is_ema_difference sample_store 1 sample_frame sample_rates);
    reflexivity.
Defined.

(** ** The sentinel at the start of a windowed Series *)

Lemma rolling_lookup k agg (s : series) i :
  (i < length s)%nat ->
  rolling k agg s !! i
  = Some (let obs := filter (fun x => notna x = true) (window k i s) in
          if (length obs <? k)%nat then NaN else agg obs).
Proof.
  intros Hi. unfold rolling. rewrite list_lookup_fmap.
  by rewrite lookup_seq_lt.
Qed.

Lemma length_window_le k i (s : series) : (length (window k i s) <= S i)%nat.
Proof. unfold window. rewrite length_take. lia. Qed.

Lemma head_nan_rolling k agg (s : series) : head_nan (k - 1) (rolling k agg s).
Proof.
  intros i Hi Hlen. rewrite length_rolling in Hlen.
  rewrite rolling_lookup by done. simpl.
  pose proof (length_filter (fun x => notna x = true) (window k i s)) as Hf.
  pose proof (length_window_le k i s) as Hw.
  destruct (Nat.ltb_spec (length (filter (fun x => notna x = true) (window k i s))) k);
    [done | lia].
Qed.

Lemma head_nan_map n f (s : series) :
  f NaN = NaN -> head_nan n s -> head_nan n (fmap f s).
Proof.
  intros Hf Hs i Hi Hlen. rewrite length_fmap in Hlen.
  rewrite list_lookup_fmap, (Hs i Hi Hlen). simpl. by rewrite Hf.
Qed.

Lemma head_nan_zip_with_l n f (a b : series) :
  (forall y, f NaN y = NaN) -> head_nan n a -> head_nan n (zip_with f a b).
Proof.
  intros Hf Ha i Hi Hlen. rewrite length_zip_with in Hlen.
  rewrite lookup_zip_with, (Ha i Hi) by lia. simpl.
  destruct (lookup_lt_is_Some_2 b i) as [y ->]; [lia|]. simpl. by rewrite Hf.
Qed.

Lemma head_nan_zip_with_r n f (a b : series) :
  (forall x, f x NaN = NaN) -> head_nan n b -> head_nan n (zip_with f a b).
Proof.
  intros Hf Hb i Hi Hlen. rewrite length_zip_with in Hlen.
  rewrite lookup_zip_with, (Hb i Hi) by lia.
  destruct (lookup_lt_is_Some_2 a i) as [x ->]; [lia|]. simpl. by rewrite Hf.
Qed.

Lemma fdiv_nan_r x : fdiv x NaN = NaN.
Proof. by destruct x. Qed.
Lemma fsub_nan_r x : fsub x NaN = NaN.
Proof. by destruct x. Qed.

Lemma head_nan_shift (s : series) : head_nan 1 (shift s).
Proof.
  intros i Hi Hlen. assert (i = 0)%nat as -> by lia.
  unfold shift in *. destruct s; simpl in *; [lia | done].
Qed.

Lemma head_nan_pct_change (s : series) : head_nan 1 (pct_change s).
Proof.
  unfold pct_change. apply head_nan_zip_with_r; [|apply head_nan_shift].
  intros x. by rewrite fdiv_nan_r.
Qed.

Ltac head_nan_tac :=
  first
    [ apply head_nan_rolling
    | apply head_nan_map; [reflexivity | head_nan_tac]
    | apply head_nan_zip_with_l; [intros []; reflexivity | head_nan_tac]
    | apply head_nan_zip_with_r; [intros []; reflexivity | head_nan_tac] ].

Lemma rolling_fields_head_nan (f : frame) (p : series) c k :
  (c, k) ∈ rolling_fields ->
  exists s, enriched f p !! c = Some (NumCol s) /\ head_nan (k - 1) s.
Proof.
  intros Hin. apply list_elem_of_In in Hin. simpl in Hin.
  repeat (destruct Hin as [Hin | Hin];
          [ injection Hin as <- <-; eexists;
            split; [apply enriched_lookup; in_columns|];
            unfold rsi, stoch_k, atr, di_plus, di_minus, times100, times2,
              sadd, ssub, sdiv, smap;
            head_nan_tac | ]).
  destruct Hin.
Qed.

Lemma macd_fin (rates : list Q) :
  exists m sg,
    macd (Fin <$> rates) = Fin <$> m /\
    macd_signal (Fin <$> rates) = Fin <$> sg /\
    ssub (macd (Fin <$> rates)) (macd_signal (Fin <$> rates))
    = Fin <$> zip_with Qminus m sg.
Proof.
  destruct (ewm_mean_fin 12 rates) as (e12 & E12 & _).
  destruct (ewm_mean_fin 26 rates) as (e26 & E26 & _).
  destruct (ewm_mean_fin 9 (zip_with Qminus e12 e26)) as (sg & Esg & _).
  exists (zip_with Qminus e12 e26), sg.
  assert (Em : macd (Fin <$> rates) = Fin <$> zip_with Qminus e12 e26).
  { unfold macd. by rewrite E12, E26, ssub_fin. }
  unfold macd_signal. rewrite Em, Esg. by rewrite ssub_fin.
Qed.

(** C2, as the code has it: for a price Series of any length, the empty
    one included, the computation returns; every derived column has one
    value per input row; every field that rolls a window of [k] rows is NaN
    on its first [k - 1] rows and Daily_Return on its first row.  MACD,
    MACD_Signal and MACD_Histogram are seeded by the first row: on finite
    rates every one of their rows is a finite number. *)
Theorem C2_short_series_sentinels (h : store) (df : loc) (f : frame) (p : series) :
  h !! df = Some f ->
  f !! "EXCHANGE_RATE" = Some (NumCol p) ->
  exists df' h' out,
    calculate_technical_indicators df "EXCHANGE_RATE" h = inr (df', h') /\
    h' !! df' = Some out /\
    (forall c, c ∈ derived_fields ->
       exists s, out !! c = Some (NumCol s) /\ length s = length p) /\
    (forall c k, (c, k) ∈ rolling_fields -> sentinel_prefix out c k (length p)) /\
    sentinel_prefix out "Daily_Return" 2 (length p) /\
    (forall rates : list Q, p = Fin <$> rates ->
       forall c, c ∈ ["MACD"; "MACD_Signal"; "MACD_Histogram"] ->
         exists qs : list Q, out !! c = Some (NumCol (Fin <$> qs))).
Proof.
  intros Hdf Hp.
  destruct (calculate_technical_indicators_output h df f p Hdf Hp)
    as (df' & h' & E & Ho & _).
  exists df', h', (enriched f p). split; [done|]. split; [done|].
  split; [|split; [|split]].
  - intros c Hc. destruct (derived_field_column p c Hc) as [s Hs].
    exists s. split; [by apply enriched_lookup|].
    by apply (indicator_columns_length p c).
  - intros c k Hck.
    destruct (rolling_fields_head_nan f p c k Hck) as (s & Hs & Hn).
    exists s. split; [done|]. split; [|done].
    assert (Hc : c ∈ derived_fields).
    { apply list_elem_of_In in Hck. simpl in Hck. apply list_elem_of_In.
      simpl. repeat (destruct Hck as [Hck|Hck];
                     [injection Hck as <- _; auto 30|]). destruct Hck. }
    destruct (derived_field_column p c Hc) as [s' Hs'].
    rewrite (enriched_lookup f p c s' Hs') in Hs. injection Hs as <-.
    by apply (indicator_columns_length p c).
  - exists (pct_change p). split; [apply enriched_lookup; in_columns|].
    split; [apply length_pct_change | apply head_nan_pct_change].
  - intros rates -> c Hc. destruct (macd_fin rates) as (m & sg & Em & Es & Eh).
    apply list_elem_of_In in Hc. simpl in Hc.
    destruct Hc as [<- | [<- | [<- | []]]].
    + exists m. rewrite <- Em. apply enriched_lookup; in_columns.
    + exists sg. rewrite <- Es. apply enriched_lookup; in_columns.
    + exists (zip_with Qminus m sg). rewrite <- Eh.
      apply enriched_lookup; in_columns.
Qed.

Lemma C2_witness :
  exists df' h' out,
    calculate_technical_indicators 1 "EXCHANGE_RATE" sample_store = inr (df', h') /\
    h' !! df' = Some out /\
    (forall c, c ∈ derived_fields ->
       exists s, out !! c = Some (NumCol s) /\ length s = 5%nat) /\
    (forall c k, (c, k) ∈ rolling_fields -> sentinel_prefix out c k 5) /\
    sentinel_prefix out "Daily_Return" 2 5 /\
    (forall rates : list Q, Fin <$> sample_rates = Fin <$> rates ->
       forall c, c ∈ ["MACD"; "MACD_Signal"; "MACD_Histogram"] ->
         exists qs : list Q, out !! c = Some (NumCol (Fin <$> qs))).
Proof.
  exact (C2_short_series_sentinels sample_store 1 sample_frame
           (Fin <$> sample_rates) eq_refl eq_refl).
Defined.

(** C2 as stated fails on a Series of one row: MACD_Signal, which the
    table gives the window 9, is 0 at row 0, not NaN. *)
Lemma C2_counterexample : ~ sentinel_rule_all_windows one_row_store 1 1.
Proof.
  intros (df' & h' & out & E & Ho & Hall & _).
  destruct (calculate_technical_indicators_output one_row_store 1
              one_row_frame [Fin 100] eq_refl eq_refl)
    as (df2 & h2 & E2 & Ho2 & _).
  rewrite E2 in E. injection E as <- <-. rewrite Ho2 in Ho.
  injection Ho as <-.
  destruct (Hall "MACD_Signal" 9%nat) as (s & Hs & _ & Hn).
  { unfold spec_window_table. apply elem_of_app. right.
    apply list_elem_of_In. simpl. auto. }
  rewrite enriched_macd_signal in Hs. injection Hs as <-.
  assert (H0 : macd_signal [Fin 100] !! 0%nat = Some NaN).
  { apply Hn; [lia | unfold macd_signal; rewrite length_ewm_mean; simpl; lia]. }
  vm_compute in H0. discriminate H0.
Qed.

(** ** The signal table *)

Lemma Qltb_lt x y : Qltb x y = true <-> x < y.
Proof.
  unfold Qltb. rewrite Qlt_alt. destruct (x ?= y); split; congruence.
Qed.

Lemma fgt_spec x y : fgt x y = true <-> fl_lt y x.
Proof.
  destruct x as [| | |p], y as [| | |q]; simpl; split; intros H;
    try discriminate; try (by inversion H); try constructor.
  - by apply Qltb_lt.
  - inversion H; subst. by apply Qltb_lt.
Qed.

Lemma getcol_run (h : store) l (f : frame) c s :
  h !! l = Some f -> f !! c = Some (NumCol s) -> getcol l c h = inr (s, h).
Proof. intros Hl Hc. unfold getcol. by rewrite Hl, Hc. Qed.

Lemma tech_entry_run (h : store) df (f : frame) c name classify s x :
  h !! df = Some f ->
  f !! c = Some (NumCol s) ->
  last s = Some x ->
  tech_entry df (omap col_last f) c name classify h
  = inr (signal_line name classify x, h).
Proof.
  intros Hdf Hc Hx. unfold tech_entry.
  erewrite bind_inr; last first.
  { unfold has_column. rewrite Hdf, Hc. reflexivity. }
  rewrite bool_decide_eq_true_2 by by eexists.
  rewrite lookup_omap, Hc. simpl. rewrite Hx. simpl.
  unfold signal_line. by destruct (notna x).
Qed.

Lemma tech_data_run (h : store) df (f : frame) rs ks adxs r k a :
  h !! df = Some f ->
  f !! "RSI" = Some (NumCol rs) -> last rs = Some r ->
  f !! "Stoch_K" = Some (NumCol ks) -> last ks = Some k ->
  f !! "ADX" = Some (NumCol adxs) -> last adxs = Some a ->
  tech_data df h
  = inr (signal_line "RSI" rsi_signal r
         ++ signal_line "Stochastic %K" stoch_signal k
         ++ signal_line "ADX" adx_signal a, h).
Proof.
  intros Hdf Hr Hr' Hk Hk' Ha Ha'. unfold tech_data.
  erewrite bind_inr; last first.
  { unfold iloc_last. rewrite Hdf. simpl.
    destruct (decide (omap col_last f = ∅)) as [E|_]; [|reflexivity].
    exfalso. assert (H : omap col_last f !! "RSI" = None) by by rewrite E.
    rewrite lookup_omap, Hr in H. simpl in H. by rewrite Hr' in H. }
  erewrite bind_inr by by eapply tech_entry_run.
  erewrite bind_inr by by eapply tech_entry_run.
  erewrite bind_inr by by eapply tech_entry_run.
  reflexivity.
Qed.

Lemma labels_distinct :
  overbought ≠ oversold /\ overbought ≠ neutral /\ oversold ≠ neutral /\
  strong_trend ≠ weak_trend /\ strong_trend ≠ ranging /\ weak_trend ≠ ranging.
Proof. repeat split; discriminate. Qed.

Lemma rsi_signal_spec x :
  (rsi_signal x = overbought <-> fl_lt (Fin 70) x) /\
  (rsi_signal x = oversold <-> fl_lt x (Fin 30)) /\
  (rsi_signal x = neutral <-> ~ fl_lt (Fin 70) x /\ ~ fl_lt x (Fin 30)).
Proof.
  unfold rsi_signal, flt.
  assert (Hex : fl_lt (Fin 70) x -> fl_lt x (Fin 30) -> False).
  { intros H1 H2. inversion H1; subst; inversion H2; subst. lra. }
  destruct (fgt x (Fin 70)) eqn:E1; [|destruct (fgt (Fin 30) x) eqn:E2].
  - apply fgt_spec in E1.
    repeat split; intros; try done; try tauto; try (exfalso; eauto; fail).
  - apply fgt_spec in E2.
    assert (~ fl_lt (Fin 70) x) by (rewrite <- fgt_spec; congruence).
    repeat split; intros; try done; try tauto; try (exfalso; eauto; fail).
  - assert (~ fl_lt (Fin 70) x) by (rewrite <- fgt_spec; congruence).
    assert (~ fl_lt x (Fin 30)) by (rewrite <- fgt_spec; congruence).
    repeat split; intros; try done; try tauto; try (exfalso; eauto; fail).
Qed.

Lemma adx_signal_spec x :
  (adx_signal x = strong_trend <-> fl_lt (Fin 25) x) /\
  (adx_signal x = weak_trend <-> fl_lt (Fin 20) x /\ ~ fl_lt (Fin 25) x) /\
  (adx_signal x = ranging <-> ~ fl_lt (Fin 20) x).
Proof.
  unfold adx_signal.
  assert (Hmono : fl_lt (Fin 25) x -> fl_lt (Fin 20) x).
  { intros H. inversion H; subst; constructor. lra. }
  destruct (fgt x (Fin 25)) eqn:E1; [|destruct (fgt x (Fin 20)) eqn:E2].
  - apply fgt_spec in E1.
    repeat split; intros; try done; try tauto; try (exfalso; eauto; fail).
  - apply fgt_spec in E2.
    assert (~ fl_lt (Fin 25) x) by (rewrite <- fgt_spec; congruence).
    repeat split; intros; try done; try tauto; try (exfalso; eauto; fail).
  - assert (~ fl_lt (Fin 25) x) by (rewrite <- fgt_spec; congruence).
    assert (~ fl_lt (Fin 20) x) by (rewrite <- fgt_spec; congruence).
    repeat split; intros; try done; try tauto; try (exfalso; eauto; fail).
Qed.

(** C7: on the latest row [r], [k], [a] of RSI, Stoch_K and ADX, the table
    is the RSI line, the Stoch_K line and the ADX line in this order, where
    a line is missing exactly when its value is NaN; the RSI signal is
    "overbought" iff RSI > 70, "oversold" iff RSI < 30, else "neutral"; the
    ADX signal is "strong trend" iff ADX > 25, "weak trend" iff
    20 < ADX and not ADX > 25, else "ranging". *)
Theorem C7_signal_classifier
    (h : store) (df : loc) (f : frame) (rs ks adxs : series) (r k a : fl) :
  h !! df = Some f ->
  f !! "RSI" = Some (NumCol rs) -> last rs = Some r ->
  f !! "Stoch_K" = Some (NumCol ks) -> last ks = Some k ->
  f !! "ADX" = Some (NumCol adxs) -> last adxs = Some a ->
  exists rsi_part stoch_part adx_part,
    tech_data df h = inr (rsi_part ++ stoch_part ++ adx_part, h) /\
    (r = NaN -> rsi_part = []) /\
    (k = NaN -> stoch_part = []) /\
    (a = NaN -> adx_part = []) /\
    (r ≠ NaN ->
       exists lab,
         rsi_part = [ {| indicator := "RSI"; value := r; signal := lab |} ] /\
         (lab = overbought <-> fl_lt (Fin 70) r) /\
         (lab = oversold <-> fl_lt r (Fin 30)) /\
         (lab = neutral <-> ~ fl_lt (Fin 70) r /\ ~ fl_lt r (Fin 30))) /\
    (k ≠ NaN ->
       exists lab,
         stoch_part
         = [ {| indicator := "Stochastic %K"; value := k; signal := lab |} ]) /\
    (a ≠ NaN ->
       exists lab,
         adx_part = [ {| indicator := "ADX"; value := a; signal := lab |} ] /\
         (lab = strong_trend <-> fl_lt (Fin 25) a) /\
         (lab = weak_trend <-> fl_lt (Fin 20) a /\ ~ fl_lt (Fin 25) a) /\
         (lab = ranging <-> ~ fl_lt (Fin 20) a)).
Proof.
  intros Hdf Hr Hr' Hk Hk' Ha Ha'.
  exists (signal_line "RSI" rsi_signal r),
         (signal_line "Stochastic %K" stoch_signal k),
         (signal_line "ADX" adx_signal a).
  split; [by eapply tech_data_run|].
  split; [by intros ->|]. split; [by intros ->|]. split; [by intros ->|].
  split; [|split].
  - intros Hn. exists (rsi_signal r). split; [by destruct r|].
    apply rsi_signal_spec.
  - intros Hn. exists (stoch_signal k). by destruct k.
  - intros Hn. exists (adx_signal a). split; [by destruct a|].
    apply adx_signal_spec.
Qed.

Lemma C7_witness :
  tech_data 1 signals_store
  = inr ([ {| indicator := "RSI"; value := Fin 75; signal := overbought |};
           {| indicator := "ADX"; value := Fin 22; signal := weak_trend |} ],
         signals_store).
Proof.
  destruct (C7_signal_classifier signals_store 1 signals_frame
              [Fin 50; Fin 75] [Fin 10; NaN] [NaN; Fin 22]
              (Fin 75) NaN (Fin 22)
              eq_refl eq_refl eq_refl eq_refl eq_refl eq_refl eq_refl)
    as (e1 & e2 & e3 & E & _ & Hk & _ & Hr & _ & Ha).
  rewrite E. rewrite (Hk eq_refl).
  destruct (Hr ltac:(discriminate)) as (lab & -> & Hob & _).
  destruct (Ha ltac:(discriminate)) as (lab' & -> & _ & Hw & _).
  rewrite (proj2 Hob), (proj2 Hw); [reflexivity | |].
  - split; [constructor; reflexivity|]. intros H. inversion H; subst.
    discriminate.
  - constructor. reflexivity.
Defined.

(** ** The summary statistics *)

Lemma frame_len_aligned (f : frame) c col :
  frame_aligned f -> f !! c = Some col -> frame_len f = col_len col.
Proof.
  intros Hal Hc. unfold frame_len.
  destruct (map_to_list f) as [|[k c0] l] eqn:E.
  - apply map_to_list_empty_iff in E. subst f. by rewrite lookup_empty in Hc.
  - assert (Hk : f !! k = Some c0).
    { apply elem_of_map_to_list. rewrite E. apply list_elem_of_here. }
    by apply (Hal k c).
Qed.

Lemma iloc_run (s : series) i x (h : store) :
  s !! i = Some x -> iloc s i h = inr (x, h).
Proof. intros E. unfold iloc. by rewrite E. Qed.

Lemma iloc_neg_run (s : series) i x (h : store) :
  (1 <= i <= length s)%nat -> s !! (length s - i)%nat = Some x ->
  iloc_neg s i h = inr (x, h).
Proof.
  intros Hi E. unfold iloc_neg.
  destruct (Nat.ltb_spec (length s) i); [lia|]. by apply iloc_run.
Qed.

Lemma last_lookup_Some (s : series) x :
  last s = Some x -> s !! (length s - 1)%nat = Some x.
Proof.
  intros E. rewrite last_lookup in E.
  replace (length s - 1)%nat with (Nat.pred (length s)) by lia. done.
Qed.

Lemma last_drop_lt {A} (s : list A) n :
  (n < length s)%nat -> last (drop n s) = last s.
Proof.
  intros Hn. rewrite !last_lookup, lookup_drop, length_drop. f_equal. lia.
Qed.

(** The statistics on a frame with a non-empty Series of rates. *)
Lemma get_ai_analysis_summary_run (h : store) df (f : frame) (p : series) latest first10 :
  h !! df = Some f ->
  frame_aligned f ->
  f !! "EXCHANGE_RATE" = Some (NumCol p) ->
  last p = Some latest ->
  head (tail 10 p) = Some first10 ->
  exists s h',
    get_ai_analysis_summary df h = inr (s, h') /\
    latest_rate s = latest /\
    volatility s = std (observations p) /\
    avg_rate s = mean (observations p) /\
    recent_trend s = (if fgt latest first10 then up else down) /\
    forall l, is_Some (h !! l) -> h' !! l = h !! l.
Proof.
  intros Hdf Hal Hp Hlast Hfirst.
  assert (Hlen : (1 <= length p)%nat).
  { destruct p; [done | simpl; lia]. }
  set (l := fresh (dom h)). set (h' := <[l := col_tail 10 <$> f]> h).
  assert (Hprev : exists prev,
    (if (1 <? frame_len f)%nat
     then r ← getcol df "EXCHANGE_RATE"; iloc_neg r 2
     else mret latest) h = inr (prev, h)).
  { rewrite (frame_len_aligned f _ _ Hal Hp). simpl.
    destruct (Nat.ltb_spec 1 (length p)) as [H2|H2]; [|by eexists].
    destruct (lookup_lt_is_Some_2 p (length p - 2)) as [x Hx]; [lia|].
    exists x. erewrite bind_inr by by eapply getcol_run.
    apply iloc_neg_run; [lia | done]. }
  destruct Hprev as [prev Hprev].
  assert (Ht : h' !! l = Some (col_tail 10 <$> f)) by apply lookup_insert_eq.
  assert (Htc : (col_tail 10 <$> f) !! "EXCHANGE_RATE" = Some (NumCol (tail 10 p))).
  { by rewrite lookup_fmap, Hp. }
  assert (Htl : last (tail 10 p) = Some latest).
  { unfold tail. rewrite last_drop_lt; [done|]. lia. }
  assert (Htlen : (1 <= length (tail 10 p))%nat).
  { destruct (tail 10 p); [done | simpl; lia]. }
  eexists _, h'. split.
  - unfold get_ai_analysis_summary.
    erewrite bind_inr by by eapply getcol_run.
    erewrite bind_inr by (apply iloc_neg_run; [lia | by apply last_lookup_Some]).
    erewrite bind_inr by (unfold len_df; rewrite Hdf; reflexivity).
    erewrite bind_inr by exact Hprev.
    do 4 erewrite bind_inr by by eapply getcol_run.
    erewrite (bind_inr (tail_df df 10)) by (unfold tail_df; rewrite Hdf; reflexivity).
    erewrite bind_inr by by eapply getcol_run.
    erewrite bind_inr by (apply iloc_neg_run; [lia | by apply last_lookup_Some]).
    erewrite bind_inr by by eapply getcol_run.
    erewrite bind_inr; last first.
    { apply iloc_run. rewrite <- head_lookup. exact Hfirst. }
    reflexivity.
  - simpl. repeat split; try done.
    intros l0 Hl0. unfold h'. rewrite lookup_insert_ne; [done|].
    intros <-. apply elem_of_dom in Hl0. by apply is_fresh in Hl0.
Qed.

Lemma singleton_frame_aligned c col : frame_aligned {[ c := col ]}.
Proof.
  intros c1 c2 col1 col2 H1 H2.
  apply lookup_singleton_Some in H1 as [_ <-].
  by apply lookup_singleton_Some in H2 as [_ <-].
Qed.

(** C9: on a non-empty Series of rates, the trend of the summary is "up"
    exactly when the last rate is strictly greater than the first rate of
    the last 10 rows (of all rows when there are fewer), and "down"
    otherwise, equality included. *)
Theorem C9_recent_trend (h : store) (df : loc) (f : frame) (rates : list Q) :
  h !! df = Some f ->
  frame_aligned f ->
  f !! "EXCHANGE_RATE" = Some (NumCol (Fin <$> rates)) ->
  rates ≠ [] ->
  exists s h' a b,
    get_ai_analysis_summary df h = inr (s, h') /\
    head (drop (length rates - 10) rates) = Some a /\
    last rates = Some b /\
    (recent_trend s = up <-> a < b) /\
    (recent_trend s = down <-> ~ a < b).
Proof.
  intros Hdf Hal Hp Hne.
  assert (Hlen : (0 < length rates)%nat) by (destruct rates; [done | simpl; lia]).
  destruct (lookup_lt_is_Some_2 rates (length rates - 1)) as [b Hb]; [lia|].
  destruct (lookup_lt_is_Some_2 (drop (length rates - 10) rates) 0) as [a Ha].
  { rewrite length_drop. lia. }
  assert (Hlast : last rates = Some b).
  { rewrite last_lookup. rewrite <- Hb. f_equal. lia. }
  rewrite <- head_lookup in Ha.
  destruct (get_ai_analysis_summary_run h df f (Fin <$> rates) (Fin b) (Fin a)
              Hdf Hal Hp) as (s & h' & E & _ & _ & _ & Ht & _).
  { by rewrite fmap_last, Hlast. }
  { unfold tail. rewrite length_fmap, <- fmap_drop.
    destruct (drop (length rates - 10) rates); simpl in *; congruence. }
  exists s, h', a, b. split; [done|]. split; [done|]. split; [done|].
  rewrite Ht. simpl. destruct (Qltb a b) eqn:Eab.
  - apply Qltb_lt in Eab. split; split; done.
  - assert (~ a < b) by (rewrite <- Qltb_lt; congruence).
    split; split; done.
Qed.

Lemma C9_witness :
  exists s h',
    get_ai_analysis_summary 1 ten_store = inr (s, h') /\ recent_trend s = up.
Proof.
  destruct (C9_recent_trend ten_store 1 ten_frame ten_rates eq_refl
              (singleton_frame_aligned _ _) eq_refl ltac:(discriminate))
    as (s & h' & a & b & E & Ha & Hb & Hup & _).
  exists s, h'. split; [exact E|].
  injection Ha as <-. injection Hb as <-. apply Hup. reflexivity.
Defined.

(** ** Series of finite values *)

Lemma window_fin k i (xs : list Q) :
  window k i (Fin <$> xs) = Fin <$> qwindow k i xs.
Proof. unfold window, qwindow. by rewrite fmap_take, fmap_drop. Qed.

Lemma observations_fin (xs : list Q) :
  filter (fun x => notna x = true) (Fin <$> xs) = Fin <$> xs.
Proof.
  induction xs as [|x xs IH]; [done|].
  rewrite fmap_cons, filter_cons_True by done. by rewrite IH.
Qed.

Lemma foldl_fadd_fin a (ws : list Q) :
  foldl fadd (Fin a) (Fin <$> ws) = Fin (foldl Qplus a ws).
Proof. revert a. induction ws as [|x ws IH]; intros a; simpl; [done|]. by rewrite IH. Qed.

Lemma fsum_fin (ws : list Q) : fsum (Fin <$> ws) = Fin (qsum ws).
Proof. apply foldl_fadd_fin. Qed.

Lemma inject_nat_nonzero n :
  (0 < n)%nat -> Qeq_bool (inject_Z (Z.of_nat n)) 0 = false.
Proof.
  intros Hn. destruct (Qeq_bool (inject_Z (Z.of_nat n)) 0) eqn:E; [|done].
  apply Qeq_bool_eq in E. unfold Qeq in E. simpl in E. lia.
Qed.

Lemma inject_nat_pos n : (0 < n)%nat -> 0 < inject_Z (Z.of_nat n).
Proof. intros Hn. unfold Qlt. simpl. lia. Qed.

Lemma mean_fin (ws : list Q) :
  ws ≠ [] -> mean (Fin <$> ws) = Fin (qmean ws).
Proof.
  intros Hne. unfold mean, qmean. rewrite fsum_fin, length_fmap.
  unfold of_nat, fdiv. rewrite inject_nat_nonzero; [done|].
  destruct ws; [done | simpl; lia].
Qed.

Lemma length_qwindow k i (xs : list Q) :
  (k <= S i)%nat -> (i < length xs)%nat -> length (qwindow k i xs) = k.
Proof. intros Hk Hi. unfold qwindow. rewrite length_take, length_drop. lia. Qed.

Lemma rolling_fin k agg (xs : list Q) i :
  (k <= S i)%nat -> (i < length xs)%nat ->
  rolling k agg (Fin <$> xs) !! i = Some (agg (Fin <$> qwindow k i xs)).
Proof.
  intros Hk Hi. rewrite rolling_lookup by by rewrite length_fmap.
  simpl. rewrite window_fin, observations_fin, length_fmap, length_qwindow by done.
  by rewrite Nat.ltb_irrefl.
Qed.

Lemma rolling_short k agg (s : series) i :
  (S i < k)%nat -> (i < length s)%nat -> rolling k agg s !! i = Some NaN.
Proof.
  intros Hk Hi. apply (head_nan_rolling k agg s); [lia|].
  by rewrite length_rolling.
Qed.

Lemma qwindow_nonempty k i (xs : list Q) :
  (0 < k)%nat -> (k <= S i)%nat -> (i < length xs)%nat -> qwindow k i xs ≠ [].
Proof.
  intros H0 Hk Hi E. pose proof (length_qwindow k i xs Hk Hi) as L.
  rewrite E in L. simpl in L. lia.
Qed.

Lemma rolling_mean_fin k (xs : list Q) i :
  (0 < k)%nat -> (k <= S i)%nat -> (i < length xs)%nat ->
  rolling k mean (Fin <$> xs) !! i = Some (Fin (qmean (qwindow k i xs))).
Proof.
  intros H0 Hk Hi. rewrite rolling_fin by done.
  by rewrite mean_fin by by apply qwindow_nonempty.
Qed.

Lemma foldl_Qplus_nonneg a (ws : list Q) :
  0 <= a -> Forall (fun w => 0 <= w) ws -> 0 <= foldl Qplus a ws.
Proof.
  revert a. induction ws as [|w ws IH]; intros a Ha Hws; simpl; [done|].
  apply Forall_cons in Hws as [Hw Hws]. apply IH; [lra | done].
Qed.

Lemma foldl_Qplus_pos a (ws : list Q) :
  0 < a -> Forall (fun w => 0 <= w) ws -> 0 < foldl Qplus a ws.
Proof.
  revert a. induction ws as [|w ws IH]; intros a Ha Hws; simpl; [done|].
  apply Forall_cons in Hws as [Hw Hws]. apply IH; [lra | done].
Qed.

Lemma foldl_Qplus_zero a (ws : list Q) :
  a == 0 -> Forall (fun w => w == 0) ws -> foldl Qplus a ws == 0.
Proof.
  revert a. induction ws as [|w ws IH]; intros a Ha Hws; simpl; [done|].
  apply Forall_cons in Hws as [Hw Hws]. apply IH; [lra | done].
Qed.

Lemma qsum_nonneg (ws : list Q) : Forall (fun w => 0 <= w) ws -> 0 <= qsum ws.
Proof. apply foldl_Qplus_nonneg. lra. Qed.

Lemma qsum_pos (ws : list Q) :
  ws ≠ [] -> Forall (fun w => 0 < w) ws -> 0 < qsum ws.
Proof.
  intros Hne Hws. destruct ws as [|w ws]; [done|].
  apply Forall_cons in Hws as [Hw Hws]. unfold qsum. simpl.
  apply foldl_Qplus_pos; [lra|].
  eapply Forall_impl; [exact Hws|]. intros x Hx. simpl in Hx. lra.
Qed.

Lemma qsum_zero (ws : list Q) : Forall (fun w => w == 0) ws -> qsum ws == 0.
Proof. apply foldl_Qplus_zero. reflexivity. Qed.

Lemma Forall_qwindow (P : Q -> Prop) k i (xs : list Q) :
  Forall P xs -> Forall P (qwindow k i xs).
Proof. intros H. unfold qwindow. by apply Forall_take, Forall_drop. Qed.

Lemma qmean_nonneg (ws : list Q) : Forall (fun w => 0 <= w) ws -> 0 <= qmean ws.
Proof.
  intros H. unfold qmean. destruct ws as [|w ws].
  - unfold qsum. simpl. unfold Qdiv, Qinv. simpl. lra.
  - apply Qle_shift_div_l; [apply inject_nat_pos; simpl; lia|].
    pose proof (qsum_nonneg _ H). lra.
Qed.

(** ** Gains and losses of finite rates *)

Lemma zip_with_take_length {A B C} (f : A -> B -> C) (l : list A) (k : list B) :
  zip_with f l (take (length l) k) = zip_with f l k.
Proof.
  revert k. induction l as [|a l IH]; intros [|b k]; simpl; try done.
  by rewrite IH.
Qed.

Lemma diff_alt (s : series) : diff s = zip_with fsub s (NaN :: s).
Proof. unfold diff, shift. apply zip_with_take_length. Qed.

Lemma zip_fsub_fin prev (xs : list Q) :
  zip_with fsub (Fin <$> xs) (Fin prev :: (Fin <$> xs)) = Fin <$> qdeltas prev xs.
Proof.
  revert prev. induction xs as [|x xs IH]; intros prev; [done|].
  rewrite fmap_cons. cbn [zip_with qdeltas]. rewrite fmap_cons.
  f_equal. apply IH.
Qed.

Lemma diff_fin x (xs : list Q) :
  diff (Fin <$> (x :: xs)) = NaN :: (Fin <$> qdeltas x xs).
Proof.
  rewrite diff_alt, fmap_cons. cbn [zip_with]. f_equal.
  apply zip_fsub_fin.
Qed.

Lemma gains_fin x (xs : list Q) :
  gains (Fin <$> (x :: xs)) = Fin <$> (0 :: (qpos <$> qdeltas x xs)).
Proof.
  unfold gains, where_. rewrite diff_fin, !fmap_cons. simpl. f_equal.
  rewrite <- !list_fmap_compose. apply list_fmap_ext. intros _ d _. simpl.
  unfold qpos. by destruct (Qltb 0 d).
Qed.

Lemma losses_fin x (xs : list Q) :
  losses (Fin <$> (x :: xs)) = Fin <$> ((- 0) :: (qneg <$> qdeltas x xs)).
Proof.
  unfold losses, where_, smap. rewrite diff_fin, !fmap_cons. simpl. f_equal.
  rewrite <- !list_fmap_compose. apply list_fmap_ext. intros _ d _. simpl.
  unfold qneg, flt. simpl. by destruct (Qltb d 0).
Qed.

Lemma qpos_nonneg d : 0 <= qpos d.
Proof.
  unfold qpos. destruct (Qltb 0 d) eqn:E; [|lra]. apply Qltb_lt in E. lra.
Qed.

Lemma qneg_nonneg d : 0 <= qneg d.
Proof.
  unfold qneg. destruct (Qltb d 0) eqn:E; [|lra]. apply Qltb_lt in E. lra.
Qed.

Lemma gains_nonneg (rates : list Q) :
  exists gq, gains (Fin <$> rates) = Fin <$> gq /\ Forall (fun g => 0 <= g) gq.
Proof.
  destruct rates as [|x xs]; [by exists []|].
  eexists. split; [apply gains_fin|]. constructor; [lra|].
  apply Forall_fmap, Forall_true. intros d. apply qpos_nonneg.
Qed.

Lemma losses_nonneg (rates : list Q) :
  exists lq, losses (Fin <$> rates) = Fin <$> lq /\ Forall (fun l => 0 <= l) lq.
Proof.
  destruct rates as [|x xs]; [by exists []|].
  eexists. split; [apply losses_fin|]. constructor; [lra|].
  apply Forall_fmap, Forall_true. intros d. apply qneg_nonneg.
Qed.

(** ** RSI on finite rates *)

Lemma rsi_of_rs_bounds g l :
  0 <= g -> 0 <= l ->
  rsi_of_rs (fdiv (Fin g) (Fin l)) = NaN \/
  exists q, rsi_of_rs (fdiv (Fin g) (Fin l)) = Fin q /\ 0 <= q <= 100.
Proof.
  intros Hg Hl. unfold fdiv. destruct (Qeq_bool l 0) eqn:El.
  - unfold inf_signed. destruct (Qeq_bool g 0) eqn:Eg; [by left|].
    apply Qeq_bool_neq in Eg.
    assert (Qltb 0 g = true) as -> by (apply Qltb_lt; lra).
    right. simpl. eexists. split; [reflexivity|]. lra.
  - right. apply Qeq_bool_neq in El. assert (Hl' : 0 < l) by lra.
    assert (Hr : 0 <= g / l) by (apply Qle_shift_div_l; lra).
    unfold rsi_of_rs. simpl.
    assert (Hd : Qeq_bool (1 + g / l) 0 = false).
    { destruct (Qeq_bool (1 + g / l) 0) eqn:E; [|done].
      apply Qeq_bool_eq in E. lra. }
    rewrite Hd. eexists. split; [reflexivity|].
    assert (H1 : 0 < 1 + g / l) by lra.
    assert (H2 : 0 <= 100 / (1 + g / l)) by (apply Qle_shift_div_l; lra).
    assert (H3 : 100 / (1 + g / l) <= 100) by (apply Qle_shift_div_r; lra).
    lra.
Qed.

Lemma rsi_lookup (p : series) i :
  rsi p !! i
  = (g ← rolling 14 mean (gains p) !! i;
     l ← rolling 14 mean (losses p) !! i;
     Some (rsi_of_rs (fdiv g l))).
Proof.
  unfold rsi, smap, sdiv. rewrite list_lookup_fmap, lookup_zip_with.
  destruct (rolling 14 mean (gains p) !! i); simpl; [|done].
  by destruct (rolling 14 mean (losses p) !! i).
Qed.

Lemma length_gains (p : series) : length (gains p) = length p.
Proof. unfold gains. by rewrite length_where_, length_diff. Qed.

Lemma length_losses (p : series) : length (losses p) = length p.
Proof. unfold losses, smap. by rewrite length_fmap, length_where_, length_diff. Qed.

(** The RSI of finite rates at a row that has 14 rows of history: the
    means of the last 14 gains and losses, both non-negative. *)
Lemma rsi_fin (rates : list Q) i :
  (13 <= i)%nat -> (i < length rates)%nat ->
  exists gq lq,
    gains (Fin <$> rates) = Fin <$> gq /\ losses (Fin <$> rates) = Fin <$> lq /\
    length gq = length rates /\ length lq = length rates /\
    Forall (fun g => 0 <= g) gq /\ Forall (fun l => 0 <= l) lq /\
    rsi (Fin <$> rates) !! i
    = Some (rsi_of_rs (fdiv (Fin (qmean (qwindow 14 i gq)))
                            (Fin (qmean (qwindow 14 i lq))))).
Proof.
  intros H13 Hi.
  destruct (gains_nonneg rates) as (gq & Eg & Hg).
  destruct (losses_nonneg rates) as (lq & El & Hl).
  assert (Lg : length gq = length rates).
  { rewrite <- (length_fmap Fin gq), <- Eg, length_gains. apply length_fmap. }
  assert (Ll : length lq = length rates).
  { rewrite <- (length_fmap Fin lq), <- El, length_losses. apply length_fmap. }
  exists gq, lq. repeat split; try done.
  rewrite rsi_lookup, Eg, El.
  rewrite !rolling_mean_fin by lia. done.
Qed.

Lemma rsi_head_nan (p : series) : head_nan (14 - 1) (rsi p).
Proof. unfold rsi, smap, sdiv. head_nan_tac. Qed.

Lemma length_rsi (p : series) : length (rsi p) = length p.
Proof.
  unfold rsi. rewrite length_smap, length_sdiv; rewrite !length_rolling;
    [apply length_gains | by rewrite length_gains, length_losses].
Qed.

Lemma rsi_bounds (rates : list Q) i v :
  rsi (Fin <$> rates) !! i = Some v -> v ≠ NaN ->
  exists q, v = Fin q /\ 0 <= q <= 100.
Proof.
  intros Hv Hn.
  assert (Hi : (i < length rates)%nat).
  { apply lookup_lt_Some in Hv. by rewrite length_rsi, length_fmap in Hv. }
  destruct (Nat.lt_ge_cases i 13) as [Hlt | Hge].
  - rewrite (rsi_head_nan (Fin <$> rates) i) in Hv; [congruence | lia |].
    by rewrite length_rsi, length_fmap.
  - destruct (rsi_fin rates i Hge Hi)
      as (gq & lq & _ & _ & _ & _ & Hg & Hl & E).
    rewrite E in Hv. injection Hv as <-.
    destruct (rsi_of_rs_bounds (qmean (qwindow 14 i gq)) (qmean (qwindow 14 i lq)))
      as [E' | (q & E' & Hq)].
    + by apply qmean_nonneg, Forall_qwindow.
    + by apply qmean_nonneg, Forall_qwindow.
    + by destruct Hn.
    + by exists q.
Qed.

(** C4: on finite rates, every row of RSI that is not NaN is a finite
    number between 0 and 100. *)
Theorem C4_rsi_in_0_100 (h : store) (df : loc) (f : frame) (rates : list Q) :
  h !! df = Some f ->
  f !! "EXCHANGE_RATE" = Some (NumCol (Fin <$> rates)) ->
  exists df' h' out col,
    calculate_technical_indicators df "EXCHANGE_RATE" h = inr (df', h') /\
    h' !! df' = Some out /\
    out !! "RSI" = Some (NumCol col) /\
    forall i v, col !! i = Some v -> v ≠ NaN ->
      exists q, v = Fin q /\ 0 <= q <= 100.
Proof.
  intros Hdf Hp.
  destruct (calculate_technical_indicators_output h df f _ Hdf Hp)
    as (df' & h' & E & Ho & _).
  exists df', h', (enriched f (Fin <$> rates)), (rsi (Fin <$> rates)).
  split; [done|]. split; [done|].
  split; [apply enriched_lookup; in_columns|].
  apply rsi_bounds.
Qed.

Lemma C4_witness :
  exists df' h' out col,
    calculate_technical_indicators 1 "EXCHANGE_RATE" rising_store = inr (df', h') /\
    h' !! df' = Some out /\
    out !! "RSI" = Some (NumCol col) /\
    forall i v, col !! i = Some v -> v ≠ NaN ->
      exists q, v = Fin q /\ 0 <= q <= 100.
Proof.
  exact (C4_rsi_in_0_100 rising_store 1 rising_frame rising_rates
           eq_refl eq_refl).
Defined.

(** ** Rising rates *)

Lemma strictly_increasing_deltas x (xs : list Q) :
  strictly_increasing (x :: xs) -> Forall (fun d => 0 < d) (qdeltas x xs).
Proof.
  revert x. induction xs as [|y xs IH]; intros x H; simpl; [constructor|].
  constructor.
  - pose proof (H 0%nat x y eq_refl eq_refl). lra.
  - apply IH. intros i a b Ha Hb. by apply (H (S i)).
Qed.

Lemma Forall_qwindow_tail (P : Q -> Prop) k i a (tl : list Q) :
  (k < S i)%nat -> Forall P tl -> Forall P (qwindow k i (a :: tl)).
Proof.
  intros Hk H. unfold qwindow.
  destruct (S i - k)%nat as [|j] eqn:E; [lia|]. simpl.
  by apply Forall_take, Forall_drop.
Qed.

Lemma qmean_pos (ws : list Q) :
  ws ≠ [] -> Forall (fun w => 0 < w) ws -> 0 < qmean ws.
Proof.
  intros Hne H. unfold qmean. apply Qlt_shift_div_l.
  - apply inject_nat_pos. destruct ws; [done | simpl; lia].
  - pose proof (qsum_pos ws Hne H). lra.
Qed.

Lemma qmean_zero (ws : list Q) : Forall (fun w => w == 0) ws -> qmean ws == 0.
Proof.
  intros H. unfold qmean, Qdiv. rewrite (qsum_zero ws H). ring.
Qed.

Lemma rsi_fin_cons x (xs : list Q) i :
  (13 <= i)%nat -> (i < S (length xs))%nat ->
  rsi (Fin <$> (x :: xs)) !! i
  = Some (rsi_of_rs
            (fdiv (Fin (qmean (qwindow 14 i (0 :: (qpos <$> qdeltas x xs)))))
                  (Fin (qmean (qwindow 14 i ((- 0) :: (qneg <$> qdeltas x xs))))))).
Proof.
  intros H13 Hi.
  assert (Ld : length (qdeltas x xs) = length xs).
  { clear. revert x. induction xs as [|y xs IH]; intros x; simpl; [done|].
    by rewrite IH. }
  rewrite rsi_lookup, gains_fin, losses_fin.
  rewrite !rolling_mean_fin; [done | lia | lia | | lia | lia |];
    simpl; rewrite length_fmap, Ld; lia.
Qed.

Lemma rsi_rising_last (rates : list Q) :
  (15 <= length rates)%nat -> strictly_increasing rates ->
  last (rsi (Fin <$> rates)) = Some (Fin (100 + - 0)).
Proof.
  intros Hlen Hinc. destruct rates as [|x xs]; [simpl in Hlen; lia|].
  simpl in Hlen. rewrite last_lookup, length_rsi, length_fmap.
  change (Nat.pred (length (x :: xs))) with (length xs).
  pose proof (strictly_increasing_deltas x xs Hinc) as Hd.
  assert (Ld : length (qdeltas x xs) = length xs).
  { clear. revert x. induction xs as [|y xs IH]; intros x; simpl; [done|].
    by rewrite IH. }
  rewrite rsi_fin_cons by lia.
  set (g := qmean (qwindow 14 (length xs) (0 :: (qpos <$> qdeltas x xs)))).
  set (l := qmean (qwindow 14 (length xs) ((- 0) :: (qneg <$> qdeltas x xs)))).
  assert (Hg : 0 < g).
  { apply qmean_pos.
    - apply qwindow_nonempty; [lia | lia |]. simpl. rewrite length_fmap, Ld. lia.
    - apply Forall_qwindow_tail; [lia|]. apply Forall_fmap.
      eapply Forall_impl; [exact Hd|]. intros d Hpos. simpl.
      unfold qpos. by rewrite (proj2 (Qltb_lt 0 d) Hpos). }
  assert (Hl : l == 0).
  { apply qmean_zero. apply Forall_qwindow_tail; [lia|]. apply Forall_fmap.
    eapply Forall_impl; [exact Hd|]. intros d Hpos. simpl in Hpos |- *.
    unfold qneg. destruct (Qltb d 0) eqn:E; [|reflexivity].
    apply Qltb_lt in E. lra. }
  unfold fdiv. rewrite (Qeq_eq_bool _ _ Hl). unfold inf_signed.
  assert (Qeq_bool g 0 = false) as ->.
  { destruct (Qeq_bool g 0) eqn:E; [|done]. apply Qeq_bool_eq in E. lra. }
  rewrite (proj2 (Qltb_lt 0 g) Hg). reflexivity.
Qed.

(** C6: on strictly increasing finite rates of at least 15 rows, the RSI of
    the last row is 100: the mean loss is zero, the mean gain is positive,
    their quotient is +infinity and [100 - 100/(1 + inf)] is [100 - 0]. *)
Theorem C6_rsi_of_rising_rates
    (h : store) (df : loc) (f : frame) (rates : list Q) :
  h !! df = Some f ->
  f !! "EXCHANGE_RATE" = Some (NumCol (Fin <$> rates)) ->
  (15 <= length rates)%nat ->
  strictly_increasing rates ->
  exists df' h' out col q,
    calculate_technical_indicators df "EXCHANGE_RATE" h = inr (df', h') /\
    h' !! df' = Some out /\
    out !! "RSI" = Some (NumCol col) /\
    last col = Some (Fin q) /\ q == 100.
Proof.
  intros Hdf Hp Hlen Hinc.
  destruct (calculate_technical_indicators_output h df f _ Hdf Hp)
    as (df' & h' & E & Ho & _).
  exists df', h', (enriched f (Fin <$> rates)), (rsi (Fin <$> rates)), (100 + - 0).
  split; [done|]. split; [done|].
  split; [apply enriched_lookup; in_columns|].
  split; [by apply rsi_rising_last | ring].
Qed.

Lemma rising_rates_increasing : strictly_increasing rising_rates.
Proof.
  intros i a b Ha Hb. unfold rising_rates in *.
  do 15 (destruct i as [|i];
         [ simpl in Ha, Hb;
           first [ discriminate Hb
                 | injection Ha as <-; injection Hb as <-; reflexivity ] |]).
  discriminate Ha.
Qed.

Lemma C6_witness :
  exists df' h' out col q,
    calculate_technical_indicators 1 "EXCHANGE_RATE" rising_store = inr (df', h') /\
    h' !! df' = Some out /\
    out !! "RSI" = Some (NumCol col) /\
    last col = Some (Fin q) /\ q == 100.
Proof.
  apply (C6_rsi_of_rising_rates rising_store 1 rising_frame rising_rates).
  - reflexivity.
  - reflexivity.
  - simpl. lia.
  - exact rising_rates_increasing.
Defined.

(** ** Standard deviation of finite values *)

Lemma Qsqrt_nonneg q : 0 <= Qsqrt q.
Proof.
  unfold Qsqrt, Qle. cbn [Qnum Qden].
  pose proof (Z.sqrt_nonneg (Qnum (Qred q) * Z.pos (Qden (Qred q)) * 2 ^ 106)).
  lia.
Qed.

Lemma Qsquare_nonneg (y : Q) : 0 <= y * y.
Proof.
  destruct (Qlt_le_dec y 0) as [Hneg | Hpos].
  - assert (E : y * y == (- y) * (- y)) by ring.
    rewrite E. apply Qmult_le_0_compat; lra.
  - by apply Qmult_le_0_compat.
Qed.

Lemma sum_sq_dev_nonneg (ws : list Q) : 0 <= sum_sq_dev ws.
Proof.
  unfold sum_sq_dev. apply qsum_nonneg, Forall_fmap, Forall_true.
  intros x. apply Qsquare_nonneg.
Qed.

Lemma var_fin ddof (ws : list Q) :
  (ddof < length ws)%nat ->
  var ddof (Fin <$> ws)
  = Fin (sum_sq_dev ws / inject_Z (Z.of_nat (length ws - ddof))).
Proof.
  intros Hlen. unfold var. rewrite length_fmap.
  destruct (Nat.leb_spec (length ws) ddof); [lia|].
  rewrite mean_fin by (destruct ws; [simpl in Hlen; lia | done]).
  cbv zeta.
  assert (E : (fun x => fmul (fsub x (Fin (qmean ws))) (fsub x (Fin (qmean ws))))
                <$> (Fin <$> ws)
              = Fin <$> ((fun x => (x - qmean ws) * (x - qmean ws)) <$> ws)).
  { rewrite <- !list_fmap_compose. by apply list_fmap_ext. }
  rewrite E, fsum_fin. unfold of_nat, fdiv.
  by rewrite inject_nat_nonzero by lia.
Qed.

Lemma std_fin (ws : list Q) :
  (2 <= length ws)%nat -> std (Fin <$> ws) = Fin (sample_std_dev ws).
Proof.
  intros Hlen. unfold std. rewrite var_fin by lia. unfold fsqrt.
  assert (Hv : 0 <= sum_sq_dev ws / inject_Z (Z.of_nat (length ws - 1))).
  { apply Qle_shift_div_l; [apply inject_nat_pos; lia|].
    pose proof (sum_sq_dev_nonneg ws). lra. }
  destruct (Qltb _ 0) eqn:E; [|done]. apply Qltb_lt in E. lra.
Qed.

(** The Bollinger columns and Volatility of finite rates at a row that has
    20 rows of history. *)
Lemma bollinger_fin (rates : list Q) i :
  (19 <= i)%nat -> (i < length rates)%nat ->
  let w := qwindow 20 i rates in
  rolling 20 mean (Fin <$> rates) !! i = Some (Fin (qmean w)) /\
  rolling 20 std (Fin <$> rates) !! i = Some (Fin (sample_std_dev w)) /\
  sadd (rolling 20 mean (Fin <$> rates)) (times2 (rolling 20 std (Fin <$> rates))) !! i
  = Some (Fin (qmean w + sample_std_dev w * 2)) /\
  ssub (rolling 20 mean (Fin <$> rates)) (times2 (rolling 20 std (Fin <$> rates))) !! i
  = Some (Fin (qmean w - sample_std_dev w * 2)).
Proof.
  intros H19 Hi w.
  assert (Em : rolling 20 mean (Fin <$> rates) !! i = Some (Fin (qmean w))).
  { by apply rolling_mean_fin; [lia | lia |]. }
  assert (Es : rolling 20 std (Fin <$> rates) !! i = Some (Fin (sample_std_dev w))).
  { rewrite rolling_fin by lia. rewrite std_fin; [done|].
    unfold w. rewrite length_qwindow; lia. }
  split; [done|]. split; [done|].
  unfold sadd, ssub, times2, smap.
  rewrite !lookup_zip_with, !list_lookup_fmap, Em, Es. done.
Qed.

(** C8: on finite rates, at every row where BB_Upper, BB_Middle and
    BB_Lower are all defined, they are finite and
    BB_Lower <= BB_Middle <= BB_Upper. *)
Theorem C8_bollinger_order (h : store) (df : loc) (f : frame) (rates : list Q) :
  h !! df = Some f ->
  f !! "EXCHANGE_RATE" = Some (NumCol (Fin <$> rates)) ->
  exists df' h' out up mid lo,
    calculate_technical_indicators df "EXCHANGE_RATE" h = inr (df', h') /\
    h' !! df' = Some out /\
    out !! "BB_Upper" = Some (NumCol up) /\
    out !! "BB_Middle" = Some (NumCol mid) /\
    out !! "BB_Lower" = Some (NumCol lo) /\
    forall i u m l,
      up !! i = Some u -> mid !! i = Some m -> lo !! i = Some l ->
      u ≠ NaN -> m ≠ NaN -> l ≠ NaN ->
      exists qu qm ql,
        u = Fin qu /\ m = Fin qm /\ l = Fin ql /\ ql <= qm /\ qm <= qu.
Proof.
  intros Hdf Hp.
  destruct (calculate_technical_indicators_output h df f _ Hdf Hp)
    as (df' & h' & E & Ho & _).
  set (p := Fin <$> rates).
  exists df', h', (enriched f p),
    (sadd (rolling 20 mean p) (times2 (rolling 20 std p))),
    (rolling 20 mean p),
    (ssub (rolling 20 mean p) (times2 (rolling 20 std p))).
  split; [done|]. split; [done|].
  split; [apply enriched_lookup; in_columns|].
  split; [apply enriched_lookup; in_columns|].
  split; [apply enriched_lookup; in_columns|].
  intros i u m l Hu Hm Hl Nu Nm Nl. unfold p in Hu, Hm, Hl.
  assert (Hi : (i < length rates)%nat).
  { apply lookup_lt_Some in Hm. by rewrite length_rolling, length_fmap in Hm. }
  destruct (Nat.lt_ge_cases i 19) as [Hlt | Hge].
  - rewrite rolling_short in Hm; [congruence | lia | by rewrite length_fmap].
  - destruct (bollinger_fin rates i Hge Hi) as (Em & _ & Eu & El).
    rewrite Em in Hm. rewrite Eu in Hu. rewrite El in Hl.
    injection Hm as <-. injection Hu as <-. injection Hl as <-.
    eexists _, _, _. repeat split.
    + pose proof (Qsqrt_nonneg
        (sum_sq_dev (qwindow 20 i rates)
           / inject_Z (Z.of_nat (length (qwindow 20 i rates) - 1)))) as Hs.
      unfold sample_std_dev. lra.
    + pose proof (Qsqrt_nonneg
        (sum_sq_dev (qwindow 20 i rates)
           / inject_Z (Z.of_nat (length (qwindow 20 i rates) - 1)))) as Hs.
      unfold sample_std_dev. lra.
Qed.

Lemma C8_witness :
  exists df' h' out up mid lo,
    calculate_technical_indicators 1 "EXCHANGE_RATE" alt_store = inr (df', h') /\
    h' !! df' = Some out /\
    out !! "BB_Upper" = Some (NumCol up) /\
    out !! "BB_Middle" = Some (NumCol mid) /\
    out !! "BB_Lower" = Some (NumCol lo) /\
    forall i u m l,
      up !! i = Some u -> mid !! i = Some m -> lo !! i = Some l ->
      u ≠ NaN -> m ≠ NaN -> l ≠ NaN ->
      exists qu qm ql,
        u = Fin qu /\ m = Fin qm /\ l = Fin ql /\ ql <= qm /\ qm <= qu.
Proof.
  exact (C8_bollinger_order alt_store 1 alt_frame alt_rates eq_refl eq_refl).
Defined.

(** ** The enriched frame is a DataFrame *)

Lemma price_not_derived : "EXCHANGE_RATE" ∉ derived_fields.
Proof. apply (bool_decide_unpack _). vm_compute. exact I. Qed.

Lemma enriched_col_len (f : frame) (p : series) c col :
  frame_aligned f ->
  f !! "EXCHANGE_RATE" = Some (NumCol p) ->
  enriched f p !! c = Some col -> col_len col = length p.
Proof.
  intros Hal Hp Hc. destruct (decide (c ∈ derived_fields)) as [Hd | Hd].
  - destruct (derived_field_column p c Hd) as [s Hs].
    rewrite (enriched_lookup f p c s Hs) in Hc. injection Hc as <-.
    by apply (indicator_columns_length p c).
  - rewrite enriched_other in Hc by done.
    by apply (Hal c "EXCHANGE_RATE" col (NumCol p)).
Qed.

Lemma enriched_aligned (f : frame) (p : series) :
  frame_aligned f ->
  f !! "EXCHANGE_RATE" = Some (NumCol p) ->
  frame_aligned (enriched f p).
Proof.
  intros Hal Hp c1 c2 col1 col2 H1 H2.
  rewrite (enriched_col_len f p c1 col1), (enriched_col_len f p c2 col2); done.
Qed.

(** C1, as the code has it: the standard deviations are sample standard
    deviations, the sum of the squared deviations over [N - 1] (pandas'
    default [ddof=1]): the rolling one of 20 rows behind Volatility,
    BB_Upper and BB_Lower, and the one of the whole Series in the summary
    statistics, computed on the enriched frame. *)
Theorem C1_std_dev_is_sample (h : store) (df : loc) (f : frame) (rates : list Q) :
  h !! df = Some f ->
  frame_aligned f ->
  f !! "EXCHANGE_RATE" = Some (NumCol (Fin <$> rates)) ->
  (2 <= length rates)%nat ->
  exists df' h' out up lo vol s h'',
    calculate_technical_indicators df "EXCHANGE_RATE" h = inr (df', h') /\
    h' !! df' = Some out /\
    out !! "BB_Upper" = Some (NumCol up) /\
    out !! "BB_Lower" = Some (NumCol lo) /\
    out !! "Volatility" = Some (NumCol vol) /\
    (forall i, (19 <= i)%nat -> (i < length rates)%nat ->
       let w := qwindow 20 i rates in
       vol !! i = Some (Fin (sample_std_dev w)) /\
       up !! i = Some (Fin (qmean w + sample_std_dev w * 2)) /\
       lo !! i = Some (Fin (qmean w - sample_std_dev w * 2))) /\
    get_ai_analysis_summary df' h' = inr (s, h'') /\
    volatility s = Fin (sample_std_dev rates).
Proof.
  intros Hdf Hal Hp Hlen.
  destruct (calculate_technical_indicators_output h df f _ Hdf Hp)
    as (df' & h' & E & Ho & _).
  assert (Hp' : enriched f (Fin <$> rates) !! "EXCHANGE_RATE"
                = Some (NumCol (Fin <$> rates))).
  { rewrite enriched_other; [done | apply price_not_derived]. }
  destruct (lookup_lt_is_Some_2 rates (length rates - 1)) as [b Hb]; [lia|].
  destruct (lookup_lt_is_Some_2 (drop (length rates - 10) rates) 0) as [a Ha].
  { rewrite length_drop. lia. }
  rewrite <- head_lookup in Ha.
  destruct (get_ai_analysis_summary_run h' df' (enriched f (Fin <$> rates))
              (Fin <$> rates) (Fin b) (Fin a) Ho)
    as (s & h'' & Es & _ & Ev & _).
  { by apply enriched_aligned. }
  { done. }
  { rewrite fmap_last, last_lookup.
    replace (Nat.pred (length rates)) with (length rates - 1)%nat by lia.
    by rewrite Hb. }
  { unfold tail. rewrite length_fmap, <- fmap_drop.
    destruct (drop (length rates - 10) rates); simpl in Ha |- *; congruence. }
  exists df', h', (enriched f (Fin <$> rates)),
    (sadd (rolling 20 mean (Fin <$> rates)) (times2 (rolling 20 std (Fin <$> rates)))),
    (ssub (rolling 20 mean (Fin <$> rates)) (times2 (rolling 20 std (Fin <$> rates)))),
    (rolling 20 std (Fin <$> rates)), s, h''.
  split; [done|]. split; [done|].
  split; [apply enriched_lookup; in_columns|].
  split; [apply enriched_lookup; in_columns|].
  split; [apply enriched_lookup; in_columns|].
  split.
  - intros i H19 Hi w.
    destruct (bollinger_fin rates i H19 Hi) as (_ & Es' & Eu & El). done.
  - split; [done|]. rewrite Ev. unfold observations.
    rewrite observations_fin. by apply std_fin.
Qed.

Lemma C1_witness :
  exists df' h' out vol s h'',
    calculate_technical_indicators 1 "EXCHANGE_RATE" alt_store = inr (df', h') /\
    h' !! df' = Some out /\
    out !! "Volatility" = Some (NumCol vol) /\
    vol !! 19%nat = Some (Fin (sample_std_dev alt_rates)) /\
    get_ai_analysis_summary df' h' = inr (s, h'') /\
    volatility s = Fin (sample_std_dev alt_rates).
Proof.
  destruct (C1_std_dev_is_sample alt_store 1 alt_frame alt_rates eq_refl
              (singleton_frame_aligned _ _) eq_refl ltac:(simpl; lia))
    as (df' & h' & out & up & lo & vol & s & h'' & E & Ho & _ & _ & Hv & Hall & Es & Ev).
  exists df', h', out, vol, s, h''.
  repeat split; try assumption.
  apply (Hall 19%nat); simpl; lia.
Defined.

(** C1 as stated fails on twenty rates that alternate between 1 and 3:
    the population standard deviation of the window is 1, Volatility at
    row 19 is the square root of 20/19. *)
Lemma C1_counterexample : ~ std_dev_is_population alt_store 1 alt_rates.
Proof.
  intros (df' & h' & out & up & lo & vol & s & h'' & E & Ho & _ & _ & Hv & Hall & _).
  destruct (calculate_technical_indicators_output alt_store 1 alt_frame
              (Fin <$> alt_rates) eq_refl eq_refl)
    as (df2 & h2 & E2 & Ho2 & _).
  rewrite E2 in E. injection E as <- <-. rewrite Ho2 in Ho. injection Ho as <-.
  rewrite enriched_volatility in Hv. injection Hv as <-.
  destruct (Hall 19%nat) as (v & u & l & Hvol & Hfeq & _); [lia | simpl; lia |].
  vm_compute in Hvol. injection Hvol as <-.
  vm_compute in Hfeq. discriminate Hfeq.
Qed.

(** ** A missing price column *)

(** X1: when the frame has no column of the name given as [price_col], the
    computation raises KeyError of that name at the first read. *)
Theorem X1_missing_price_column (h : store) (df : loc) (f : frame) price_col :
  h !! df = Some f ->
  f !! price_col = None ->
  calculate_technical_indicators df price_col h = inl (KeyError price_col).
Proof.
  intros Hdf Hp. unfold calculate_technical_indicators.
  erewrite (bind_inr (copy df)) by (unfold copy; rewrite Hdf; reflexivity).
  unfold mbind, M_bind, bind, getcol.
  by rewrite lookup_insert_eq, Hp.
Qed.

Lemma X1_witness :
  calculate_technical_indicators 1 "CLOSE" sample_store = inl (KeyError "CLOSE").
Proof.
  exact (X1_missing_price_column sample_store 1 sample_frame "CLOSE"
           eq_refl eq_refl).
Defined.

(** ** The computation applied to its own output *)

Lemma enriched_price (f : frame) (p : series) :
  f !! "EXCHANGE_RATE" = Some (NumCol p) ->
  enriched f p !! "EXCHANGE_RATE" = Some (NumCol p).
Proof. intros Hp. rewrite enriched_other; [done | apply price_not_derived]. Qed.

Lemma enriched_idempotent (f : frame) (p : series) :
  enriched (enriched f p) p = enriched f p.
Proof.
  apply map_eq. intros c. destruct (decide (c ∈ derived_fields)) as [Hc | Hc].
  - destruct (derived_field_column p c Hc) as [s Hs].
    by rewrite !(enriched_lookup _ p c s Hs).
  - by rewrite !enriched_other.
Qed.

(** X2: the computation applied to the frame it returned returns a frame
    with the same content: the price column is kept and every derived
    column is a function of it. *)
Theorem X2_idempotent_on_output (h : store) (df : loc) (f : frame) (p : series) :
  h !! df = Some f ->
  f !! "EXCHANGE_RATE" = Some (NumCol p) ->
  exists df1 h1 df2 h2 out,
    calculate_technical_indicators df "EXCHANGE_RATE" h = inr (df1, h1) /\
    calculate_technical_indicators df1 "EXCHANGE_RATE" h1 = inr (df2, h2) /\
    h1 !! df1 = Some out /\ h2 !! df2 = Some out /\ h2 !! df1 = Some out /\
    df2 ≠ df1.
Proof.
  intros Hdf Hp.
  destruct (calculate_technical_indicators_output h df f p Hdf Hp)
    as (df1 & h1 & E1 & Ho1 & _ & _).
  destruct (calculate_technical_indicators_output h1 df1 (enriched f p) p Ho1
              (enriched_price f p Hp))
    as (df2 & h2 & E2 & Ho2 & Hk2 & Hn2).
  exists df1, h1, df2, h2, (enriched f p).
  rewrite enriched_idempotent in Ho2. done.
Qed.

Lemma X2_witness :
  exists df1 h1 df2 h2 out,
    calculate_technical_indicators 1 "EXCHANGE_RATE" sample_store = inr (df1, h1) /\
    calculate_technical_indicators df1 "EXCHANGE_RATE" h1 = inr (df2, h2) /\
    h1 !! df1 = Some out /\ h2 !! df2 = Some out /\ h2 !! df1 = Some out /\
    df2 ≠ df1.
Proof.
  exact (X2_idempotent_on_output sample_store 1 sample_frame
           (Fin <$> sample_rates) eq_refl eq_refl).
Defined.

(** ** Warm-up of the chained indicators *)

Lemma filter_length_lt {A} (P : A -> Prop) `{!forall x, Decision (P x)}
    (l : list A) (x : A) :
  x ∈ l -> ~ P x -> (length (filter P l) < length l)%nat.
Proof.
  intros Hin Hx. induction l as [|y l IH]; [by apply elem_of_nil in Hin|].
  apply elem_of_cons in Hin as [-> | Hin].
  - rewrite filter_cons_False by done. simpl.
    pose proof (length_filter P l). lia.
  - specialize (IH Hin). destruct (decide (P y)).
    + rewrite filter_cons_True by done. simpl. lia.
    + rewrite filter_cons_False by done. simpl. lia.
Qed.

Lemma window_lookup k i (s : series) j :
  (S i - k <= j)%nat -> (j <= i)%nat ->
  window k i s !! (j - (S i - k))%nat = s !! j.
Proof.
  intros Hlo Hhi. unfold window.
  rewrite lookup_take_lt by lia. rewrite lookup_drop. f_equal. lia.
Qed.

(** A NaN inside the window makes the rolling aggregate NaN. *)
Lemma rolling_nan_in_window k agg (s : series) i j :
  (i < length s)%nat -> (S i - k <= j)%nat -> (j <= i)%nat ->
  s !! j = Some NaN ->
  rolling k agg s !! i = Some NaN.
Proof.
  intros Hi Hlo Hhi Hj. rewrite rolling_lookup by done. simpl.
  assert (Hin : NaN ∈ window k i s).
  { apply list_elem_of_lookup. exists (j - (S i - k))%nat.
    by rewrite window_lookup. }
  pose proof (filter_length_lt (fun x => notna x = true) (window k i s) NaN Hin)
    as Hlt.
  pose proof (length_window_le k i s) as Hw.
  assert (Hk : (length (window k i s) <= k)%nat).
  { unfold window. rewrite length_take. lia. }
  destruct (Nat.ltb_spec
              (length (filter (fun x => notna x = true) (window k i s))) k) as [|Hge];
    [done|].
  exfalso. assert (length (filter (λ x : fl, notna x = true) (window k i s))
                   < length (window k i s))%nat by (apply Hlt; discriminate).
  lia.
Qed.

(** Rolling [k] rows over a Series that starts with [n] NaN rows gives a
    Series that starts with [n + k - 1] NaN rows. *)
Lemma head_nan_rolling_chain k n agg (s : series) :
  (1 <= k)%nat -> head_nan n s -> head_nan (n + k - 1) (rolling k agg s).
Proof.
  intros Hk Hs i Hi Hlen. rewrite length_rolling in Hlen.
  destruct (Nat.lt_ge_cases (S i) k) as [Hshort | Hfull].
  - by apply rolling_short.
  - apply (rolling_nan_in_window k agg s i (S i - k)); try lia.
    apply Hs; lia.
Qed.

Lemma head_nan_diff (s : series) : head_nan 1 (diff s).
Proof.
  unfold diff. apply head_nan_zip_with_r; [|apply head_nan_shift].
  intros x. apply fsub_nan_r.
Qed.

Lemma head_nan_weaken n m (s : series) :
  (m <= n)%nat -> head_nan n s -> head_nan m s.
Proof. intros Hle Hs i Hi Hlen. apply Hs; [lia | done]. Qed.

Lemma atr_head_nan (p : series) : head_nan 14 (atr p).
Proof.
  unfold atr. apply (head_nan_rolling_chain 14 1); [lia|].
  unfold tr, smap. apply head_nan_map; [done | apply head_nan_diff].
Qed.

Lemma di_plus_head_nan (p : series) : head_nan 14 (di_plus p).
Proof.
  unfold di_plus, times100, smap, sdiv.
  apply head_nan_map; [done|].
  apply head_nan_zip_with_r; [intros []; reflexivity | apply atr_head_nan].
Qed.

Lemma di_minus_head_nan (p : series) : head_nan 14 (di_minus p).
Proof.
  unfold di_minus, times100, smap, sdiv.
  apply head_nan_map; [done|].
  apply head_nan_zip_with_r; [intros []; reflexivity | apply atr_head_nan].
Qed.

Lemma dx_head_nan (p : series) : head_nan 14 (dx p).
Proof.
  unfold dx, sdiv, sadd.
  apply head_nan_zip_with_r; [intros []; reflexivity|].
  apply head_nan_zip_with_l; [intros []; reflexivity | apply di_plus_head_nan].
Qed.

Lemma stoch_k_head_nan (p : series) : head_nan 13 (stoch_k p).
Proof.
  change 13%nat with (14 - 1)%nat.
  unfold stoch_k, times100, smap, sdiv, ssub. head_nan_tac.
Qed.

Lemma chained_fields_head_nan (f : frame) (p : series) c n :
  (c, n) ∈ chained_fields ->
  exists s, enriched f p !! c = Some (NumCol s) /\ length s = length p /\
            head_nan n s.
Proof.
  intros Hin. apply list_elem_of_In in Hin. simpl in Hin.
  destruct Hin as [Hin | [Hin | [Hin | [Hin | [Hin | [Hin | []]]]]]];
    injection Hin as <- <-; eexists;
    (split; [apply enriched_lookup; in_columns|]);
    (split; [eapply indicator_columns_length; in_columns|]).
  - apply atr_head_nan.
  - apply di_plus_head_nan.
  - apply di_minus_head_nan.
  - apply dx_head_nan.
  - apply (head_nan_rolling_chain 3 13); [lia | apply stoch_k_head_nan].
  - apply (head_nan_rolling_chain 14 14); [lia | apply dx_head_nan].
Qed.

(** X3: the indicators that roll a window over another indicator start
    later than their own window: ATR, DI_Plus, DI_Minus and DX are NaN on
    the first 14 rows (the first delta is missing), Stoch_D on the first 15
    and ADX on the first 27, whatever the prices. *)
Theorem X3_chained_warm_up (h : store) (df : loc) (f : frame) (p : series) :
  h !! df = Some f ->
  f !! "EXCHANGE_RATE" = Some (NumCol p) ->
  exists df' h' out,
    calculate_technical_indicators df "EXCHANGE_RATE" h = inr (df', h') /\
    h' !! df' = Some out /\
    forall c n, (c, n) ∈ chained_fields ->
      exists s, out !! c = Some (NumCol s) /\ length s = length p /\
                head_nan n s.
Proof.
  intros Hdf Hp.
  destruct (calculate_technical_indicators_output h df f p Hdf Hp)
    as (df' & h' & E & Ho & _).
  exists df', h', (enriched f p). split; [done|]. split; [done|].
  intros c n. apply chained_fields_head_nan.
Qed.

Lemma X3_witness :
  exists df' h' out,
    calculate_technical_indicators 1 "EXCHANGE_RATE" rising_store = inr (df', h') /\
    h' !! df' = Some out /\
    forall c n, (c, n) ∈ chained_fields ->
      exists s, out !! c = Some (NumCol s) /\ length s = 15%nat /\
                head_nan n s.
Proof.
  exact (X3_chained_warm_up rising_store 1 rising_frame
           (Fin <$> rising_rates) eq_refl eq_refl).
Defined.

(** ** Minimum and maximum of finite values *)

Lemma foldl_fmin2_fin a (r : list Q) :
  foldl fmin2 (Fin a) (Fin <$> r) = Fin (foldl qmin2 a r).
Proof.
  revert a. induction r as [|y r IH]; intros a; [done|].
  rewrite fmap_cons. cbn [foldl]. rewrite <- IH. f_equal.
  unfold fmin2, flt, qmin2. simpl. by destruct (Qltb y a).
Qed.

Lemma foldl_fmax2_fin a (r : list Q) :
  foldl fmax2 (Fin a) (Fin <$> r) = Fin (foldl qmax2 a r).
Proof.
  revert a. induction r as [|y r IH]; intros a; [done|].
  rewrite fmap_cons. cbn [foldl]. rewrite <- IH. f_equal.
  unfold fmax2, qmax2. simpl. by destruct (Qltb a y).
Qed.

Lemma min_fin (ws : list Q) :
  ws ≠ [] -> Series.min (Fin <$> ws) = Fin (qminl ws).
Proof.
  destruct ws as [|x r]; [done|]. intros _. rewrite fmap_cons.
  apply foldl_fmin2_fin.
Qed.

Lemma max_fin (ws : list Q) :
  ws ≠ [] -> Series.max (Fin <$> ws) = Fin (qmaxl ws).
Proof.
  destruct ws as [|x r]; [done|]. intros _. rewrite fmap_cons.
  apply foldl_fmax2_fin.
Qed.

Lemma qmin2_le a b : qmin2 a b <= a /\ qmin2 a b <= b.
Proof.
  unfold qmin2. destruct (Qltb b a) eqn:E.
  - apply Qltb_lt in E. lra.
  - assert (~ b < a) by (rewrite <- Qltb_lt; congruence). lra.
Qed.

Lemma qmax2_ge a b : a <= qmax2 a b /\ b <= qmax2 a b.
Proof.
  unfold qmax2. destruct (Qltb a b) eqn:E.
  - apply Qltb_lt in E. lra.
  - assert (~ a < b) by (rewrite <- Qltb_lt; congruence). lra.
Qed.

Lemma foldl_qmin2_le a (r : list Q) :
  foldl qmin2 a r <= a /\ Forall (fun y => foldl qmin2 a r <= y) r.
Proof.
  revert a. induction r as [|y r IH]; intros a; simpl.
  - split; [lra | constructor].
  - destruct (IH (qmin2 a y)) as [H1 H2]. pose proof (qmin2_le a y) as [Ha Hy].
    split; [lra|]. constructor; [lra | done].
Qed.

Lemma foldl_qmax2_ge a (r : list Q) :
  a <= foldl qmax2 a r /\ Forall (fun y => y <= foldl qmax2 a r) r.
Proof.
  revert a. induction r as [|y r IH]; intros a; simpl.
  - split; [lra | constructor].
  - destruct (IH (qmax2 a y)) as [H1 H2]. pose proof (qmax2_ge a y) as [Ha Hy].
    split; [lra|]. constructor; [lra | done].
Qed.

Lemma qminl_le (ws : list Q) x : x ∈ ws -> qminl ws <= x.
Proof.
  destruct ws as [|w r]; [by intros ?%elem_of_nil|].
  intros Hin. destruct (foldl_qmin2_le w r) as [H1 H2].
  apply elem_of_cons in Hin as [-> | Hin]; [done|].
  rewrite Forall_forall in H2. by apply H2.
Qed.

Lemma qmaxl_ge (ws : list Q) x : x ∈ ws -> x <= qmaxl ws.
Proof.
  destruct ws as [|w r]; [by intros ?%elem_of_nil|].
  intros Hin. destruct (foldl_qmax2_ge w r) as [H1 H2].
  apply elem_of_cons in Hin as [-> | Hin]; [done|].
  rewrite Forall_forall in H2. by apply H2.
Qed.

Lemma qwindow_lookup k i (xs : list Q) j :
  (S i - k <= j)%nat -> (j <= i)%nat ->
  qwindow k i xs !! (j - (S i - k))%nat = xs !! j.
Proof.
  intros Hlo Hhi. unfold qwindow.
  rewrite lookup_take_lt by lia. rewrite lookup_drop. f_equal. lia.
Qed.

Lemma qwindow_current k i (xs : list Q) x :
  (1 <= k)%nat -> xs !! i = Some x -> x ∈ qwindow k i xs.
Proof.
  intros Hk Hx. apply list_elem_of_lookup. exists (i - (S i - k))%nat.
  rewrite qwindow_lookup by lia. done.
Qed.

(** ** The stochastic oscillator on finite rates *)

Lemma stoch_value lo x hi :
  lo <= x -> x <= hi ->
  let v := fmul (Fin 100) (fdiv (fsub (Fin x) (Fin lo)) (fsub (Fin hi) (Fin lo))) in
  v = NaN \/ exists q, v = Fin q /\ 0 <= q <= 100.
Proof.
  intros Hlo Hhi. simpl. destruct (Qeq_bool (hi + - lo) 0) eqn:E.
  - left. apply Qeq_bool_eq in E. unfold inf_signed.
    assert (Qeq_bool (x + - lo) 0 = true) as ->; [|done].
    apply Qeq_eq_bool. lra.
  - right. apply Qeq_bool_neq in E. eexists. split; [reflexivity|].
    assert (Hd : 0 < hi + - lo) by lra.
    assert (H0 : 0 <= (x + - lo) / (hi + - lo)) by (apply Qle_shift_div_l; lra).
    assert (H1 : (x + - lo) / (hi + - lo) <= 1) by (apply Qle_shift_div_r; lra).
    lra.
Qed.

Lemma stoch_k_lookup (p : series) i :
  stoch_k p !! i
  = (x ← p !! i;
     lo ← rolling 14 Series.min p !! i;
     hi ← rolling 14 Series.max p !! i;
     Some (fmul (Fin 100) (fdiv (fsub x lo) (fsub hi lo)))).
Proof.
  unfold stoch_k, times100, smap, sdiv, ssub.
  rewrite list_lookup_fmap, !lookup_zip_with.
  destruct (p !! i); simpl; [|done].
  destruct (rolling 14 Series.min p !! i); simpl; [|done].
  by destruct (rolling 14 Series.max p !! i).
Qed.

Lemma length_stoch_k (p : series) : length (stoch_k p) = length p.
Proof. eapply (indicator_columns_length p "Stoch_K"). in_columns. Qed.

Lemma stoch_k_bounds (rates : list Q) i v :
  stoch_k (Fin <$> rates) !! i = Some v -> v ≠ NaN ->
  exists q, v = Fin q /\ 0 <= q <= 100.
Proof.
  intros Hv Hn.
  assert (Hi : (i < length rates)%nat).
  { apply lookup_lt_Some in Hv. by rewrite length_stoch_k, length_fmap in Hv. }
  destruct (Nat.lt_ge_cases i 13) as [Hlt | Hge].
  - rewrite (stoch_k_head_nan (Fin <$> rates) i) in Hv; [congruence | lia |].
    by rewrite length_stoch_k, length_fmap.
  - destruct (lookup_lt_is_Some_2 rates i Hi) as [x Hx].
    rewrite stoch_k_lookup, list_lookup_fmap, Hx in Hv. simpl in Hv.
    rewrite !rolling_fin in Hv by lia. simpl in Hv.
    assert (Hne : qwindow 14 i rates ≠ []) by (apply qwindow_nonempty; lia).
    rewrite min_fin, max_fin in Hv by done. injection Hv as <-.
    assert (Hin : x ∈ qwindow 14 i rates) by (apply qwindow_current; [lia | done]).
    destruct (stoch_value (qminl (qwindow 14 i rates)) x (qmaxl (qwindow 14 i rates)))
      as [E | (q & E & Hq)].
    + by apply qminl_le.
    + by apply qmaxl_ge.
    + by destruct Hn.
    + by exists q.
Qed.

(** X4: on finite rates, every row of Stoch_K that is not NaN is a finite
    number between 0 and 100: the rate of the row lies between the minimum
    and the maximum of its own last 14 rows. *)
Theorem X4_stoch_k_in_0_100 (h : store) (df : loc) (f : frame) (rates : list Q) :
  h !! df = Some f ->
  f !! "EXCHANGE_RATE" = Some (NumCol (Fin <$> rates)) ->
  exists df' h' out col,
    calculate_technical_indicators df "EXCHANGE_RATE" h = inr (df', h') /\
    h' !! df' = Some out /\
    out !! "Stoch_K" = Some (NumCol col) /\
    forall i v, col !! i = Some v -> v ≠ NaN ->
      exists q, v = Fin q /\ 0 <= q <= 100.
Proof.
  intros Hdf Hp.
  destruct (calculate_technical_indicators_output h df f _ Hdf Hp)
    as (df' & h' & E & Ho & _).
  exists df', h', (enriched f (Fin <$> rates)), (stoch_k (Fin <$> rates)).
  split; [done|]. split; [done|].
  split; [apply enriched_lookup; in_columns|].
  apply stoch_k_bounds.
Qed.

Lemma X4_witness :
  exists df' h' out col,
    calculate_technical_indicators 1 "EXCHANGE_RATE" rising_store = inr (df', h') /\
    h' !! df' = Some out /\
    out !! "Stoch_K" = Some (NumCol col) /\
    forall i v, col !! i = Some v -> v ≠ NaN ->
      exists q, v = Fin q /\ 0 <= q <= 100.
Proof.
  exact (X4_stoch_k_in_0_100 rising_store 1 rising_frame rising_rates
           eq_refl eq_refl).
Defined.

(** ** The directional indicators on finite rates *)



Lemma length_qdeltas x (xs : list Q) : length (qdeltas x xs) = length xs.
Proof. revert x. induction xs as [|y xs IH]; intros x; simpl; [done|]. by rewrite IH. Qed.




Lemma foldl_Qplus_acc a (ws : list Q) : foldl Qplus a ws == a + qsum ws.
Proof.
  unfold qsum. revert a. induction ws as [|w ws IH]; intros a; simpl; [ring|].
  rewrite (IH (a + w)), (IH (0 + w)). ring.
Qed.

Lemma qsum_cons w (ws : list Q) : qsum (w :: ws) == w + qsum ws.
Proof. unfold qsum at 1. simpl. rewrite foldl_Qplus_acc. ring. Qed.














(** ** Bounds of the mean *)

Lemma inject_nat_succ n :
  inject_Z (Z.of_nat (S n)) == inject_Z (Z.of_nat n) + 1.
Proof. rewrite Nat2Z.inj_succ. unfold Z.succ. by rewrite inject_Z_plus. Qed.

Lemma qsum_le_bound hi (ws : list Q) :
  Forall (fun w => w <= hi) ws ->
  qsum ws <= inject_Z (Z.of_nat (length ws)) * hi.
Proof.
  induction ws as [|w ws IH]; intros H.
  - unfold qsum. cbn [foldl length]. change (inject_Z (Z.of_nat 0)) with 0. lra.
  - apply Forall_cons in H as [Hw H]. specialize (IH H).
    rewrite qsum_cons. cbn [length]. rewrite inject_nat_succ. lra.
Qed.

Lemma qsum_ge_bound lo (ws : list Q) :
  Forall (fun w => lo <= w) ws ->
  inject_Z (Z.of_nat (length ws)) * lo <= qsum ws.
Proof.
  induction ws as [|w ws IH]; intros H.
  - unfold qsum. cbn [foldl length]. change (inject_Z (Z.of_nat 0)) with 0. lra.
  - apply Forall_cons in H as [Hw H]. specialize (IH H).
    rewrite qsum_cons. cbn [length]. rewrite inject_nat_succ. lra.
Qed.

Lemma qmean_le hi (ws : list Q) :
  ws ≠ [] -> Forall (fun w => w <= hi) ws -> qmean ws <= hi.
Proof.
  intros Hne H. unfold qmean. apply Qle_shift_div_r.
  - apply inject_nat_pos. destruct ws; [done | simpl; lia].
  - pose proof (qsum_le_bound hi ws H). lra.
Qed.

Lemma qmean_ge lo (ws : list Q) :
  ws ≠ [] -> Forall (fun w => lo <= w) ws -> lo <= qmean ws.
Proof.
  intros Hne H. unfold qmean. apply Qle_shift_div_l.
  - apply inject_nat_pos. destruct ws; [done | simpl; lia].
  - pose proof (qsum_ge_bound lo ws H). lra.
Qed.

(** ** ADX on finite rates *)






(** ** A constant price *)

Lemma qmean_const c (ws : list Q) :
  ws ≠ [] -> Forall (fun w => w == c) ws -> qmean ws == c.
Proof.
  intros Hne H. apply Qle_antisym.
  - apply qmean_le; [done|]. eapply Forall_impl; [exact H|].
    intros w Hw. simpl in Hw. lra.
  - apply qmean_ge; [done|]. eapply Forall_impl; [exact H|].
    intros w Hw. simpl in Hw. lra.
Qed.

Lemma Qsqrt_zero q : q == 0 -> Qsqrt q == 0.
Proof.
  intros Hq. unfold Qsqrt. rewrite (Qred_complete q 0 Hq). reflexivity.
Qed.

Lemma sum_sq_dev_const c (ws : list Q) :
  ws ≠ [] -> Forall (fun w => w == c) ws -> sum_sq_dev ws == 0.
Proof.
  intros Hne H. unfold sum_sq_dev. apply qsum_zero, Forall_fmap.
  pose proof (qmean_const c ws Hne H) as Hm.
  eapply Forall_impl; [exact H|]. intros w Hw. simpl in Hw |- *.
  rewrite Hw, Hm. ring.
Qed.

Lemma sample_std_dev_const c (ws : list Q) :
  ws ≠ [] -> Forall (fun w => w == c) ws -> sample_std_dev ws == 0.
Proof.
  intros Hne H. unfold sample_std_dev. apply Qsqrt_zero.
  unfold Qdiv. rewrite (sum_sq_dev_const c ws Hne H). ring.
Qed.

Lemma Forall_replicate_const (n : nat) (c : Q) :
  Forall (fun w => w == c) (replicate n c).
Proof. induction n; simpl; constructor; [reflexivity | done]. Qed.

Lemma qdeltas_const (n : nat) (c : Q) :
  Forall (fun d => d == 0) (qdeltas c (replicate n c)).
Proof. induction n; simpl; constructor; [ring | done]. Qed.

Lemma qpos_zero d : d == 0 -> qpos d == 0.
Proof.
  intros Hd. unfold qpos. destruct (Qltb 0 d) eqn:E; [|reflexivity].
  apply Qltb_lt in E. lra.
Qed.

Lemma qneg_zero d : d == 0 -> qneg d == 0.
Proof.
  intros Hd. unfold qneg. destruct (Qltb d 0) eqn:E; [|ring].
  apply Qltb_lt in E. lra.
Qed.

Lemma rsi_of_flat g l :
  g == 0 -> l == 0 -> rsi_of_rs (fdiv (Fin g) (Fin l)) = NaN.
Proof.
  intros Hg Hl. unfold fdiv, inf_signed.
  by rewrite (Qeq_eq_bool _ _ Hl), (Qeq_eq_bool _ _ Hg).
Qed.

Lemma rsi_const (n : nat) (c : Q) :
  Forall (fun v => v = NaN) (rsi (Fin <$> replicate n c)).
Proof.
  apply Forall_lookup. intros i v Hv.
  assert (Hi : (i < n)%nat).
  { apply lookup_lt_Some in Hv.
    by rewrite length_rsi, length_fmap, length_replicate in Hv. }
  destruct (Nat.lt_ge_cases i 13) as [Hlt | Hge].
  - rewrite (rsi_head_nan (Fin <$> replicate n c) i) in Hv; [congruence | lia |].
    by rewrite length_rsi, length_fmap, length_replicate.
  - destruct n as [|m]; [lia|]. cbn [replicate] in Hv.
    rewrite rsi_fin_cons in Hv by (rewrite ?length_replicate; lia).
    injection Hv as <-. apply rsi_of_flat.
    + apply qmean_zero, Forall_qwindow. constructor; [reflexivity|].
      apply Forall_fmap. eapply Forall_impl; [apply qdeltas_const|].
      intros d Hd. by apply qpos_zero.
    + apply qmean_zero, Forall_qwindow. constructor; [ring|].
      apply Forall_fmap. eapply Forall_impl; [apply qdeltas_const|].
      intros d Hd. by apply qneg_zero.
Qed.

Lemma foldl_qmin2_ge b a (r : list Q) :
  b <= a -> Forall (fun y => b <= y) r -> b <= foldl qmin2 a r.
Proof.
  revert a. induction r as [|y r IH]; intros a Ha H; simpl; [done|].
  apply Forall_cons in H as [Hy H]. apply IH; [|done].
  unfold qmin2. by destruct (Qltb y a).
Qed.

Lemma foldl_qmax2_le b a (r : list Q) :
  a <= b -> Forall (fun y => y <= b) r -> foldl qmax2 a r <= b.
Proof.
  revert a. induction r as [|y r IH]; intros a Ha H; simpl; [done|].
  apply Forall_cons in H as [Hy H]. apply IH; [|done].
  unfold qmax2. by destruct (Qltb a y).
Qed.

Lemma qminl_ge b (ws : list Q) :
  ws ≠ [] -> Forall (fun y => b <= y) ws -> b <= qminl ws.
Proof.
  destruct ws as [|w r]; [done|]. intros _ H.
  apply Forall_cons in H as [Hw H]. by apply foldl_qmin2_ge.
Qed.

Lemma qmaxl_le b (ws : list Q) :
  ws ≠ [] -> Forall (fun y => y <= b) ws -> qmaxl ws <= b.
Proof.
  destruct ws as [|w r]; [done|]. intros _ H.
  apply Forall_cons in H as [Hw H]. by apply foldl_qmax2_le.
Qed.

Lemma stoch_k_const (n : nat) (c : Q) :
  Forall (fun v => v = NaN) (stoch_k (Fin <$> replicate n c)).
Proof.
  apply Forall_lookup. intros i v Hv.
  assert (Hi : (i < n)%nat).
  { apply lookup_lt_Some in Hv.
    by rewrite length_stoch_k, length_fmap, length_replicate in Hv. }
  destruct (Nat.lt_ge_cases i 13) as [Hlt | Hge].
  - rewrite (stoch_k_head_nan (Fin <$> replicate n c) i) in Hv;
      [congruence | lia |].
    by rewrite length_stoch_k, length_fmap, length_replicate.
  - rewrite stoch_k_lookup, list_lookup_fmap in Hv.
    rewrite lookup_replicate_2 in Hv by done. cbn [fmap option_fmap option_map] in Hv.
    rewrite !rolling_fin in Hv by (rewrite ?length_replicate; lia).
    set (w := qwindow 14 i (replicate n c)) in *.
    assert (Hne : w ≠ []).
    { apply qwindow_nonempty; rewrite ?length_replicate; lia. }
    assert (Hall : Forall (fun y => y == c) w).
    { apply Forall_qwindow, Forall_replicate_const. }
    rewrite min_fin, max_fin in Hv by done.
    assert (Hlo : qminl w == c).
    { apply Qle_antisym.
      - apply qminl_le. apply qwindow_current; [lia|].
        by apply lookup_replicate_2.
      - apply qminl_ge; [done|]. eapply Forall_impl; [exact Hall|].
        intros y Hy. simpl in Hy. lra. }
    assert (Hhi : qmaxl w == c).
    { apply Qle_antisym.
      - apply qmaxl_le; [done|]. eapply Forall_impl; [exact Hall|].
        intros y Hy. simpl in Hy. lra.
      - apply qmaxl_ge. apply qwindow_current; [lia|].
        by apply lookup_replicate_2. }
    assert (E : fmul (Fin 100) (fdiv (fsub (Fin c) (Fin (qminl w)))
                                     (fsub (Fin (qmaxl w)) (Fin (qminl w)))) = NaN).
    { simpl. unfold inf_signed.
      assert (Qeq_bool (qmaxl w + - qminl w) 0 = true) as ->
        by (apply Qeq_eq_bool; lra).
      assert (Qeq_bool (c + - qminl w) 0 = true) as ->
        by (apply Qeq_eq_bool; lra).
      done. }
    change (Some (fmul (Fin 100) (fdiv (fsub (Fin c) (Fin (qminl w)))
                                     (fsub (Fin (qmaxl w)) (Fin (qminl w)))))
            = Some v) in Hv.
    rewrite E in Hv. by injection Hv.
Qed.

Lemma ewm_from_const alpha (n : nat) (c : Q) :
  ewm_from alpha (Fin c, 1) (Fin <$> replicate n c) = Fin <$> replicate n c.
Proof.
  induction n as [|n IH]; [done|].
  cbn [replicate]. rewrite fmap_cons, ewm_from_cons.
  assert (E : ewm_step alpha (Fin c, 1) (Fin c) = (Fin c, 1)).
  { unfold ewm_step. simpl. by rewrite Qeq_bool_refl. }
  rewrite E. simpl. by rewrite IH.
Qed.

Lemma ewm_mean_const span (n : nat) (c : Q) :
  ewm_mean span (Fin <$> replicate n c) = Fin <$> replicate n c.
Proof.
  destruct n as [|n]; [done|]. cbn [replicate]. rewrite fmap_cons.
  unfold ewm_mean. by rewrite ewm_from_const.
Qed.

Lemma macd_const (n : nat) (c : Q) :
  macd (Fin <$> replicate n c) = Fin <$> replicate n (c - c) /\
  macd_signal (Fin <$> replicate n c) = Fin <$> replicate n (c - c).
Proof.
  assert (E : macd (Fin <$> replicate n c) = Fin <$> replicate n (c - c)).
  { unfold macd. rewrite !ewm_mean_const, ssub_fin. f_equal.
    induction n as [|n IH]; [done|]. simpl. by rewrite IH. }
  split; [done|]. unfold macd_signal. rewrite E. apply ewm_mean_const.
Qed.

Lemma level_fields_const (f : frame) (n : nat) (c : Q) name k :
  (name, k) ∈ level_fields ->
  exists col,
    enriched f (Fin <$> replicate n c) !! name = Some (NumCol col) /\
    forall i, (k - 1 <= i)%nat -> (i < n)%nat ->
      exists q, col !! i = Some (Fin q) /\ q == c.
Proof.
  intros Hin. apply list_elem_of_In in Hin. simpl in Hin.
  assert (Hmean : forall k i, (1 <= k)%nat -> (k - 1 <= i)%nat -> (i < n)%nat ->
            exists q, rolling k mean (Fin <$> replicate n c) !! i = Some (Fin q)
                      /\ q == c).
  { intros k' i Hk Hlo Hhi. eexists. split.
    - apply rolling_mean_fin; rewrite ?length_replicate; lia.
    - apply qmean_const.
      + apply qwindow_nonempty; rewrite ?length_replicate; lia.
      + apply Forall_qwindow, Forall_replicate_const. }
  assert (Hband : forall i, (19 <= i)%nat -> (i < n)%nat ->
            qmean (qwindow 20 i (replicate n c)) == c /\
            sample_std_dev (qwindow 20 i (replicate n c)) == 0).
  { intros i Hlo Hhi.
    assert (Hne : qwindow 20 i (replicate n c) ≠ []).
    { apply qwindow_nonempty; rewrite ?length_replicate; lia. }
    assert (Hall : Forall (fun y => y == c) (qwindow 20 i (replicate n c))).
    { apply Forall_qwindow, Forall_replicate_const. }
    split; [by apply qmean_const | by apply (sample_std_dev_const c)]. }
  destruct Hin as [Hin | [Hin | [Hin | [Hin | [Hin | [Hin | [Hin | []]]]]]]];
    injection Hin as <- <-; eexists;
    (split; [apply enriched_lookup; in_columns|]); intros i Hlo Hhi.
  1-5: apply Hmean; lia.
  - destruct (bollinger_fin (replicate n c) i) as (_ & _ & Eu & _);
      [lia | by rewrite length_replicate |].
    eexists. split; [exact Eu|]. destruct (Hband i) as [Hm Hs]; [lia | done |].
    rewrite Hm, Hs. ring.
  - destruct (bollinger_fin (replicate n c) i) as (_ & _ & _ & El);
      [lia | by rewrite length_replicate |].
    eexists. split; [exact El|]. destruct (Hband i) as [Hm Hs]; [lia | done |].
    rewrite Hm, Hs. ring.
Qed.

(** X7: on a constant price [c], every moving average and every Bollinger
    band equals [c] from the row where it is defined, Volatility is 0, MACD
    and MACD_Signal are 0 on every row, and RSI and Stoch_K are NaN on
    every row (0/0). *)
Theorem X7_constant_price (h : store) (df : loc) (f : frame) (n : nat) (c : Q) :
  h !! df = Some f ->
  f !! "EXCHANGE_RATE" = Some (NumCol (Fin <$> replicate n c)) ->
  exists df' h' out vol rsic stk,
    calculate_technical_indicators df "EXCHANGE_RATE" h = inr (df', h') /\
    h' !! df' = Some out /\
    (forall name k, (name, k) ∈ level_fields ->
       exists col, out !! name = Some (NumCol col) /\
         forall i, (k - 1 <= i)%nat -> (i < n)%nat ->
           exists q, col !! i = Some (Fin q) /\ q == c) /\
    out !! "Volatility" = Some (NumCol vol) /\
    (forall i, (19 <= i)%nat -> (i < n)%nat ->
       exists q, vol !! i = Some (Fin q) /\ q == 0) /\
    out !! "MACD" = Some (NumCol (Fin <$> replicate n (c - c))) /\
    out !! "MACD_Signal" = Some (NumCol (Fin <$> replicate n (c - c))) /\
    out !! "RSI" = Some (NumCol rsic) /\ Forall (fun v => v = NaN) rsic /\
    out !! "Stoch_K" = Some (NumCol stk) /\ Forall (fun v => v = NaN) stk.
Proof.
  intros Hdf Hp.
  destruct (calculate_technical_indicators_output h df f _ Hdf Hp)
    as (df' & h' & E & Ho & _).
  set (p := Fin <$> replicate n c) in *.
  exists df', h', (enriched f p), (rolling 20 std p), (rsi p), (stoch_k p).
  destruct (macd_const n c) as [Em Es]. fold p in Em, Es.
  split; [done|]. split; [done|].
  split; [intros name k; apply level_fields_const|].
  split; [apply enriched_lookup; in_columns|].
  split.
  { intros i Hlo Hhi.
    destruct (bollinger_fin (replicate n c) i) as (_ & Ev & _);
      [lia | by rewrite length_replicate |].
    eexists. split; [exact Ev|]. apply (sample_std_dev_const c).
    - apply qwindow_nonempty; rewrite ?length_replicate; lia.
    - apply Forall_qwindow, Forall_replicate_const. }
  split; [rewrite <- Em; apply enriched_lookup; in_columns|].
  split; [rewrite <- Es; apply enriched_lookup; in_columns|].
  split; [apply enriched_lookup; in_columns|].
  split; [apply rsi_const|].
  split; [apply enriched_lookup; in_columns | apply stoch_k_const].
Qed.

Lemma X7_witness :
  exists df' h' out,
    calculate_technical_indicators 1 "EXCHANGE_RATE" flat_store = inr (df', h') /\
    h' !! df' = Some out /\
    out !! "MACD" = Some (NumCol (Fin <$> replicate 30 (150 - 150))).
Proof.
  destruct (X7_constant_price flat_store 1 flat_frame 30 150 eq_refl eq_refl)
    as (df' & h' & out & vol & rsic & stk & E & Ho & _ & _ & _ & Hm & _).
  exists df', h', out. split; [exact E | split; [exact Ho | exact Hm]].
Defined.

(** ** The daily return *)





(** ** The moving averages *)

Lemma average_fields_mean (f : frame) (rates : list Q) name k :
  (name, k) ∈ average_fields ->
  (1 <= k)%nat /\
  enriched f (Fin <$> rates) !! name
  = Some (NumCol (rolling k mean (Fin <$> rates))).
Proof.
  intros Hin. apply list_elem_of_In in Hin. simpl in Hin.
  destruct Hin as [Hin | [Hin | [Hin | [Hin | [Hin | []]]]]];
    injection Hin as <- <-; (split; [lia|]); apply enriched_lookup; in_columns.
Qed.

(** X9: on finite rates, from row [k - 1] on a moving average of window [k]
    is the arithmetic mean of the rates of the last [k] rows, a number
    between the least and the greatest of them. *)
Theorem X9_moving_average (h : store) (df : loc) (f : frame) (rates : list Q) :
  h !! df = Some f ->
  f !! "EXCHANGE_RATE" = Some (NumCol (Fin <$> rates)) ->
  exists df' h' out,
    calculate_technical_indicators df "EXCHANGE_RATE" h = inr (df', h') /\
    h' !! df' = Some out /\
    forall name k, (name, k) ∈ average_fields ->
      exists col, out !! name = Some (NumCol col) /\
        forall i, (k - 1 <= i)%nat -> (i < length rates)%nat ->
          let w := qwindow k i rates in
          length w = k /\
          col !! i = Some (Fin (qsum w / inject_Z (Z.of_nat k))) /\
          qminl w <= qsum w / inject_Z (Z.of_nat k) /\
          qsum w / inject_Z (Z.of_nat k) <= qmaxl w.
Proof.
  intros Hdf Hp.
  destruct (calculate_technical_indicators_output h df f _ Hdf Hp)
    as (df' & h' & E & Ho & _).
  exists df', h', (enriched f (Fin <$> rates)).
  split; [done|]. split; [done|].
  intros name k Hin.
  destruct (average_fields_mean f rates name k Hin) as [Hk Hc].
  exists (rolling k mean (Fin <$> rates)). split; [done|].
  intros i Hlo Hhi w.
  assert (Hlen : length w = k) by (apply length_qwindow; lia).
  assert (Hne : w ≠ []) by (apply qwindow_nonempty; lia).
  assert (Em : qmean w = qsum w / inject_Z (Z.of_nat k)).
  { unfold qmean. by rewrite Hlen. }
  split; [done|]. rewrite <- Em.
  split; [apply rolling_mean_fin; lia|]. split.
  - apply qmean_ge; [done|]. apply Forall_forall. intros x Hx.
    by apply qminl_le.
  - apply qmean_le; [done|]. apply Forall_forall. intros x Hx.
    by apply qmaxl_ge.
Qed.

Lemma X9_witness :
  exists df' h' out col,
    calculate_technical_indicators 1 "EXCHANGE_RATE" sample_store = inr (df', h') /\
    h' !! df' = Some out /\
    out !! "MA_5" = Some (NumCol col) /\
    col !! 4%nat = Some (Fin (qsum sample_rates / inject_Z 5)).
Proof.
  destruct (X9_moving_average sample_store 1 sample_frame sample_rates
              eq_refl eq_refl)
    as (df' & h' & out & E & Ho & Hall).
  destruct (Hall "MA_5" 5%nat) as (col & Hc & Hrows).
  { apply list_elem_of_In. simpl. auto. }
  destruct (Hrows 4%nat) as (_ & Hv & _); [lia | simpl; lia |].
  exists df', h', out, col. repeat split; assumption.
Defined.

(** ** Falling rates *)

Lemma strictly_decreasing_deltas x (xs : list Q) :
  strictly_decreasing (x :: xs) -> Forall (fun d => d < 0) (qdeltas x xs).
Proof.
  revert x. induction xs as [|y xs IH]; intros x H; simpl; [constructor|].
  constructor.
  - pose proof (H 0%nat x y eq_refl eq_refl). lra.
  - apply IH. intros i a b Ha Hb. by apply (H (S i)).
Qed.

Lemma rsi_falling_last (rates : list Q) :
  (15 <= length rates)%nat -> strictly_decreasing rates ->
  exists q, last (rsi (Fin <$> rates)) = Some (Fin q) /\ q == 0.
Proof.
  intros Hlen Hdec. destruct rates as [|x xs]; [simpl in Hlen; lia|].
  simpl in Hlen. rewrite last_lookup, length_rsi, length_fmap.
  change (Nat.pred (length (x :: xs))) with (length xs).
  pose proof (strictly_decreasing_deltas x xs Hdec) as Hd.
  rewrite rsi_fin_cons by lia.
  set (g := qmean (qwindow 14 (length xs) (0 :: (qpos <$> qdeltas x xs)))).
  set (l := qmean (qwindow 14 (length xs) ((- 0) :: (qneg <$> qdeltas x xs)))).
  assert (Hg : g == 0).
  { apply qmean_zero. apply Forall_qwindow_tail; [lia|]. apply Forall_fmap.
    eapply Forall_impl; [exact Hd|]. intros d Hneg. simpl in Hneg |- *.
    unfold qpos. destruct (Qltb 0 d) eqn:E; [|reflexivity].
    apply Qltb_lt in E. lra. }
  assert (Hl : 0 < l).
  { apply qmean_pos.
    - apply qwindow_nonempty; [lia | lia |]. simpl.
      rewrite length_fmap, length_qdeltas. lia.
    - apply Forall_qwindow_tail; [lia|]. apply Forall_fmap.
      eapply Forall_impl; [exact Hd|]. intros d Hneg. simpl in Hneg |- *.
      unfold qneg. rewrite (proj2 (Qltb_lt d 0) Hneg). lra. }
  unfold fdiv.
  assert (Qeq_bool l 0 = false) as ->.
  { destruct (Qeq_bool l 0) eqn:E; [|done]. apply Qeq_bool_eq in E. lra. }
  assert (Hr : g / l == 0).
  { unfold Qdiv. rewrite Hg. ring. }
  unfold rsi_of_rs. cbn [fadd fdiv].
  assert (Qeq_bool (1 + g / l) 0 = false) as ->.
  { destruct (Qeq_bool (1 + g / l) 0) eqn:E; [|done].
    apply Qeq_bool_eq in E. lra. }
  eexists. split; [reflexivity|].
  assert (H1 : 100 / (1 + g / l) == 100).
  { rewrite Hr. reflexivity. }
  rewrite H1. ring.
Qed.

(** X10: on strictly decreasing finite rates of at least 15 rows, the RSI
    of the last row is 0: the mean gain is zero and the mean loss is
    positive. *)
Theorem X10_rsi_of_falling_rates
    (h : store) (df : loc) (f : frame) (rates : list Q) :
  h !! df = Some f ->
  f !! "EXCHANGE_RATE" = Some (NumCol (Fin <$> rates)) ->
  (15 <= length rates)%nat ->
  strictly_decreasing rates ->
  exists df' h' out col q,
    calculate_technical_indicators df "EXCHANGE_RATE" h = inr (df', h') /\
    h' !! df' = Some out /\
    out !! "RSI" = Some (NumCol col) /\
    last col = Some (Fin q) /\ q == 0.
Proof.
  intros Hdf Hp Hlen Hdec.
  destruct (calculate_technical_indicators_output h df f _ Hdf Hp)
    as (df' & h' & E & Ho & _).
  destruct (rsi_falling_last rates Hlen Hdec) as (q & Hq & Hz).
  exists df', h', (enriched f (Fin <$> rates)), (rsi (Fin <$> rates)), q.
  split; [done|]. split; [done|].
  split; [apply enriched_lookup; in_columns | done].
Qed.

Lemma falling_rates_decreasing : strictly_decreasing falling_rates.
Proof.
  intros i a b Ha Hb. unfold falling_rates in *.
  do 15 (destruct i as [|i];
         [ simpl in Ha, Hb;
           first [ discriminate Hb
                 | injection Ha as <-; injection Hb as <-; reflexivity ] |]).
  discriminate Ha.
Qed.

Lemma X10_witness :
  exists df' h' out col q,
    calculate_technical_indicators 1 "EXCHANGE_RATE" falling_store = inr (df', h') /\
    h' !! df' = Some out /\
    out !! "RSI" = Some (NumCol col) /\
    last col = Some (Fin q) /\ q == 0.
Proof.
  apply (X10_rsi_of_falling_rates falling_store 1 falling_frame falling_rates).
  - reflexivity.
  - reflexivity.
  - simpl. lia.
  - exact falling_rates_decreasing.
Defined.

(** ** The summary statistics at the edges *)

(** X11: the statistics block raises KeyError on a frame without the
    EXCHANGE_RATE column and IndexError on a frame whose EXCHANGE_RATE
    column has no rows (the first read is [iloc[-1]]). *)
Theorem X11_summary_errors (h : store) (df : loc) (f : frame) :
  h !! df = Some f ->
  (f !! "EXCHANGE_RATE" = None ->
   get_ai_analysis_summary df h = inl (KeyError "EXCHANGE_RATE")) /\
  (f !! "EXCHANGE_RATE" = Some (NumCol []) ->
   get_ai_analysis_summary df h = inl IndexError).
Proof.
  intros Hdf. split; intros Hc; unfold get_ai_analysis_summary.
  - unfold mbind at 1, M_bind at 1, bind at 1, getcol at 1. by rewrite Hdf, Hc.
  - erewrite bind_inr by by eapply getcol_run.
    reflexivity.
Qed.

Lemma X11_witness :
  get_ai_analysis_summary 1 empty_store = inl IndexError /\
  get_ai_analysis_summary 1 signals_store = inl (KeyError "EXCHANGE_RATE").
Proof.
  split.
  - exact (proj2 (X11_summary_errors empty_store 1 empty_frame eq_refl) eq_refl).
  - exact (proj1 (X11_summary_errors signals_store 1 signals_frame eq_refl) eq_refl).
Defined.

(** X12: the signal table raises IndexError on a frame without rows (the
    read of [df.iloc[-1]]). *)
Theorem X12_signal_table_no_rows (h : store) (df : loc) (f : frame) :
  h !! df = Some f ->
  (forall c col, f !! c = Some col -> col_len col = 0%nat) ->
  tech_data df h = inl IndexError.
Proof.
  intros Hdf Hrows. unfold tech_data, mbind, M_bind, bind, iloc_last.
  rewrite Hdf. simpl.
  assert (E : omap col_last f = ∅).
  { apply map_eq. intros c. rewrite lookup_omap, lookup_empty.
    destruct (f !! c) as [col|] eqn:Hc; [|done]. simpl.
    specialize (Hrows c col Hc). destruct col as [s|s]; simpl in *;
      destruct s; simpl in *; try done; lia. }
  by rewrite decide_True.
Qed.

Lemma X12_witness : tech_data 1 empty_store = inl IndexError.
Proof.
  apply (X12_signal_table_no_rows empty_store 1 empty_frame eq_refl).
  intros c col Hc. unfold empty_frame in Hc.
  apply lookup_singleton_Some in Hc as [_ <-]. reflexivity.
Defined.

(** The statistics on finite rates, field by field. *)
Lemma get_ai_analysis_summary_fin
    (h : store) df (f : frame) (rates : list Q) a b c :
  h !! df = Some f ->
  frame_aligned f ->
  f !! "EXCHANGE_RATE" = Some (NumCol (Fin <$> rates)) ->
  last rates = Some b ->
  rates !! (length rates - 2)%nat = Some a ->
  head (drop (length rates - 10) rates) = Some c ->
  exists h',
    get_ai_analysis_summary df h
    = inr ({| latest_rate := Fin b;
              prev_rate := Fin a;
              change := Fin (b - a);
              change_pct :=
                if Qeq_bool a 0 then Fin 0 else Fin ((b - a) / a * 100);
              min_rate := Fin (qminl rates);
              max_rate := Fin (qmaxl rates);
              avg_rate := Fin (qmean rates);
              volatility := std (Fin <$> rates);
              recent_trend := if Qltb c b then up else down |}, h') /\
    forall l, is_Some (h !! l) -> h' !! l = h !! l.
Proof.
  intros Hdf Hal Hp Hlast Hprev Hfirst.
  set (p := Fin <$> rates) in *.
  assert (Hne : rates ≠ []) by (intros ->; discriminate).
  assert (Hlen : (1 <= length rates)%nat).
  { destruct rates; [done | simpl; lia]. }
  assert (Hplen : length p = length rates) by apply length_fmap.
  assert (Hlastp : p !! (length p - 1)%nat = Some (Fin b)).
  { apply last_lookup_Some. unfold p. by rewrite fmap_last, Hlast. }
  set (l := fresh (dom h)). set (h' := <[l := col_tail 10 <$> f]> h).
  assert (Hprevrun :
    (if (1 <? frame_len f)%nat
     then r ← getcol df "EXCHANGE_RATE"; iloc_neg r 2
     else mret (Fin b)) h = inr (Fin a, h)).
  { rewrite (frame_len_aligned f _ _ Hal Hp). simpl. fold p. rewrite Hplen.
    destruct (Nat.ltb_spec 1 (length rates)) as [H2|H2].
    - erewrite bind_inr by by eapply getcol_run.
      apply iloc_neg_run; [fold p; lia|]. fold p. rewrite Hplen.
      unfold p. by rewrite list_lookup_fmap, Hprev.
    - assert (length rates = 1)%nat as E1 by lia.
      rewrite E1 in Hprev. simpl in Hprev.
      rewrite last_lookup, E1 in Hlast. simpl in Hlast.
      rewrite Hprev in Hlast. by injection Hlast as ->. }
  assert (Ht : h' !! l = Some (col_tail 10 <$> f)) by apply lookup_insert_eq.
  assert (Htc : (col_tail 10 <$> f) !! "EXCHANGE_RATE" = Some (NumCol (tail 10 p))).
  { by rewrite lookup_fmap, Hp. }
  assert (Htl : tail 10 p !! (length (tail 10 p) - 1)%nat = Some (Fin b)).
  { apply last_lookup_Some. unfold tail. rewrite last_drop_lt by lia.
    unfold p. by rewrite fmap_last, Hlast. }
  assert (Hth : tail 10 p !! 0%nat = Some (Fin c)).
  { rewrite <- head_lookup. unfold tail, p.
    rewrite length_fmap, <- fmap_drop.
    destruct (drop (length rates - 10) rates); simpl in Hfirst |- *; congruence. }
  assert (Htlen : (1 <= length (tail 10 p))%nat).
  { apply lookup_lt_Some in Hth. lia. }
  assert (Hobs : observations p = p) by apply observations_fin.
  exists h'. split.
  - unfold get_ai_analysis_summary.
    erewrite bind_inr by by eapply getcol_run.
    erewrite bind_inr by (apply iloc_neg_run; [lia | exact Hlastp]).
    erewrite bind_inr by (unfold len_df; rewrite Hdf; reflexivity).
    erewrite bind_inr by exact Hprevrun.
    do 4 erewrite bind_inr by by eapply getcol_run.
    erewrite (bind_inr (tail_df df 10)) by (unfold tail_df; rewrite Hdf; reflexivity).
    erewrite bind_inr by by eapply getcol_run.
    erewrite bind_inr by (apply iloc_neg_run; [lia | exact Htl]).
    erewrite bind_inr by by eapply getcol_run.
    erewrite bind_inr by (apply iloc_run; exact Hth).
    rewrite Hobs. unfold p. rewrite min_fin, max_fin, mean_fin by done.
    unfold mret, M_ret, ret. f_equal. f_equal. f_equal.
    unfold fne. simpl. by destruct (Qeq_bool a 0).
  - intros l0 Hl0. unfold h'. rewrite lookup_insert_ne; [done|].
    intros <-. apply elem_of_dom in Hl0. by apply is_fresh in Hl0.
Qed.

Lemma rates_first_of_tail (rates : list Q) :
  rates ≠ [] -> exists c, head (drop (length rates - 10) rates) = Some c.
Proof.
  intros Hne.
  destruct (lookup_lt_is_Some_2 (drop (length rates - 10) rates) 0) as [c Hc].
  { rewrite length_drop. destruct rates; [done | simpl; lia]. }
  exists c. by rewrite head_lookup.
Qed.

(** X13: on finite rates, with [b] the last rate and [a] the rate of the
    row before it (of the only row when there is one), the summary has
    change [b - a] and a finite percentage change: 0 when [a] is 0, which
    is never divided by, and [(b - a) / a * 100] otherwise. *)
Theorem X13_change_pct
    (h : store) (df : loc) (f : frame) (rates : list Q) (a b : Q) :
  h !! df = Some f ->
  frame_aligned f ->
  f !! "EXCHANGE_RATE" = Some (NumCol (Fin <$> rates)) ->
  last rates = Some b ->
  rates !! (length rates - 2)%nat = Some a ->
  exists s h' q,
    get_ai_analysis_summary df h = inr (s, h') /\
    latest_rate s = Fin b /\ prev_rate s = Fin a /\
    change s = Fin (b - a) /\
    change_pct s = Fin q /\
    (a == 0 -> q == 0) /\
    (~ a == 0 -> q == (b - a) / a * 100).
Proof.
  intros Hdf Hal Hp Hb Ha.
  assert (Hne : rates ≠ []) by (intros ->; discriminate).
  destruct (rates_first_of_tail rates Hne) as [c Hc].
  destruct (get_ai_analysis_summary_fin h df f rates a b c Hdf Hal Hp Hb Ha Hc)
    as (h' & E & _).
  eexists _, h', (if Qeq_bool a 0 then 0 else (b - a) / a * 100).
  split; [exact E|]. cbn [latest_rate prev_rate change change_pct].
  split; [done|]. split; [done|]. split; [done|].
  destruct (Qeq_bool a 0) eqn:E0.
  - apply Qeq_bool_eq in E0. split; [done|]. split; [reflexivity | tauto].
  - apply Qeq_bool_neq in E0. split; [done|]. split; [tauto | reflexivity].
Qed.

Lemma X13_witness :
  exists s h' q,
    get_ai_analysis_summary 1 zero_store = inr (s, h') /\
    latest_rate s = Fin 5 /\ prev_rate s = Fin 0 /\
    change s = Fin (5 - 0) /\
    change_pct s = Fin q /\
    (0 == 0 -> q == 0) /\
    (~ 0 == 0 -> q == (5 - 0) / 0 * 100).
Proof.
  exact (X13_change_pct zero_store 1 zero_frame zero_rates 0 5 eq_refl
           (singleton_frame_aligned _ _) eq_refl eq_refl eq_refl).
Defined.



(** X15: on a frame of one row with the finite rate [x], the previous rate
    is the latest rate, the change and the percentage change are 0, the
    volatility is NaN (a sample standard deviation of one value) and the
    trend is "down". *)
Theorem X15_summary_of_one_row (h : store) (df : loc) (f : frame) (x : Q) :
  h !! df = Some f ->
  frame_aligned f ->
  f !! "EXCHANGE_RATE" = Some (NumCol [Fin x]) ->
  exists s h' chg pct,
    get_ai_analysis_summary df h = inr (s, h') /\
    latest_rate s = Fin x /\ prev_rate s = Fin x /\
    change s = Fin chg /\ chg == 0 /\
    change_pct s = Fin pct /\ pct == 0 /\
    volatility s = NaN /\
    recent_trend s = down.
Proof.
  intros Hdf Hal Hp.
  destruct (get_ai_analysis_summary_fin h df f [x] x x x Hdf Hal Hp
              eq_refl eq_refl eq_refl) as (h' & E & _).
  eexists _, h', (x - x), (if Qeq_bool x 0 then 0 else (x - x) / x * 100).
  split; [exact E|].
  cbn [latest_rate prev_rate change change_pct volatility recent_trend].
  split; [done|]. split; [done|]. split; [done|]. split; [ring|].
  split; [by destruct (Qeq_bool x 0)|]. split.
  { destruct (Qeq_bool x 0) eqn:E0; [reflexivity|].
    apply Qeq_bool_neq in E0. field. done. }
  split; [reflexivity|].
  assert (Qltb x x = false) as ->; [|done].
  destruct (Qltb x x) eqn:Ex; [|done]. apply Qltb_lt in Ex. lra.
Qed.

Lemma X15_witness :
  exists s h' chg pct,
    get_ai_analysis_summary 1 one_row_store = inr (s, h') /\
    latest_rate s = Fin 100 /\ prev_rate s = Fin 100 /\
    change s = Fin chg /\ chg == 0 /\
    change_pct s = Fin pct /\ pct == 0 /\
    volatility s = NaN /\
    recent_trend s = down.
Proof.
  exact (X15_summary_of_one_row one_row_store 1 one_row_frame 100 eq_refl
           (singleton_frame_aligned _ _) eq_refl).
Defined.

(** ** The indicator computation followed by the signal table *)

Lemma length_signal_line name classify x :
  (length (signal_line name classify x) <= 1)%nat.
Proof. unfold signal_line. destruct (notna x); simpl; lia. Qed.

Lemma last_is_Some (s : series) :
  (1 <= length s)%nat -> exists x, last s = Some x /\ s !! (length s - 1)%nat = Some x.
Proof.
  intros Hlen. destruct (lookup_lt_is_Some_2 s (length s - 1)) as [x Hx]; [lia|].
  exists x. split; [|done]. rewrite last_lookup. rewrite <- Hx. f_equal. lia.
Qed.

Lemma adx_head_nan (p : series) : head_nan 27 (rolling 14 mean (dx p)).
Proof. apply (head_nan_rolling_chain 14 14); [lia | apply dx_head_nan]. Qed.

Lemma length_adx (p : series) : length (rolling 14 mean (dx p)) = length p.
Proof. eapply (indicator_columns_length p "ADX"). in_columns. Qed.

Lemma adx_short (p : series) :
  (1 <= length p)%nat -> (length p < 28)%nat ->
  rolling 14 mean (dx p) !! (length p - 1)%nat = Some NaN.
Proof. intros H1 H2. apply adx_head_nan; rewrite ?length_adx; lia. Qed.

(** The signal table of the enriched frame, from the last values of the
    three indicator columns. *)
Lemma tech_data_of_enriched (h : store) df (f : frame) (p : series) :
  h !! df = Some (enriched f p) ->
  (1 <= length p)%nat ->
  exists r k a,
    last (rsi p) = Some r /\ last (stoch_k p) = Some k /\
    last (rolling 14 mean (dx p)) = Some a /\
    rsi p !! (length p - 1)%nat = Some r /\
    stoch_k p !! (length p - 1)%nat = Some k /\
    rolling 14 mean (dx p) !! (length p - 1)%nat = Some a /\
    tech_data df h
    = inr (signal_line "RSI" rsi_signal r
           ++ signal_line "Stochastic %K" stoch_signal k
           ++ signal_line "ADX" adx_signal a, h).
Proof.
  intros Hdf Hlen.
  assert (Lr : length (rsi p) = length p) by apply length_rsi.
  assert (Lk : length (stoch_k p) = length p) by apply length_stoch_k.
  assert (La : length (rolling 14 mean (dx p)) = length p).
  { eapply (indicator_columns_length p "ADX"). in_columns. }
  destruct (last_is_Some (rsi p)) as (r & Hr & Hr'); [lia|].
  destruct (last_is_Some (stoch_k p)) as (k & Hk & Hk'); [lia|].
  destruct (last_is_Some (rolling 14 mean (dx p))) as (a & Ha & Ha'); [lia|].
  rewrite Lr in Hr'. rewrite Lk in Hk'. rewrite La in Ha'.
  exists r, k, a. repeat split; try done.
  eapply tech_data_run; try eassumption; apply enriched_lookup; in_columns.
Qed.

(** X16: after the indicator computation on a price Series of at least one
    row, the signal table is built without an exception and has at most
    three lines; with fewer than 14 rows it is empty, and with fewer than
    28 rows it has no ADX line. *)
Theorem X16_signal_table_after_indicators
    (h : store) (df : loc) (f : frame) (p : series) :
  h !! df = Some f ->
  f !! "EXCHANGE_RATE" = Some (NumCol p) ->
  (1 <= length p)%nat ->
  exists df' h' lines,
    calculate_technical_indicators df "EXCHANGE_RATE" h = inr (df', h') /\
    tech_data df' h' = inr (lines, h') /\
    (length lines <= 3)%nat /\
    ((length p < 14)%nat -> lines = []) /\
    ((length p < 28)%nat -> Forall (fun e => indicator e ≠ "ADX") lines).
Proof.
  intros Hdf Hp Hlen.
  destruct (calculate_technical_indicators_output h df f p Hdf Hp)
    as (df' & h' & E & Ho & _).
  destruct (tech_data_of_enriched h' df' f p Ho Hlen)
    as (r & k & a & _ & _ & _ & Hr & Hk & Ha & Et).
  exists df', h'. eexists. split; [exact E|]. split; [exact Et|].
  split; [|split].
  - rewrite !length_app.
    pose proof (length_signal_line "RSI" rsi_signal r).
    pose proof (length_signal_line "Stochastic %K" stoch_signal k).
    pose proof (length_signal_line "ADX" adx_signal a). lia.
  - intros Hshort.
    rewrite (rsi_head_nan p) in Hr by (rewrite ?length_rsi; lia).
    rewrite (stoch_k_head_nan p) in Hk by (rewrite ?length_stoch_k; lia).
    rewrite adx_short in Ha by lia.
    injection Hr as <-. injection Hk as <-. injection Ha as <-. reflexivity.
  - intros Hshort. rewrite adx_short in Ha by lia.
    injection Ha as <-. rewrite app_nil_r. apply Forall_app.
    unfold signal_line. split.
    + destruct (notna r); repeat constructor. discriminate.
    + destruct (notna k); repeat constructor. discriminate.
Qed.

Lemma X16_witness :
  exists df' h',
    calculate_technical_indicators 1 "EXCHANGE_RATE" sample_store = inr (df', h') /\
    tech_data df' h' = inr ([], h').
Proof.
  destruct (X16_signal_table_after_indicators sample_store 1 sample_frame
              (Fin <$> sample_rates) eq_refl eq_refl ltac:(simpl; lia))
    as (df' & h' & lines & E & Et & _ & Hshort & _).
  exists df', h'. split; [exact E|].
  rewrite <- (Hshort ltac:(simpl; lia)). exact Et.
Defined.

(** X17: after the indicator computation on strictly increasing finite
    rates of at least 15 rows the first line of the signal table is RSI
    with the value 100 and the signal "overbought"; on strictly decreasing
    ones it is RSI with the value 0 and the signal "oversold". *)
Theorem X17_signal_of_a_trend
    (h : store) (df : loc) (f : frame) (rates : list Q) :
  h !! df = Some f ->
  f !! "EXCHANGE_RATE" = Some (NumCol (Fin <$> rates)) ->
  (15 <= length rates)%nat ->
  exists df' h',
    calculate_technical_indicators df "EXCHANGE_RATE" h = inr (df', h') /\
    (strictly_increasing rates ->
     exists q rest,
       tech_data df' h'
       = inr ({| indicator := "RSI"; value := Fin q; signal := overbought |}
              :: rest, h') /\ q == 100) /\
    (strictly_decreasing rates ->
     exists q rest,
       tech_data df' h'
       = inr ({| indicator := "RSI"; value := Fin q; signal := oversold |}
              :: rest, h') /\ q == 0).
Proof.
  intros Hdf Hp Hlen.
  destruct (calculate_technical_indicators_output h df f _ Hdf Hp)
    as (df' & h' & E & Ho & _).
  destruct (tech_data_of_enriched h' df' f (Fin <$> rates) Ho)
    as (r & k & a & Hr & _ & _ & _ & _ & _ & Et).
  { rewrite length_fmap. lia. }
  exists df', h'. split; [exact E|]. split.
  - intros Hinc. rewrite (rsi_rising_last rates Hlen Hinc) in Hr.
    injection Hr as <-. eexists _, _. split; [exact Et | ring].
  - intros Hdec. destruct (rsi_falling_last rates Hlen Hdec) as (q & Hq & Hz).
    rewrite Hq in Hr. injection Hr as <-. exists q. eexists.
    split; [|exact Hz]. rewrite Et. unfold signal_line at 1. cbn [notna app].
    do 3 f_equal. unfold rsi_signal, flt, fgt.
    assert (Qltb 70 q = false) as ->.
    { destruct (Qltb 70 q) eqn:E1; [|done]. apply Qltb_lt in E1. lra. }
    assert (Qltb q 30 = true) as -> by (apply Qltb_lt; lra).
    reflexivity.
Qed.

Lemma X17_witness :
  exists df' h' q rest,
    calculate_technical_indicators 1 "EXCHANGE_RATE" rising_store = inr (df', h') /\
    tech_data df' h'
    = inr ({| indicator := "RSI"; value := Fin q; signal := overbought |}
           :: rest, h') /\ q == 100.
Proof.
  destruct (X17_signal_of_a_trend rising_store 1 rising_frame rising_rates
              eq_refl eq_refl ltac:(simpl; lia))
    as (df' & h' & E & Hup & _).
  destruct (Hup rising_rates_increasing) as (q & rest & Et & Hq).
  exists df', h', q, rest. repeat split; assumption.
Defined.

(** ** The summary before and after the indicator computation *)

(** X18: on an aligned frame of finite rates, the statistics computed on
    the enriched frame are the statistics computed on the input frame:
    the indicator computation leaves the price column as it is. *)
Theorem X18_summary_after_indicators
    (h : store) (df : loc) (f : frame) (rates : list Q) :
  h !! df = Some f ->
  frame_aligned f ->
  f !! "EXCHANGE_RATE" = Some (NumCol (Fin <$> rates)) ->
  rates ≠ [] ->
  exists df' h' s h1 h2,
    calculate_technical_indicators df "EXCHANGE_RATE" h = inr (df', h') /\
    get_ai_analysis_summary df h = inr (s, h1) /\
    get_ai_analysis_summary df' h' = inr (s, h2).
Proof.
  intros Hdf Hal Hp Hne.
  destruct (calculate_technical_indicators_output h df f _ Hdf Hp)
    as (df' & h' & E & Ho & _).
  destruct (rates_first_of_tail rates Hne) as [c Hc].
  destruct (lookup_lt_is_Some_2 rates (length rates - 2)) as [a Ha].
  { destruct rates; [done | simpl; lia]. }
  destruct (lookup_lt_is_Some_2 rates (length rates - 1)) as [b Hb].
  { destruct rates; [done | simpl; lia]. }
  assert (Hlast : last rates = Some b).
  { rewrite last_lookup, <- Hb. f_equal. lia. }
  destruct (get_ai_analysis_summary_fin h df f rates a b c Hdf Hal Hp Hlast Ha Hc)
    as (h1 & E1 & _).
  destruct (get_ai_analysis_summary_fin h' df' (enriched f (Fin <$> rates))
              rates a b c Ho (enriched_aligned f _ Hal Hp)
              (enriched_price f _ Hp) Hlast Ha Hc)
    as (h2 & E2 & _).
  by eexists df', h', _, h1, h2.
Qed.

Lemma X18_witness :
  exists df' h' s h1 h2,
    calculate_technical_indicators 1 "EXCHANGE_RATE" sample_store = inr (df', h') /\
    get_ai_analysis_summary 1 sample_store = inr (s, h1) /\
    get_ai_analysis_summary df' h' = inr (s, h2).
Proof.
  exact (X18_summary_after_indicators sample_store 1 sample_frame sample_rates
           eq_refl (singleton_frame_aligned _ _) eq_refl ltac:(discriminate)).
Defined.

(** ** The completion query *)

Lemma string_append_assoc (a b c : string) :
  String.append (String.append a b) c = String.append a (String.append b c).
Proof.
  induction a as [|x a IH]; [done|].
  change (String x (String.append (String.append a b) c)
          = String x (String.append a (String.append b c))).
  by rewrite IH.
Qed.

Lemma read_escape_quotes (prompt rest : string) :
  (forall r, rest ≠ String "'" r) ->
  read_sql_literal (escape_quotes prompt ++ String "'" rest)%string
  = Some (prompt, rest).
Proof.
  intros Hrest. induction prompt as [|c p IH].
  - simpl. destruct rest as [|c2 r2]; [done|].
    destruct (Ascii.eqb c2 "'"%char) eqn:E; [|done].
    apply Ascii.eqb_eq in E. subst c2. by destruct (Hrest r2).
  - cbn [escape_quotes]. destruct (Ascii.eqb c "'"%char) eqn:E.
    + apply Ascii.eqb_eq in E. subst c.
      change (read_sql_literal
                (String "'" (String "'" (escape_quotes p ++ String "'" rest)))
              = Some (String "'" p, rest)).
      cbn [read_sql_literal]. rewrite Ascii.eqb_refl. by rewrite IH.
    + change (read_sql_literal
                (String c (escape_quotes p ++ String "'" rest))
              = Some (String c p, rest)).
      cbn [read_sql_literal]. rewrite E. by rewrite IH.
Qed.

(** X19: the query is the text before the prompt, a quote, the escaped
    prompt, a quote and the closing text; whatever the prompt, what follows
    the opening quote, read as a single-quoted SQL literal in which the
    doubled quote is the only escape, is the prompt itself, and the literal
    ends at the quote that the program writes after it. *)
Theorem X19_prompt_is_one_literal (model prompt : string) :
  ai_query model prompt
  = String.append (ai_query_head model)
      (String "'" (String.append (escape_quotes prompt)
                                 (String "'" ai_query_tail))) /\
  read_sql_literal
    (String.append (escape_quotes prompt) (String "'" ai_query_tail))
  = Some (prompt, ai_query_tail).
Proof.
  split.
  - unfold ai_query, ai_query_head. rewrite !string_append_assoc. reflexivity.
  - apply read_escape_quotes. intros r. discriminate.
Qed.

Example escape_quotes_example :
  escape_quotes "USD/JPY's rate" = "USD/JPY''s rate"%string.
Proof. reflexivity. Qed.

(** ** The chart *)

Lemma draws_inside_ret {A} (n : nat) (a : A) : draws_inside n (mret a : P A).
Proof. intros fig a' fig' Hn Hok E. by injection E as <- <-. Qed.

Lemma draws_inside_bind {A B} (n : nat) (m : P A) (k : A -> P B) :
  draws_inside n m -> (forall a, draws_inside n (k a)) ->
  draws_inside n (m ≫= k).
Proof.
  intros Hm Hk fig b fig' Hn Hok E. unfold mbind, P_bind in E.
  destruct (m fig) as [e | [a fig1]] eqn:Em; [done|].
  destruct (Hm fig a fig1 Hn Hok Em) as [(Hn1 & Ht1 & Hh1) Hok1].
  destruct (Hk a fig1 b fig' Hn1 Hok1 E) as [(Hn2 & Ht2 & Hh2) Hok2].
  split; [|exact Hok2]. split; [exact Hn2|]. split; congruence.
Qed.

Lemma draws_inside_add_trace (n : nat) df k y name row :
  (1 <= row <= n)%nat -> draws_inside n (add_trace df k y name row).
Proof.
  intros Hrow fig a fig' Hn (Ht & Hl & Hu) E. unfold add_trace in E.
  destruct (df !! "DATE"); [|done]. destruct (df !! y); [|done].
  injection E as <- <-. split; [done|]. unfold rows_in_grid. simpl.
  split; [|done]. apply Forall_app. split; [done|].
  constructor; [simpl; lia | constructor].
Qed.

Lemma draws_inside_add_hline (n : nat) y row :
  (1 <= row <= n)%nat -> draws_inside n (add_hline y row).
Proof.
  intros Hrow fig a fig' Hn (Ht & Hl & Hu) E. unfold add_hline in E.
  injection E as <- <-. split; [done|]. unfold rows_in_grid. simpl.
  split; [done|]. split; [|done]. apply Forall_app. split; [done|].
  constructor; [simpl; lia | constructor].
Qed.

Lemma draws_inside_update_axis (n : nat) u row :
  (1 <= row <= n)%nat -> draws_inside n (update_axis u row).
Proof.
  intros Hrow fig a fig' Hn (Ht & Hl & Hu) E. unfold update_axis in E.
  injection E as <- <-. split; [done|]. unfold rows_in_grid. simpl.
  split; [done|]. split; [done|]. apply Forall_app. split; [done|].
  constructor; [simpl; lia | constructor].
Qed.

Ltac draws_inside_tac :=
  repeat first
    [ apply draws_inside_ret
    | apply draws_inside_add_trace; lia
    | apply draws_inside_add_hline; lia
    | apply draws_inside_update_axis; lia
    | apply draws_inside_bind; [|intros _]
    | match goal with
      | |- context [ (?a <=? ?b)%nat ] =>
          destruct (Nat.leb_spec a b); cbn [andb]
      | |- draws_inside _ (if ?b then _ else _) => destruct b; cbn [andb]
      end ].

Lemma draw_inside (df : frame) (n : nat) st ma bb rsi macd stoch adx :
  (1 <= n)%nat -> draws_inside n (draw df n st ma bb rsi macd stoch adx).
Proof.
  intros Hn. unfold draw. cbn [foldr]. draws_inside_tac.
Qed.

Lemma subplot_layout_count pair st rsi macd stoch adx :
  (subplot_layout pair st rsi macd stoch adx).1.1
  = (1 + Nat.b2n (st && (macd || rsi || adx)) + Nat.b2n (st && stoch))%nat.
Proof. by destruct st, rsi, macd, stoch, adx. Qed.

(** X20: the grid has one row for the price, one more when the technical
    display is on and one of MACD, RSI and ADX is chosen, and one more when
    it is on and the stochastics are chosen; there are as many titles and
    as many heights as rows, and the heights are positive and sum to 1. *)
Theorem X20_subplot_layout (pair : string) (st rsi macd stoch adx : bool) :
  let '(n, titles, heights) := subplot_layout pair st rsi macd stoch adx in
  n = (1 + Nat.b2n (st && (macd || rsi || adx)) + Nat.b2n (st && stoch))%nat /\
  length titles = n /\ length heights = n /\
  Forall (fun h => 0 < h) heights /\
  foldl Qplus 0 heights == 1.
Proof.
  destruct st, rsi, macd, stoch, adx; vm_compute;
    (split; [reflexivity|]); (split; [reflexivity|]); (split; [reflexivity|]);
    (split; [repeat constructor | reflexivity]).
Qed.

(** What a drawn chart keeps of the layout. *)
Lemma price_chart_layout (df : frame) (pair : string)
    (st ma bb rsi macd stoch adx : bool) (fig : figure) :
  price_chart df pair st ma bb rsi macd stoch adx = inr fig ->
  (fig_rows fig, fig_titles fig, fig_heights fig)
  = subplot_layout pair st rsi macd stoch adx /\
  rows_in_grid fig.
Proof.
  unfold price_chart. intros E.
  pose proof (subplot_layout_count pair st rsi macd stoch adx) as Hc.
  destruct (subplot_layout pair st rsi macd stoch adx) as [[n titles] heights].
  simpl in Hc.
  destruct (draw df n st ma bb rsi macd stoch adx (make_subplots n titles heights))
    as [e | [u fig']] eqn:Ed; [done|].
  injection E as ->.
  assert (Hn : (1 <= n)%nat) by lia.
  destruct (draw_inside df n st ma bb rsi macd stoch adx Hn
              (make_subplots n titles heights) u fig eq_refl
              (conj (Forall_nil_2 _) (conj (Forall_nil_2 _) (Forall_nil_2 _)))
              Ed) as [(Hr & Ht & Hh) Hok].
  split; [|exact Hok]. simpl in Ht, Hh. by rewrite Hr, Ht, Hh.
Qed.

(** X21: when the chart is drawn, the figure has the rows, titles and
    heights of the layout, and every trace, every horizontal line and
    every axis update is put into a row of the grid. *)
Theorem X21_chart_rows_in_grid (df : frame) (pair : string)
    (st ma bb rsi macd stoch adx : bool) (fig : figure) :
  price_chart df pair st ma bb rsi macd stoch adx = inr fig ->
  (fig_rows fig, fig_titles fig, fig_heights fig)
  = subplot_layout pair st rsi macd stoch adx /\
  rows_in_grid fig.
Proof. apply price_chart_layout. Qed.

Lemma X21_witness :
  exists fig,
    price_chart dated_frame "USD/JPY" true true false false false false true
    = inr fig /\
    rows_in_grid fig.
Proof.
  destruct (price_chart dated_frame "USD/JPY" true true false false false false
              true) as [e | fig] eqn:E; [vm_compute in E; discriminate|].
  exists fig. split; [reflexivity|].
  exact (proj2 (X21_chart_rows_in_grid dated_frame "USD/JPY" true true false
                  false false false true fig E)).
Defined.

Lemma enriched_derived (f : frame) (p : series) c :
  c ∈ derived_fields -> exists s, enriched f p !! c = Some (NumCol s).
Proof.
  intros Hc. destruct (derived_field_column p c Hc) as [s Hs].
  exists s. by apply enriched_lookup.
Qed.

Ltac derived_field := apply (bool_decide_unpack _); vm_compute; exact I.

(** The columns that the chart plots, in the order of the traces. *)
Lemma price_chart_complete (df : frame) (pair : string)
    (st ma bb rsi macd stoch adx : bool) :
  is_Some (df !! "DATE") -> is_Some (df !! "EXCHANGE_RATE") ->
  (forall c, c ∈ derived_fields -> is_Some (df !! c)) ->
  exists fig,
    price_chart df pair st ma bb rsi macd stoch adx = inr fig /\
    trace_y <$> fig_traces fig
    = ["EXCHANGE_RATE"]
      ++ (if st && ma then ["MA_20"; "MA_50"] else [])
      ++ (if st && bb then ["BB_Upper"; "BB_Lower"] else [])
      ++ (if st && macd then ["MACD"; "MACD_Signal"; "MACD_Histogram"] else [])
      ++ (if st && rsi then ["RSI"] else [])
      ++ (if st && adx then ["ADX"] else [])
      ++ (if st && stoch && (macd || rsi || adx)
          then ["Stoch_K"; "Stoch_D"] else []).
Proof.
  intros [d Hd] [c Hc] Hall.
  destruct (Hall "MA_20" ltac:(derived_field)) as [c1 H1].
  destruct (Hall "MA_50" ltac:(derived_field)) as [c2 H2].
  destruct (Hall "BB_Upper" ltac:(derived_field)) as [c3 H3].
  destruct (Hall "BB_Lower" ltac:(derived_field)) as [c4 H4].
  destruct (Hall "MACD" ltac:(derived_field)) as [c5 H5].
  destruct (Hall "MACD_Signal" ltac:(derived_field)) as [c6 H6].
  destruct (Hall "MACD_Histogram" ltac:(derived_field)) as [c7 H7].
  destruct (Hall "RSI" ltac:(derived_field)) as [c8 H8].
  destruct (Hall "ADX" ltac:(derived_field)) as [c9 H9].
  destruct (Hall "Stoch_K" ltac:(derived_field)) as [c10 H10].
  destruct (Hall "Stoch_D" ltac:(derived_field)) as [c11 H11].
  clear Hall. unfold price_chart, draw. cbn [foldr].
  unfold add_trace, in_columns_of.
  rewrite Hd, Hc, H1, H2, H3, H4, H5, H6, H7, H8, H9, H10, H11.
  destruct st, ma, bb, rsi, macd, stoch, adx;
    (eexists; split; [vm_compute; reflexivity | reflexivity]).
Qed.

(** X22: on the frame that the indicator computation returns for a frame
    with dates, the chart is drawn whatever is chosen.  It plots the rate;
    with the technical display on it plots the chosen averages, bands, MACD
    columns, RSI and ADX; and it plots the stochastics only when they are
    chosen together with at least one of MACD, RSI and ADX, although the
    grid has a row titled for them whenever they are chosen. *)
Theorem X22_chart_after_indicators
    (h : store) (df : loc) (f : frame) (p : series) (d : column)
    (pair : string) (st ma bb rsi macd stoch adx : bool) :
  h !! df = Some f ->
  f !! "EXCHANGE_RATE" = Some (NumCol p) ->
  f !! "DATE" = Some d ->
  exists df' h' out fig,
    calculate_technical_indicators df "EXCHANGE_RATE" h = inr (df', h') /\
    h' !! df' = Some out /\
    price_chart out pair st ma bb rsi macd stoch adx = inr fig /\
    trace_y <$> fig_traces fig
    = ["EXCHANGE_RATE"]
      ++ (if st && ma then ["MA_20"; "MA_50"] else [])
      ++ (if st && bb then ["BB_Upper"; "BB_Lower"] else [])
      ++ (if st && macd then ["MACD"; "MACD_Signal"; "MACD_Histogram"] else [])
      ++ (if st && rsi then ["RSI"] else [])
      ++ (if st && adx then ["ADX"] else [])
      ++ (if st && stoch && (macd || rsi || adx)
          then ["Stoch_K"; "Stoch_D"] else []) /\
    (st && stoch = true -> last (fig_titles fig) = Some "🔄 ストキャスティクス").
Proof.
  intros Hdf Hp Hd.
  destruct (calculate_technical_indicators_output h df f p Hdf Hp)
    as (df' & h' & E & Ho & _).
  destruct (price_chart_complete (enriched f p) pair st ma bb rsi macd stoch adx)
    as (fig & Ef & Ht).
  { exists d. rewrite enriched_other; [done | derived_field]. }
  { exists (NumCol p). by apply enriched_price. }
  { intros c Hc. destruct (enriched_derived f p c Hc) as [s Hs]. by exists (NumCol s). }
  exists df', h', (enriched f p), fig.
  split; [exact E|]. split; [exact Ho|]. split; [exact Ef|]. split; [exact Ht|].
  intros Hs.
  destruct (price_chart_layout (enriched f p) pair st ma bb rsi macd stoch adx fig Ef)
    as [El _].
  assert (Et : fig_titles fig
               = (subplot_layout pair st rsi macd stoch adx).1.2)
    by (by rewrite <- El).
  rewrite Et. destruct st, stoch; try discriminate.
  destruct rsi, macd, adx; reflexivity.
Qed.

Lemma X22_witness :
  exists df' h' out fig,
    calculate_technical_indicators 1 "EXCHANGE_RATE" dated_store = inr (df', h') /\
    h' !! df' = Some out /\
    price_chart out "USD/JPY" true false false false false true false = inr fig /\
    trace_y <$> fig_traces fig = ["EXCHANGE_RATE"] /\
    last (fig_titles fig) = Some "🔄 ストキャスティクス".
Proof.
  destruct (X22_chart_after_indicators dated_store 1 dated_frame
              (Fin <$> sample_rates) _ "USD/JPY" true false false false false
              true false eq_refl eq_refl eq_refl)
    as (df' & h' & out & fig & E & Ho & Ef & Ht & Hl).
  exists df', h', out, fig.
  split; [exact E|]. split; [exact Ho|]. split; [exact Ef|].
  split; [exact Ht | exact (Hl eq_refl)].
Defined.

(** X23: on a frame with dates and rates but without the derived columns
    the averages and ADX are skipped, and the first of the bands, MACD,
    RSI and the stochastics that is to be plotted raises the key error of
    its column; when none is to be plotted the chart shows the rate
    alone. *)
Theorem X23_chart_without_indicators
    (df : frame) (d c : column) (pair : string)
    (st ma bb rsi macd stoch adx : bool) :
  df !! "DATE" = Some d ->
  df !! "EXCHANGE_RATE" = Some c ->
  (forall k, k ∈ derived_fields -> df !! k = None) ->
  match (if st && bb then Some "BB_Upper"
         else if st && macd then Some "MACD"
         else if st && rsi then Some "RSI"
         else if st && stoch && adx then Some "Stoch_K"
         else None) with
  | Some k => price_chart df pair st ma bb rsi macd stoch adx = inl (KeyError k)
  | None =>
      exists fig,
        price_chart df pair st ma bb rsi macd stoch adx = inr fig /\
        trace_y <$> fig_traces fig = ["EXCHANGE_RATE"]
  end.
Proof.
  intros Hd Hc Hall.
  pose proof (Hall "MA_20" ltac:(derived_field)) as H1.
  pose proof (Hall "MA_50" ltac:(derived_field)) as H2.
  pose proof (Hall "BB_Upper" ltac:(derived_field)) as H3.
  pose proof (Hall "BB_Lower" ltac:(derived_field)) as H4.
  pose proof (Hall "MACD" ltac:(derived_field)) as H5.
  pose proof (Hall "MACD_Signal" ltac:(derived_field)) as H6.
  pose proof (Hall "MACD_Histogram" ltac:(derived_field)) as H7.
  pose proof (Hall "RSI" ltac:(derived_field)) as H8.
  pose proof (Hall "ADX" ltac:(derived_field)) as H9.
  pose proof (Hall "Stoch_K" ltac:(derived_field)) as H10.
  pose proof (Hall "Stoch_D" ltac:(derived_field)) as H11.
  clear Hall. unfold price_chart, draw. cbn [foldr].
  unfold add_trace, in_columns_of.
  rewrite Hd, Hc, H1, H2, H3, H4, H5, H6, H7, H8, H9, H10, H11.
  destruct st, ma, bb, rsi, macd, stoch, adx; cbn [andb];
    first [ vm_compute; reflexivity
          | eexists; split; [vm_compute; reflexivity | reflexivity] ].
Qed.

Lemma X23_witness :
  price_chart dated_frame "USD/JPY" true true false true true false true
  = inl (KeyError "MACD").
Proof.
  apply (X23_chart_without_indicators dated_frame _ _ "USD/JPY" true true false
           true true false true eq_refl eq_refl).
  intros k Hk. unfold dated_frame.
  apply lookup_insert_None. split; [apply lookup_singleton_None|];
    intros <-; revert Hk; apply (bool_decide_unpack _); vm_compute; exact I.
Defined.

(** ** The metrics at the head of the page *)

Lemma header_metrics_fin
    (h : store) df (f : frame) (rates : list Q) (d : series) a b :
  h !! df = Some f ->
  frame_aligned f ->
  f !! "EXCHANGE_RATE" = Some (NumCol (Fin <$> rates)) ->
  f !! "Daily_Return" = Some (NumCol d) ->
  last rates = Some b ->
  rates !! (length rates - 2)%nat = Some a ->
  header_metrics df h
  = inr ({| current_rate := Fin b;
            metric_change := Fin (b - a);
            metric_change_pct :=
              if Qeq_bool a 0 then Fin 0 else Fin ((b - a) / a * 100);
            period_high := Fin (qmaxl rates);
            period_low := Fin (qminl rates);
            metric_volatility := fmul (std (observations d)) (Fin 100) |}, h).
Proof.
  intros Hdf Hal Hp Hd Hlast Hprev.
  set (p := Fin <$> rates) in *.
  assert (Hne : rates ≠ []) by (intros ->; discriminate).
  assert (Hlen : (1 <= length rates)%nat).
  { destruct rates; [done | simpl; lia]. }
  assert (Hplen : length p = length rates) by apply length_fmap.
  assert (Hlastp : p !! (length p - 1)%nat = Some (Fin b)).
  { apply last_lookup_Some. unfold p. by rewrite fmap_last, Hlast. }
  assert (Hprevrun :
    (if (1 <? frame_len f)%nat
     then r ← getcol df "EXCHANGE_RATE"; iloc_neg r 2
     else mret (Fin b)) h = inr (Fin a, h)).
  { rewrite (frame_len_aligned f _ _ Hal Hp). simpl. fold p. rewrite Hplen.
    destruct (Nat.ltb_spec 1 (length rates)) as [H2|H2].
    - erewrite bind_inr by by eapply getcol_run.
      apply iloc_neg_run; [fold p; lia|]. fold p. rewrite Hplen.
      unfold p. by rewrite list_lookup_fmap, Hprev.
    - assert (length rates = 1)%nat as E1 by lia.
      rewrite E1 in Hprev. simpl in Hprev.
      rewrite last_lookup, E1 in Hlast. simpl in Hlast.
      rewrite Hprev in Hlast. by injection Hlast as ->. }
  assert (Hobs : observations p = p) by apply observations_fin.
  unfold header_metrics.
  erewrite bind_inr by by eapply getcol_run.
  erewrite bind_inr by (apply iloc_neg_run; [lia | exact Hlastp]).
  erewrite bind_inr by (unfold len_df; rewrite Hdf; reflexivity).
  erewrite bind_inr by exact Hprevrun.
  do 2 erewrite bind_inr by by eapply getcol_run.
  erewrite bind_inr by (eapply getcol_run; [exact Hdf | exact Hd]).
  rewrite Hobs. unfold p. rewrite min_fin, max_fin by done.
  unfold mret, M_ret, ret. f_equal. f_equal. f_equal.
  unfold fne. simpl. by destruct (Qeq_bool a 0).
Qed.

(** X24: after the indicator computation on finite rates, the metrics at
    the head of the page are computed, and their current rate, change,
    percentage change, maximum and minimum are those of the summary of the
    completion prompt; their volatility is 100 times the sample standard
    deviation of the daily returns that are not NaN, where the summary has
    the standard deviation of the rates. *)
Theorem X24_header_metrics_after_indicators
    (h : store) (df : loc) (f : frame) (rates : list Q) :
  h !! df = Some f ->
  frame_aligned f ->
  f !! "EXCHANGE_RATE" = Some (NumCol (Fin <$> rates)) ->
  rates ≠ [] ->
  exists df' h' m s h2,
    calculate_technical_indicators df "EXCHANGE_RATE" h = inr (df', h') /\
    header_metrics df' h' = inr (m, h') /\
    get_ai_analysis_summary df' h' = inr (s, h2) /\
    current_rate m = latest_rate s /\
    metric_change m = change s /\
    metric_change_pct m = change_pct s /\
    period_high m = max_rate s /\
    period_low m = min_rate s /\
    metric_volatility m
    = fmul (std (observations (pct_change (Fin <$> rates)))) (Fin 100) /\
    volatility s = std (Fin <$> rates).
Proof.
  intros Hdf Hal Hp Hne.
  destruct (calculate_technical_indicators_output h df f _ Hdf Hp)
    as (df' & h' & E & Ho & _).
  destruct (rates_first_of_tail rates Hne) as [c Hc].
  destruct (lookup_lt_is_Some_2 rates (length rates - 2)) as [a Ha].
  { destruct rates; [done | simpl; lia]. }
  destruct (lookup_lt_is_Some_2 rates (length rates - 1)) as [b Hb].
  { destruct rates; [done | simpl; lia]. }
  assert (Hlast : last rates = Some b).
  { rewrite last_lookup, <- Hb. f_equal. lia. }
  destruct (get_ai_analysis_summary_fin h' df' (enriched f (Fin <$> rates))
              rates a b c Ho (enriched_aligned f _ Hal Hp)
              (enriched_price f _ Hp) Hlast Ha Hc)
    as (h2 & E2 & _).
  assert (Hd : enriched f (Fin <$> rates) !! "Daily_Return"
               = Some (NumCol (pct_change (Fin <$> rates)))).
  { apply enriched_lookup. in_columns. }
  pose proof (header_metrics_fin h' df' (enriched f (Fin <$> rates)) rates _ a b
                Ho (enriched_aligned f _ Hal Hp) (enriched_price f _ Hp) Hd
                Hlast Ha) as E1.
  eexists df', h', _, _, h2.
  split; [exact E|]. split; [exact E1|]. split; [exact E2|].
  repeat split; reflexivity.
Qed.

Lemma X24_witness :
  exists df' h' m s h2,
    calculate_technical_indicators 1 "EXCHANGE_RATE" sample_store = inr (df', h') /\
    header_metrics df' h' = inr (m, h') /\
    get_ai_analysis_summary df' h' = inr (s, h2) /\
    current_rate m = latest_rate s /\
    metric_change_pct m = change_pct s.
Proof.
  destruct (X24_header_metrics_after_indicators sample_store 1 sample_frame
              sample_rates eq_refl (singleton_frame_aligned _ _) eq_refl
              ltac:(discriminate))
    as (df' & h' & m & s & h2 & E & E1 & E2 & H1 & _ & H3 & _).
  by exists df', h', m, s, h2.
Defined.

(** ** The normalized rates *)



(** ** Loading several pairs *)

Lemma split_on_one (sep : ascii) (s q : string) :
  split_on sep s = [q] -> q = s.
Proof.
  revert q. induction s as [|c s IH]; intros q E; simpl in E.
  - by injection E as <-.
  - destruct (Ascii.eqb c sep).
    + destruct s; simpl in E; [discriminate|].
      destruct (Ascii.eqb a sep); [discriminate|].
      by destruct (split_on sep s).
    + destruct (split_on sep s) as [|w ws] eqn:Es.
      * destruct s; simpl in Es; [discriminate|].
        destruct (Ascii.eqb a sep); [discriminate|].
        by destruct (split_on sep s).
      * injection E as <- ->. by rewrite (IH w eq_refl).
Qed.

(** The two parts of a split joined by the separator are the string. *)
Lemma split_on_two (sep : ascii) (s b q : string) :
  split_on sep s = [b; q] -> String.append b (String sep q) = s.
Proof.
  revert b q. induction s as [|c s IH]; intros b q E; simpl in E; [done|].
  destruct (Ascii.eqb c sep) eqn:Ec.
  - apply Ascii.eqb_eq in Ec as ->. injection E as <- E.
    by rewrite (split_on_one _ _ _ E).
  - destruct (split_on sep s) as [|w ws] eqn:Es; [done|].
    injection E as <- ->.
    change (String c (String.append w (String sep q)) = String c s).
    by rewrite (IH w q eq_refl).
Qed.

Lemma length_split_on (sep : ascii) (s : string) :
  length (split_on sep s)
  = S (count_occ ascii_dec (String.list_ascii_of_string s) sep).
Proof.
  induction s as [|c s IH]; [done|]. simpl.
  destruct (Ascii.eqb_spec c sep) as [-> | Hne].
  - destruct (ascii_dec sep sep); [|done]. simpl. by rewrite IH.
  - destruct (ascii_dec c sep); [done|].
    destruct (split_on sep s); simpl in IH |- *; [done | exact IH].
Qed.

Lemma dict_set_new (k : string) (v : frame) (d : dict) :
  k ∉ d.*1 -> dict_set k v d = d ++ [(k, v)].
Proof.
  induction d as [|[k' v'] d IH]; intros Hk; [done|]. simpl.
  rewrite fmap_cons in Hk. apply not_elem_of_cons in Hk as [Hne Hk].
  destruct (String.eqb_spec k' k) as [->|_]; [done|]. by rewrite IH.
Qed.

Lemma entry_of_key load pair e :
  entry_of load pair = Some e -> e.1 = pair.
Proof.
  unfold entry_of. intros E.
  destruct (split_on "/" pair) as [|b [|q [|]]]; try discriminate.
  destruct (load b q) as [df|]; [|discriminate].
  destruct (df_empty df); [discriminate|]. by injection E as <-.
Qed.

Lemma load_multiple_fx_data_from_run load (pairs : list string) (acc : dict) :
  Forall (loadable load) pairs ->
  NoDup pairs ->
  (forall k, k ∈ acc.*1 -> k ∉ pairs) ->
  load_multiple_fx_data_from load pairs acc
  = inr (acc ++ omap (entry_of load) pairs).
Proof.
  revert acc. induction pairs as [|pair rest IH]; intros acc Hok Hnd Hacc.
  { simpl. by rewrite app_nil_r. }
  apply Forall_cons in Hok as [(b & q & df & Es & El) Hok].
  apply NoDup_cons in Hnd as [Hnot Hnd].
  assert (Hname : String.append b (String.append "/" q) = pair)
    by exact (split_on_two _ _ _ _ Es).
  assert (Ee : entry_of load pair
               = if df_empty df then None else Some (pair, df)).
  { unfold entry_of. by rewrite Es, El. }
  cbn [load_multiple_fx_data_from omap list_omap]. rewrite Es, El, Hname, Ee.
  destruct (df_empty df).
  - apply IH; [done | done |].
    intros k Hk Hin. apply (Hacc k Hk). by right.
  - rewrite dict_set_new; last first.
    { intros Hin. apply (Hacc _ Hin). by left. }
    rewrite IH; [by rewrite <- app_assoc | done | done |].
    intros k Hk Hin. rewrite fmap_app in Hk.
    apply elem_of_app in Hk as [Hk | Hk].
    + apply (Hacc k Hk). by right.
    + apply list_elem_of_singleton in Hk. simpl in Hk. by subst k.
Qed.

(** X26: for distinct pairs, each two currencies around one slash with a
    query that returns, the result has one entry for each pair whose frame
    has rows, in the order of the pairs, under the name of the pair itself
    (the two currencies joined again are the pair) and with the frame of
    its query; the pairs without rows are left out. *)
Theorem X26_load_multiple_fx_data
    (load : string -> string -> option frame) (pairs : list string) :
  Forall (loadable load) pairs ->
  NoDup pairs ->
  exists d,
    load_multiple_fx_data load pairs = inr d /\
    d = omap (entry_of load) pairs /\
    d.*1 = filter (fun pair => is_Some (entry_of load pair)) pairs /\
    Forall (fun e => df_empty e.2 = false) d.
Proof.
  intros Hok Hnd. exists (omap (entry_of load) pairs).
  split; [|split; [done|split]].
  - unfold load_multiple_fx_data.
    rewrite load_multiple_fx_data_from_run; [done | done | done |].
    intros k Hk. by apply elem_of_nil in Hk.
  - clear Hok Hnd. induction pairs as [|pair rest IH]; [done|].
    cbn [omap list_omap]. destruct (entry_of load pair) as [e|] eqn:E.
    + rewrite filter_cons_True by (by rewrite E).
      rewrite fmap_cons, <- IH. by rewrite (entry_of_key _ _ _ E).
    + rewrite filter_cons_False; [exact IH|]. rewrite E. by intros [? ?].
  - apply Forall_forall. intros e He.
    apply list_elem_of_omap in He as (pair & _ & E).
    unfold entry_of in E.
    destruct (split_on "/" pair) as [|b [|q [|]]]; try discriminate.
    destruct (load b q) as [df|]; [|discriminate].
    destruct (df_empty df) eqn:Ee; [discriminate|]. by injection E as <-.
Qed.

Lemma X26_witness :
  exists d fr,
    load_multiple_fx_data sample_load ["EUR/JPY"; "USD/JPY"] = inr d /\
    d = [("USD/JPY"%string, fr)].
Proof.
  destruct (X26_load_multiple_fx_data sample_load ["EUR/JPY"; "USD/JPY"])
    as (d & E & Hd & _).
  - repeat constructor; by eexists _, _, _.
  - apply (bool_decide_unpack _). vm_compute. exact I.
  - exists d, sample_frame. split; [exact E|]. rewrite Hd. vm_compute. reflexivity.
Defined.

(** X27: the first pair that does not have exactly one slash raises the
    value error of the unpacking, when the pairs before it are loaded, and
    whatever the pairs after it are. *)
Theorem X27_pair_without_one_slash
    (load : string -> string -> option frame)
    (before after : list string) (pair : string) :
  Forall (loadable load) before ->
  count_occ ascii_dec (String.list_ascii_of_string pair) "/"%char ≠ 1%nat ->
  load_multiple_fx_data load (before ++ pair :: after) = inl ValueError.
Proof.
  intros Hok Hc. unfold load_multiple_fx_data. generalize (@nil (string * frame)).
  induction before as [|p rest IH]; intros acc.
  - cbn [app load_multiple_fx_data_from].
    pose proof (length_split_on "/" pair) as Hl.
    destruct (split_on "/" pair) as [|b [|q [|]]]; try done.
    simpl in Hl. lia.
  - apply Forall_cons in Hok as [(b & q & df & Es & El) Hok].
    cbn [app load_multiple_fx_data_from]. rewrite Es, El. by apply IH.
Qed.

Lemma X27_witness :
  load_multiple_fx_data sample_load ["USD/JPY"; "EURJPY"; "GBP/JPY"]
  = inl ValueError.
Proof.
  apply (X27_pair_without_one_slash sample_load ["USD/JPY"] ["GBP/JPY"] "EURJPY").
  - repeat constructor. by eexists _, _, _.
  - vm_compute. discriminate.
Defined.
